(** * MultiProcessorSiteDirector: pilot submission for multi-processor queues

    A shallow embedding of
    [WorkloadManagementSystem/Agent/MultiProcessorSiteDirector.py]
    (class [MultiProcessorSiteDirector], methods [getQueues] and
    [submitJobs]) together with the properties the specification states
    about it.

    Python integers are [Z]; text is [string]; Python dictionaries that are
    looked up by key are [gmap]s; [S_OK]/[S_ERROR] is the [Result] type.
    Calls that leave the agent (matcher, pilot database, proxy manager,
    computing element, [random]) are answered by an environment that sees
    the whole history of calls issued so far.

    A [for] loop over a dictionary visits the keys in the order of
    [map_to_list]: Python fixes no order, and no statement below relies on
    one.  The priorities of the task queues and the random numbers are
    Python floats, that is binary64 numbers: they are the primitive floats
    of Rocq, with the same rounding. *)

From Stdlib Require Import ZArith Ascii String List Lia Floats.
From stdpp Require Import base strings gmap list pretty.

Local Open Scope Z_scope.

(** ** Python values used by the agent *)

(** [S_OK( value )] and [S_ERROR( message )]. *)
Inductive Result (A : Type) : Type :=
| S_OK (v : A)
| S_ERROR (msg : string).
Arguments S_OK {A} v.
Arguments S_ERROR {A} msg.

Definition isOK {A} (r : Result A) : bool :=
  match r with S_OK _ => true | S_ERROR _ => false end.

(** The exceptions the embedded code can raise by itself. *)
Inductive PyExc : Type :=
| KeyError
| ValueError
| RuntimeError
| ZeroDivisionError.

(** How a block of statements ends: it falls through to the next
    statement, executes [return], raises, or (for the [while] loop only)
    the model's fuel is exhausted. *)
Inductive Ctl (A : Type) : Type :=
| Next (a : A)
| Return (r : Result unit)
| Raise (e : PyExc)
| OutOfFuel.
Arguments Next {A} a.
Arguments Return {A} r.
Arguments Raise {A} e.
Arguments OutOfFuel {A}.

(** *** Strings *)

Definition lower_ascii (c : ascii) : ascii :=
  let n := nat_of_ascii c in
  if ((65 <=? n) && (n <=? 90))%nat then ascii_of_nat (n + 32) else c.

(** [str.lower()] *)
Fixpoint lower (s : string) : string :=
  match s with
  | EmptyString => EmptyString
  | String c r => String (lower_ascii c) (lower r)
  end.

Definition is_digit (c : ascii) : bool :=
  let n := nat_of_ascii c in ((48 <=? n) && (n <=? 57))%nat.

Definition digit_value (c : ascii) : Z := Z.of_nat (nat_of_ascii c) - 48.

(** Value of a string made of decimal digits only. *)
Fixpoint digits_value (acc : Z) (s : string) : option Z :=
  match s with
  | EmptyString => Some acc
  | String c r =>
      if is_digit c then digits_value (10 * acc + digit_value c) r else None
  end.

Definition unsigned_value (s : string) : option Z :=
  match s with
  | EmptyString => None
  | _ => digits_value 0 s
  end.

Definition is_pyspace (c : ascii) : bool :=
  let n := nat_of_ascii c in ((n =? 32) || ((9 <=? n) && (n <=? 13)))%nat.

Fixpoint lstrip (s : string) : string :=
  match s with
  | String c r => if is_pyspace c then lstrip r else s
  | EmptyString => EmptyString
  end.

Definition strip (s : string) : string :=
  String.rev (lstrip (String.rev (lstrip s))).

(** [int( s )] for a text argument: surrounding white space, an optional
    sign, decimal digits.  [None] stands for [ValueError]. *)
Definition py_int (s : string) : option Z :=
  match strip s with
  | String "-" r => Z.opp <$> unsigned_value r
  | String "+" r => unsigned_value r
  | t => unsigned_value t
  end.

(** Longest prefix of digits and the rest. *)
Fixpoint span_digits (s : string) : string * string :=
  match s with
  | String c r =>
      if is_digit c then let '(d, t) := span_digits r in (String c d, t)
      else (EmptyString, s)
  | EmptyString => (EmptyString, EmptyString)
  end.

(** [re.match( r'^(?P<processors>[0-9]+)Processors$', tag )]: the value of
    the group when the tag matches.  [$] also matches before one final
    newline. *)
Definition matchProcessors (tag : string) : option Z :=
  let '(d, t) := span_digits tag in
  if bool_decide (t = "Processors" ∨ t = "Processors" +:+ String "010" EmptyString)
  then unsigned_value d else None.

(** ['%dProcessors' % processors] *)
Definition processorsTag (processors : Z) : string :=
  pretty processors +:+ "Processors".

(** ** The queue catalogue *)

(** The free-form parameters of a queue, [queueDict[q]['ParametersDict']]:
    the entries the agent reads.  An absent key is [None]. *)
Record ParametersDict : Type := {
  pMaxProcessors : option string;
  pWholeNode : option string;
  pTags : option (list string);
  pCPUTime : option string;
  pJobExecDir : option string;
  pHttpProxy : option string
}.

(** One entry of [self.queueDict]. *)
Record Queue : Type := {
  CEName : string;
  Site : string;
  CEType : string;
  QueueName : string;
  Platform : string;
  CEParameters : list (string * string);   (* ce.getParameterDict() *)
  BundleProxy : option bool;
  Parameters : ParametersDict
}.

(** The description of a computing element in [resourceDict[site][ce]]. *)
Record CEDef : Type := {
  ceMaxProcessors : option string;
  ceWholeNode : option string
}.

Definition setTags (p : ParametersDict) (t : list string) : ParametersDict :=
  {| pMaxProcessors := pMaxProcessors p; pWholeNode := pWholeNode p;
     pTags := Some t; pCPUTime := pCPUTime p;
     pJobExecDir := pJobExecDir p; pHttpProxy := pHttpProxy p |}.

Definition setParameters (q : Queue) (p : ParametersDict) : Queue :=
  {| CEName := CEName q; Site := Site q; CEType := CEType q;
     QueueName := QueueName q; Platform := Platform q;
     CEParameters := CEParameters q; BundleProxy := BundleProxy q;
     Parameters := p |}.

(** [d.get( key, fallback )] where the fallback is itself optional. *)
Definition get_or {A} (o fallback : option A) : option A :=
  match o with Some v => Some v | None => fallback end.

(** [range( 1, n + 1 )] *)
Definition range1 (n : Z) : list Z :=
  (λ k : nat, Z.of_nat k + 1) <$> seq 0 (Z.to_nat n).

(** Lines 32-39 of [getQueues]: the processor tags added to a queue.
    [None] is the [ValueError] of [int( maxProcessors )]. *)
Definition processorsTags (ceDef : CEDef) (p : ParametersDict)
  : option (list string) :=
  match get_or (pMaxProcessors p) (ceMaxProcessors ceDef) with
  | None => Some []
  | Some "" => Some []
  | Some maxProcessors =>
      n ← py_int maxProcessors;
      Some (processorsTag <$> range1 n)
  end.

(** Lines 41-43: the test of the whole-node flag. *)
Definition wholeNodeFlag (ceDef : CEDef) (p : ParametersDict) : bool :=
  let ceWN := default "false" (ceWholeNode ceDef) in
  let wholeNode := default ceWN (pWholeNode p) in
  bool_decide (lower wholeNode = "yes" ∨ lower wholeNode = "true").

(** Lines 32-45: the parameters of the queue after the tags are added.
    The tags go behind whatever [Tags] entry was there. *)
Definition deriveTags (ceDef : CEDef) (p : ParametersDict)
  : option ParametersDict :=
  procs ← processorsTags ceDef p;
  let p1 :=
    match procs with
    | [] => p
    | _ => setTags p (default [] (pTags p) ++ procs)
    end in
  Some (if wholeNodeFlag ceDef p1
        then setTags p1 (default [] (pTags p1) ++ ["WholeNode"])
        else p1).

(** Lines 47-52: does the queue stay in [self.queueDict]? *)
Definition keepQueue (p : ParametersDict) : bool :=
  match pTags p with
  | None => false
  | Some tags =>
      negb (bool_decide ("2Processors" ∉ tags) && bool_decide ("WholeNode" ∉ tags))
  end.

(** The body of [for queueName in self.queueDict] (lines 28-52), acting
    on the dictionary being iterated. *)
Definition getQueues_body (resourceDict : gmap (string * string) CEDef)
    (queueName : string) (queueDict : gmap string Queue)
  : Ctl unit * gmap string Queue :=
  match queueDict !! queueName with
  | None => (Raise KeyError, queueDict)
  | Some q =>
      match resourceDict !! (Site q, CEName q) with
      | None => (Raise KeyError, queueDict)
      | Some ceDef =>
          match deriveTags ceDef (Parameters q) with
          | None => (Raise ValueError, queueDict)
          | Some p =>
              if keepQueue p
              then (Next tt, <[queueName := setParameters q p]> queueDict)
              else (Next tt, delete queueName queueDict)
          end
      end
  end.

(** [for queueName in self.queueDict]: the iterator was created when the
    dictionary had [used] entries; each time it is asked for the next key
    (also when there is none left) it first compares that number with the
    present size and raises [RuntimeError] when they differ. *)
Fixpoint getQueues_loop (resourceDict : gmap (string * string) CEDef)
    (used : nat) (keys : list string) (queueDict : gmap string Queue)
  : Ctl unit * gmap string Queue :=
  if bool_decide (size queueDict = used) then
    match keys with
    | [] => (Next tt, queueDict)
    | queueName :: rest =>
        match getQueues_body resourceDict queueName queueDict with
        | (Next _, queueDict') => getQueues_loop resourceDict used rest queueDict'
        | stop => stop
        end
    end
  else (Raise RuntimeError, queueDict).

(** [getQueues( self, resourceDict )].  [base] is the result of
    [SiteDirector.getQueues], which filled [queueDict]. *)
Definition getQueues (base : Result unit)
    (resourceDict : gmap (string * string) CEDef)
    (queueDict : gmap string Queue)
  : Ctl unit * gmap string Queue :=
  match base with
  | S_ERROR msg => (Return (S_ERROR msg), queueDict)
  | S_OK _ =>
      match getQueues_loop resourceDict (size queueDict)
              (map_to_list queueDict).*1 queueDict with
      | (Next _, queueDict') => (Return (S_OK tt), queueDict')
      | stop => stop
      end
  end.

(** ** The agent, its state and the outside world *)

(** One task queue in the answer of the matcher. *)
Record TaskQueue : Type := {
  tqSites : option (list string);
  tqJobTypes : option (list string);
  tqJobs : Z;
  tqPriority : float;
  tqTags : option (list string)
}.

(** The requirements sent to [getMatchingTaskQueues] ([tqDict], [ceDict]). *)
Record MatchReq : Type := {
  mCEParameters : list (string * string);
  mSetup : option string;
  mCPUTime : option Z;
  mGridCE : option string;
  mJobType : option string;
  mCommunity : option string;
  mOwnerGroup : option (list string);
  mSubmitPool : list string;
  mPlatform : list string;
  mSite : option (list string);
  mTag : list string
}.

(** The options of the agent ([self.xxx] set by the base class). *)
Record Config : Type := {
  setup : string;
  defaultSubmitPools : list string;
  vo : string;
  voGroups : list string;
  platforms : list string;
  sites : list string;
  rssFlag : bool;
  pilotWaitingFlag : bool;
  maxQueueLength : Z;
  maxPilotsToSubmit : Z;
  failedQueueCycleFactor : Z;
  pilotDN : string;
  pilotGroup : string;
  localhost : string
}.

(** What [ce.submitJob] answers on success: the pilot references and,
    when present, [PilotStampDict]. *)
Record Submission : Type := {
  pilotRefs : list string;
  pilotStampDict : option (list (string * string))
}.

(** The calls that leave the agent, with their arguments. *)
Inductive Event : Type :=
| CallPlatforms (p : list string)
| CallMatcher (req : MatchReq)
| CallCountPilots (tqs : list Z) (recent : bool)
| CallUsableSites
| CallSiteMask
| CallShuffle (queues : list string)
| CallProxy (dn group : string) (cpuTime : Z)
| CallSetProxy (queue : string) (validity : Z)
| CallQueueSlots (queue : string)
| CallGetExecutable (queue : string) (pilots : Z) (bundleProxy : bool)
    (httpProxy jobExecDir : string)
| CallSubmitJob (queue executable : string) (chunk processors : Z)
| CallUnlink (executable : string)
| CallRandom
| CallAddPilotTQReference (pilots : list string) (tq : Z) (ceType : string)
    (stamps : list (string * string))
| CallSetPilotStatus (pilot ceName site queueName : string).

(** The outside world.  Every answer may depend on the whole history; the
    list starts with the call being answered. *)
Record Env : Type := {
  env_platforms : list Event → Result (list string);
  env_matcher : list Event → Result (gmap Z TaskQueue);
  env_countPilots : list Event → Result Z;
  env_siteMask : list Event → Result (list string);
  env_shuffle : list Event → list string;
  env_proxy : list Event → Result string;
  env_queueSlots : list Event → gmap string Z → Z * gmap string Z;
  env_getExecutable : list Event → Result (string * Z);
  env_submitJob : list Event → Result Submission;
  env_random : list Event → float;
  env_addPilotTQReference : list Event → Result unit;
  env_setPilotStatus : list Event → Result unit
}.

(** The memory of the agent during [submitJobs]: the tables that live in
    [self] and the local variables that survive a loop iteration. *)
Record State : Type := {
  failedQueues : gmap string Z;       (* self.failedQueues *)
  queueSlots : gmap string Z;         (* self.queueSlots[q]['AvailableSlots'] *)
  proxy : option string;              (* self.proxy *)
  totalSubmittedPilots : Z;
  matchedQueues : Z;
  tqID : Z;
  queueSubmittedPilots : Z;
  pilotsToSubmit : Z;
  trace : list Event
}.

(** Modelled from the spec: the table [self.failedQueues] is created by the
    base class [SiteDirector], which is not part of the sources at hand;
    following the spec, every queue carries an integer failure counter,
    zero until the first failure. *)
Definition failedCounter (σ : State) (queue : string) : Z :=
  default 0 (failedQueues σ !! queue).

Definition availableSlots (σ : State) (queue : string) : Z :=
  default 0 (queueSlots σ !! queue).

Definition set_failedQueues (f : gmap string Z) (σ : State) : State :=
  {| failedQueues := f; queueSlots := queueSlots σ; proxy := proxy σ;
     totalSubmittedPilots := totalSubmittedPilots σ;
     matchedQueues := matchedQueues σ; tqID := tqID σ;
     queueSubmittedPilots := queueSubmittedPilots σ;
     pilotsToSubmit := pilotsToSubmit σ; trace := trace σ |}.

Definition set_queueSlots (s : gmap string Z) (σ : State) : State :=
  {| failedQueues := failedQueues σ; queueSlots := s; proxy := proxy σ;
     totalSubmittedPilots := totalSubmittedPilots σ;
     matchedQueues := matchedQueues σ; tqID := tqID σ;
     queueSubmittedPilots := queueSubmittedPilots σ;
     pilotsToSubmit := pilotsToSubmit σ; trace := trace σ |}.

Definition set_proxy (p : string) (σ : State) : State :=
  {| failedQueues := failedQueues σ; queueSlots := queueSlots σ;
     proxy := Some p;
     totalSubmittedPilots := totalSubmittedPilots σ;
     matchedQueues := matchedQueues σ; tqID := tqID σ;
     queueSubmittedPilots := queueSubmittedPilots σ;
     pilotsToSubmit := pilotsToSubmit σ; trace := trace σ |}.

Definition set_totalSubmittedPilots (n : Z) (σ : State) : State :=
  {| failedQueues := failedQueues σ; queueSlots := queueSlots σ;
     proxy := proxy σ; totalSubmittedPilots := n;
     matchedQueues := matchedQueues σ; tqID := tqID σ;
     queueSubmittedPilots := queueSubmittedPilots σ;
     pilotsToSubmit := pilotsToSubmit σ; trace := trace σ |}.

Definition set_matchedQueues (n : Z) (σ : State) : State :=
  {| failedQueues := failedQueues σ; queueSlots := queueSlots σ;
     proxy := proxy σ; totalSubmittedPilots := totalSubmittedPilots σ;
     matchedQueues := n; tqID := tqID σ;
     queueSubmittedPilots := queueSubmittedPilots σ;
     pilotsToSubmit := pilotsToSubmit σ; trace := trace σ |}.

Definition set_tqID (t : Z) (σ : State) : State :=
  {| failedQueues := failedQueues σ; queueSlots := queueSlots σ;
     proxy := proxy σ; totalSubmittedPilots := totalSubmittedPilots σ;
     matchedQueues := matchedQueues σ; tqID := t;
     queueSubmittedPilots := queueSubmittedPilots σ;
     pilotsToSubmit := pilotsToSubmit σ; trace := trace σ |}.

Definition set_queueSubmittedPilots (n : Z) (σ : State) : State :=
  {| failedQueues := failedQueues σ; queueSlots := queueSlots σ;
     proxy := proxy σ; totalSubmittedPilots := totalSubmittedPilots σ;
     matchedQueues := matchedQueues σ; tqID := tqID σ;
     queueSubmittedPilots := n;
     pilotsToSubmit := pilotsToSubmit σ; trace := trace σ |}.

Definition set_pilotsToSubmit (n : Z) (σ : State) : State :=
  {| failedQueues := failedQueues σ; queueSlots := queueSlots σ;
     proxy := proxy σ; totalSubmittedPilots := totalSubmittedPilots σ;
     matchedQueues := matchedQueues σ; tqID := tqID σ;
     queueSubmittedPilots := queueSubmittedPilots σ;
     pilotsToSubmit := n; trace := trace σ |}.

Definition set_trace (t : list Event) (σ : State) : State :=
  {| failedQueues := failedQueues σ; queueSlots := queueSlots σ;
     proxy := proxy σ; totalSubmittedPilots := totalSubmittedPilots σ;
     matchedQueues := matchedQueues σ; tqID := tqID σ;
     queueSubmittedPilots := queueSubmittedPilots σ;
     pilotsToSubmit := pilotsToSubmit σ; trace := t |}.

(** *** Statements as state transformers *)

Definition M (A : Type) : Type := State → Ctl A * State.

Definition ret {A} (a : A) : M A := λ σ, (Next a, σ).

Definition bind {A B} (m : M A) (k : A → M B) : M B := λ σ,
  match m σ with
  | (Next a, σ') => k a σ'
  | (Return r, σ') => (Return r, σ')
  | (Raise e, σ') => (Raise e, σ')
  | (OutOfFuel, σ') => (OutOfFuel, σ')
  end.

Notation "x <~ m ;; k" := (bind m (λ x, k))
  (at level 100, m at next level, k at level 200, right associativity).
Notation "m ;;; k" := (bind m (λ _, k))
  (at level 100, k at level 200, right associativity).

Definition return_ {A} (r : Result unit) : M A := λ σ, (Return r, σ).
Definition raise {A} (e : PyExc) : M A := λ σ, (Raise e, σ).
Definition outOfFuel {A} : M A := λ σ, (OutOfFuel, σ).
Definition get {A} (f : State → A) : M A := λ σ, (Next (f σ), σ).
Definition modify (f : State → State) : M unit := λ σ, (Next tt, f σ).

(** [d[ key ]] on a dictionary held in the model as an option. *)
Definition item {A} (o : option A) : M A :=
  match o with Some a => ret a | None => raise KeyError end.

(** [for x in l: body( x )] *)
Fixpoint forEach {A} (l : list A) (body : A → M unit) : M unit :=
  match l with
  | [] => ret tt
  | x :: rest => body x ;;; forEach rest body
  end.

(** [continue]: the rest of the loop body is skipped. *)
Definition continue : M unit := ret tt.

(** [sumPriority] and [tqPriorityList] of lines 336-340: the running sums
    of the priorities, in the order of [tagTqIDList]. *)
Fixpoint priorityList (taskQueueDict : gmap Z TaskQueue) (sumPriority : float)
    (tagTqIDList : list Z) : option (list (Z * float) * float) :=
  match tagTqIDList with
  | [] => Some ([], sumPriority)
  | tq :: rest =>
      t ← taskQueueDict !! tq;
      let sumPriority' := (sumPriority + tqPriority t)%float in
      '(l, total) ← priorityList taskQueueDict sumPriority' rest;
      Some ((tq, sumPriority') :: l, total)
  end.

(** Lines 345-348: the first task queue whose running sum exceeds [rndm];
    [None] when the loop ends without assigning [tqID]. *)
Fixpoint selectTQ (rndm : float) (tqPriorityList : list (Z * float))
  : option Z :=
  match tqPriorityList with
  | [] => None
  | (tq, prio) :: rest =>
      if (rndm <? prio)%float then Some tq else selectTQ rndm rest
  end.

(** [tqDict[tqID].append( pilotID )], creating the list when needed. *)
Definition appendPilot (tqDict : gmap Z (list string)) (tq : Z)
    (pilotID : string) : gmap Z (list string) :=
  <[tq := default [] (tqDict !! tq) ++ [pilotID]]> tqDict.

(** The pilots still wanted for a tag of a queue, lines 293 and 298. *)
Definition tagBudget (maxPilots submitted totalSlots tagTQJobs tagWaitingPilots : Z)
  : Z :=
  Z.min (maxPilots - submitted)
        (Z.max 0 (Z.min totalSlots (tagTQJobs - tagWaitingPilots))).

(** Lines 162-168: the processor tags of a queue. *)
Definition processorTagsOf (queueTags : list string) : list string :=
  filter (λ tag, is_Some (matchProcessors tag)) queueTags
  ++ (if bool_decide ("WholeNode" ∈ queueTags) then ["WholeNode"] else []).

(** Lines 245-251: the number of processors asked for a tag. *)
Definition processorsOf (tag : string) : Z :=
  let processors := default 1 (matchProcessors tag) in
  if bool_decide (tag = "WholeNode") then -1 else processors.

(** What the loop over the answer of the global query collects
    (lines 93-111). *)
Record Demand : Type := {
  jobSites : gset string;
  anySite : bool;
  testSites : gset string;
  totalWaitingJobs : Z
}.

Definition namedSites (l : list string) : list string :=
  filter (λ site, lower site ≠ "any") l.

Definition demandStep (d : Demand) (t : TaskQueue) : Demand :=
  {| jobSites :=
       match tqSites t with
       | Some l => jobSites d ∪ list_to_set (namedSites l)
       | None => jobSites d
       end;
     anySite :=
       match tqSites t with
       | Some l => anySite d || existsb (λ site, bool_decide (lower site = "any")) l
       | None => true
       end;
     testSites :=
       match tqJobTypes t, tqSites t with
       | Some _, Some l => testSites d ∪ list_to_set (namedSites l)
       | _, _ => testSites d
       end;
     totalWaitingJobs := totalWaitingJobs d + tqJobs t |}.

Definition globalDemand (tqs : list (Z * TaskQueue)) : Demand :=
  foldl demandStep
    {| jobSites := ∅; anySite := false; testSites := ∅; totalWaitingJobs := 0 |}
    tqs.*2.

(** Lines 219-235: the task queues and the jobs of every processor tag. *)
Definition tagStep (tq : Z) (jobs : Z)
    (acc : gmap string (list Z) * gmap string Z) (tag : string)
  : gmap string (list Z) * gmap string Z :=
  (<[tag := default [] (acc.1 !! tag) ++ [tq]]> acc.1,
   <[tag := default 0 (acc.2 !! tag) + jobs]> acc.2).

Definition partitionStep (processorTags : list string)
    (acc : gmap string (list Z) * gmap string Z) (e : Z * TaskQueue)
  : gmap string (list Z) * gmap string Z :=
  match tqTags e.2 with
  | None => acc
  | Some tags =>
      foldl (tagStep e.1 (tqJobs e.2)) acc
            (filter (λ tag, tag ∈ processorTags) tags)
  end.

Definition partitionByTag (processorTags : list string)
    (taskQueueDict : gmap Z TaskQueue)
  : gmap string (list Z) * gmap string Z :=
  foldl (partitionStep processorTags) (∅, ∅) (map_to_list taskQueueDict).

(** ** [submitJobs] *)

Section Agent.

Variable env : Env.
Variable cfg : Config.
Variable queueDict : gmap string Queue.

(** A call to the outside: it is appended to the history and answered. *)
Definition ask {A} (ev : Event) (answer : Env → list Event → A) : M A :=
  λ σ, let tr := ev :: trace σ in (Next (answer env tr), set_trace tr σ).

(** A call whose answer is not looked at. *)
Definition tell (ev : Event) : M unit :=
  λ σ, (Next tt, set_trace (ev :: trace σ) σ).

(** [self.failedQueues[queue] += 1] *)
Definition countFailure (queue : string) : M unit :=
  modify (λ σ,
    set_failedQueues (<[queue := failedCounter σ queue + 1]> (failedQueues σ)) σ).

(** [self.getQueueSlots( queue, False )]: a method of the base class that
    reads and updates [self.queueSlots]. *)
Definition getQueueSlots (queue : string) : M Z :=
  λ σ, let tr := CallQueueSlots queue :: trace σ in
       let '(n, slots) := env_queueSlots env tr (queueSlots σ) in
       (Next n, set_queueSlots slots (set_trace tr σ)).

(** Lines 343-351: every pilot is given a task queue. *)
Fixpoint assignPilots (sumPriority : float)
    (tqPriorityList : list (Z * float))
    (pilotList : list string) (tqDict : gmap Z (list string))
  : M (gmap Z (list string)) :=
  match pilotList with
  | [] => ret tqDict
  | pilotID :: rest =>
      r <~ ask CallRandom env_random ;;
      let rndm := (r * sumPriority)%float in
      match selectTQ rndm tqPriorityList with
      | Some tq => modify (set_tqID tq)
      | None => ret tt
      end ;;;
      tq <~ get tqID ;;
      assignPilots sumPriority tqPriorityList rest (appendPilot tqDict tq pilotID)
  end.

(** Lines 353-371: the pilots of one task queue are written to the
    pilot database. *)
Definition recordGroup (q : Queue) (stampDict : list (string * string))
    (group : Z * list string) : M unit :=
  modify (set_tqID group.1) ;;;
  result <~ ask (CallAddPilotTQReference group.2 group.1 (CEType q) stampDict)
                env_addPilotTQReference ;;
  match result with
  | S_ERROR _ => continue
  | S_OK _ =>
      forEach group.2 (λ pilot,
        result <~ ask (CallSetPilotStatus pilot (CEName q) (Site q) (QueueName q))
                      env_setPilotStatus ;;
        match result with
        | S_ERROR _ => continue
        | S_OK _ => ret tt
        end)
  end.

(** Lines 301-371: one turn of the [while pilotsToSubmit > 0] loop. *)
Definition submitOnce (queue : string) (q : Queue)
    (taskQueueDict : gmap Z TaskQueue) (tagTqIDList : list Z)
    (processors : Z) : M unit :=
  n <~ get pilotsToSubmit ;;
  let bundleProxy := default false (BundleProxy q) in
  let jobExecDir := default "" (pJobExecDir (Parameters q)) in
  let httpProxy := default "" (pHttpProxy (Parameters q)) in
  result <~ ask (CallGetExecutable queue n bundleProxy httpProxy jobExecDir)
                env_getExecutable ;;
  match result with
  | S_ERROR msg => return_ (S_ERROR msg)
  | S_OK (executable, pilotSubmissionChunk) =>
      result <~ ask (CallSubmitJob queue executable pilotSubmissionChunk processors)
                    env_submitJob ;;
      (if bool_decide (CEType q ≠ "HTCondorCE")
       then tell (CallUnlink executable) else ret tt) ;;;
      match result with
      | S_ERROR _ =>
          modify (set_pilotsToSubmit 0) ;;;
          countFailure queue ;;;
          continue
      | S_OK submission =>
          modify (λ σ, set_pilotsToSubmit (pilotsToSubmit σ - pilotSubmissionChunk) σ) ;;;
          modify (λ σ, set_queueSubmittedPilots
                         (queueSubmittedPilots σ + pilotSubmissionChunk) σ) ;;;
          let pilotList := pilotRefs submission in
          slots <~ get (λ σ, queueSlots σ !! queue) ;;
          slots <~ item slots ;;
          modify (λ σ, set_queueSlots
                         (<[queue := slots - Z.of_nat (length pilotList)]> (queueSlots σ)) σ) ;;;
          modify (λ σ, set_totalSubmittedPilots
                         (totalSubmittedPilots σ + Z.of_nat (length pilotList)) σ) ;;;
          let stampDict := default [] (pilotStampDict submission) in
          prio <~ item (priorityList taskQueueDict 0%float tagTqIDList) ;;
          tell CallRandom ;;;
          tqDict <~ assignPilots prio.2 prio.1 pilotList ∅ ;;
          forEach (map_to_list tqDict) (recordGroup q stampDict)
      end
  end.

(** Lines 300-371: [while pilotsToSubmit > 0]. *)
Fixpoint submitLoop (fuel : nat) (queue : string) (q : Queue)
    (taskQueueDict : gmap Z TaskQueue) (tagTqIDList : list Z)
    (processors : Z) : M unit :=
  n <~ get pilotsToSubmit ;;
  if 0 <? n then
    match fuel with
    | O => outOfFuel
    | S fuel' =>
        submitOnce queue q taskQueueDict tagTqIDList processors ;;;
        submitLoop fuel' queue q taskQueueDict tagTqIDList processors
    end
  else ret tt.

(** Lines 287-371: from the number of slots to the end of the loop. *)
Definition submitToTag (fuel : nat) (queue : string) (q : Queue)
    (taskQueueDict : gmap Z TaskQueue) (tagTqIDList : list Z)
    (processors totalSlots tagTQJobs tagWaitingPilots : Z) : M unit :=
  if totalSlots =? 0 then continue
  else
    modify (λ σ, set_pilotsToSubmit
                   (tagBudget (maxPilotsToSubmit cfg) (queueSubmittedPilots σ)
                              totalSlots tagTQJobs tagWaitingPilots) σ) ;;;
    submitLoop fuel queue q taskQueueDict tagTqIDList processors.

(** Lines 256-271: the waiting pilots of the task queues of a tag. *)
Definition countWaitingPilots (tagTqIDList : list Z) : M Z :=
  if pilotWaitingFlag cfg then
    result <~ ask (CallCountPilots tagTqIDList true) env_countPilots ;;
    ret (match result with S_OK v => v | S_ERROR _ => 0 end)
  else ret 0.

(** Lines 241-371: the body of [for tag in tqIDListByProcessors]. *)
Definition processTag (fuel : nat) (queue : string) (q : Queue)
    (queueCPUTime : Z) (taskQueueDict : gmap Z TaskQueue)
    (tqIDListByProcessors : gmap string (list Z))
    (totalTQJobsByProcessors : gmap string Z) (tag : string) : M unit :=
  let processors := processorsOf tag in
  tagTQJobs <~ item (totalTQJobsByProcessors !! tag) ;;
  tagTqIDList <~ item (tqIDListByProcessors !! tag) ;;
  tagWaitingPilots <~ countWaitingPilots tagTqIDList ;;
  if tagTQJobs <=? tagWaitingPilots then continue
  else
    let cpuTime := queueCPUTime + 86400 in
    result <~ ask (CallProxy (pilotDN cfg) (pilotGroup cfg) cpuTime) env_proxy ;;
    match result with
    | S_ERROR msg => return_ (S_ERROR msg)
    | S_OK p =>
        modify (set_proxy p) ;;;
        tell (CallSetProxy queue (cpuTime - 60)) ;;;
        totalSlots <~ getQueueSlots queue ;;
        submitToTag fuel queue q taskQueueDict tagTqIDList processors
                    totalSlots tagTQJobs tagWaitingPilots
    end.

(** Lines 186-207: the requirements of the query for one queue. *)
Definition ceDict (q : Queue) (siteMask : bool) (platform : list string)
    (processorTags : list string) : MatchReq :=
  {| mCEParameters := CEParameters q;
     mSetup := None;
     mCPUTime := None;
     mGridCE := Some (CEName q);
     mJobType := if siteMask then None else Some "Test";
     mCommunity := if bool_decide (vo cfg = "") then None else Some (vo cfg);
     mOwnerGroup := match voGroups cfg with [] => None | g => Some g end;
     mSubmitPool := defaultSubmitPools cfg;
     mPlatform := platform;
     mSite := None;
     mTag := processorTags |}.

(** Lines 147-152: the test on the failures of the queue.  [true]: the
    queue is left out of this cycle. *)
Definition queueFailedRecently (σ : State) (queue : string) : bool :=
  bool_decide (failedCounter σ queue `mod` failedQueueCycleFactor cfg ≠ 0).

(** Lines 209-371: from the query for the queue to its last tag. *)
Definition matchAndSubmit (fuel : nat) (queue : string) (q : Queue)
    (siteMask : bool) (processorTags : list string) (queueCPUTime : Z)
    (platform : list string) : M unit :=
  result <~ ask (CallMatcher (ceDict q siteMask platform processorTags))
                env_matcher ;;
  match result with
  | S_ERROR msg => return_ (S_ERROR msg)
  | S_OK taskQueueDict =>
      if bool_decide (taskQueueDict = ∅) then continue
      else
        modify (λ σ, set_matchedQueues (matchedQueues σ + 1) σ) ;;;
        let byTag := partitionByTag processorTags taskQueueDict in
        modify (set_queueSubmittedPilots 0) ;;;
        forEach (map_to_list byTag.1).*1
                (processTag fuel queue q queueCPUTime taskQueueDict
                            byTag.1 byTag.2)
  end.

(** Lines 154-371: a queue that was not left out for its failures. *)
Definition processEligibleQueue (fuel : nat) (demand : Demand)
    (siteMaskList : list string) (queue : string) : M unit :=
  q <~ item (queueDict !! queue) ;;
  queueTags <~ item (pTags (Parameters q)) ;;
  let siteName := Site q in
  let siteMask := bool_decide (siteName ∈ siteMaskList) in
  let processorTags := processorTagsOf queueTags in
  if negb (anySite demand) && bool_decide (siteName ∉ jobSites demand)
  then continue
  else if negb siteMask && bool_decide (siteName ∉ testSites demand)
  then continue
  else
    match pCPUTime (Parameters q) with
    | None => continue
    | Some cpu =>
        match py_int cpu with
        | None => raise ValueError
        | Some cpuTime =>
            let queueCPUTime :=
              if maxQueueLength cfg <? cpuTime then maxQueueLength cfg
              else cpuTime in
            result <~ ask (CallPlatforms [Platform q]) env_platforms ;;
            match result with
            | S_ERROR _ => continue
            | S_OK platform =>
                matchAndSubmit fuel queue q siteMask processorTags
                               queueCPUTime platform
            end
        end
    end.

(** Lines 145-371: the body of [for queue in queues]. *)
Definition processQueue (fuel : nat) (demand : Demand)
    (siteMaskList : list string) (queue : string) : M unit :=
  if bool_decide (failedQueueCycleFactor cfg = 0) then raise ZeroDivisionError
  else
    failed <~ get (λ σ, queueFailedRecently σ queue) ;;
    if (failed : bool) then countFailure queue ;;; continue
    else processEligibleQueue fuel demand siteMaskList queue.

(** Lines 77-79: the tags of all the queues. *)
Fixpoint allTags (queues : list string) : option (list string) :=
  match queues with
  | [] => Some []
  | queue :: rest =>
      q ← queueDict !! queue;
      tags ← pTags (Parameters q);
      more ← allTags rest;
      Some (tags ++ more)
  end.

(** Lines 64-80: the requirements of the query for all the queues. *)
Definition tqDict (platform : list string) (tags : list string) : MatchReq :=
  {| mCEParameters := [];
     mSetup := Some (setup cfg);
     mCPUTime := Some 9999999;
     mGridCE := None;
     mJobType := None;
     mCommunity := if bool_decide (vo cfg = "") then None else Some (vo cfg);
     mOwnerGroup := match voGroups cfg with [] => None | g => Some g end;
     mSubmitPool := defaultSubmitPools cfg;
     mPlatform := platform;
     mSite := Some (sites cfg);
     mTag := remove_dups tags |}.

(** Lines 127-140: the sites that may receive pilots. *)
Definition getSiteMaskList : M (list string) :=
  if rssFlag cfg then
    result <~ ask CallUsableSites env_siteMask ;;
    match result with
    | S_OK l => ret l
    | S_ERROR _ => return_ (S_ERROR "Can not get the site status")
    end
  else
    result <~ ask CallSiteMask env_siteMask ;;
    match result with
    | S_OK l => ret l
    | S_ERROR _ => return_ (S_ERROR "Can not get the site mask")
    end.

(** Lines 93-372: the cycle once the global query found waiting jobs. *)
Definition submitToQueues (fuel : nat) (queues : list string)
    (value : gmap Z TaskQueue) : M unit :=
  let taskQueues := map_to_list value in
  let demand := globalDemand taskQueues in
  modify (λ σ, set_tqID (default (tqID σ) (last taskQueues.*1)) σ) ;;;
  let tqIDList := taskQueues.*1 in
  _ <~ ask (CallCountPilots tqIDList false) env_countPilots ;;
  siteMaskList <~ getSiteMaskList ;;
  queues <~ ask (CallShuffle queues) env_shuffle ;;
  modify (set_totalSubmittedPilots 0) ;;;
  modify (set_matchedQueues 0) ;;;
  forEach queues (processQueue fuel demand siteMaskList).

(** [submitJobs( self )], up to its last statement. *)
Definition submitJobs_body (fuel : nat) : M unit :=
  let queues := (map_to_list queueDict).*1 in
  result <~ ask (CallPlatforms (platforms cfg)) env_platforms ;;
  match result with
  | S_ERROR msg => return_ (S_ERROR msg)
  | S_OK platform =>
      tags <~ item (allTags queues) ;;
      result <~ ask (CallMatcher (tqDict platform tags)) env_matcher ;;
      match result with
      | S_ERROR msg => return_ (S_ERROR msg)
      | S_OK value =>
          if bool_decide (value = ∅) then return_ (S_OK tt)
          else submitToQueues fuel queues value
      end
  end.

(** [submitJobs( self )]: the body, then [return S_OK()]. *)
Definition submitJobs (fuel : nat) : M unit :=
  submitJobs_body fuel ;;; return_ (S_OK tt).

End Agent.

(** ** The specification's vocabulary *)

(** The maximum-processors value in force: the entry of the queue
    parameters, else the one of the computing element. *)
Definition effectiveMaxProcessors (ceDef : CEDef) (p : ParametersDict)
  : option string :=
  get_or (pMaxProcessors p) (ceMaxProcessors ceDef).

(** The whole-node flag in force, likewise. *)
Definition effectiveWholeNode (ceDef : CEDef) (p : ParametersDict)
  : option string :=
  get_or (pWholeNode p) (ceWholeNode ceDef).

(** Equality of two texts up to the case of the letters. *)
Definition eq_nocase (s t : string) : Prop := lower s = lower t.

Definition truthy (s : string) : Prop := eq_nocase s "yes" ∨ eq_nocase s "true".

(** The bound the specification puts on the pilots of one tag of a queue:
    the smallest of the free slots, the jobs without a waiting pilot and
    what is left of the ceiling of the queue, and not less than zero. *)
Definition specBound (maxPilots alreadySubmitted availableSlots tagJobCount
    tagWaitingPilots : Z) : Z :=
  Z.max 0 (Z.min availableSlots
             (Z.min (tagJobCount - tagWaitingPilots)
                    (maxPilots - alreadySubmitted))).

(** The memory after [self.failedQueues[queue] += 1]. *)
Definition bump (queue : string) (σ : State) : State :=
  set_failedQueues (<[queue := failedCounter σ queue + 1]> (failedQueues σ)) σ.

Section Cycles.

Variable env : Env.
Variable cfg : Config.
Variable queueDict : gmap string Queue.
Variable fuel : nat.
Variable demand : Demand.
Variable siteMaskList : list string.
Variable queue : string.

(** [n] cycles in a row, as one queue goes through them. *)
Fixpoint repeatQueue (n : nat) : M unit :=
  match n with
  | O => ret tt
  | S n' =>
      processQueue env cfg queueDict fuel demand siteMaskList queue ;;;
      repeatQueue n'
  end.

(** The memory of the agent after [n] such cycles. *)
Definition afterCycles (n : nat) (σ : State) : State := (repeatQueue n σ).2.

(** The queue is left out in each of the next [n] cycles and is taken
    again in the cycle after them. *)
Definition skippedFor (n : nat) (σ : State) : Prop :=
  (∀ j : nat, (j < n)%nat →
     queueFailedRecently cfg (afterCycles j σ) queue = true)
  ∧ queueFailedRecently cfg (afterCycles n σ) queue = false.

End Cycles.

(** The calls of one submission that the computing element refuses: the
    executable is asked for, the submission is tried, and the executable
    is removed unless the computing element is an HTCondorCE. *)
Definition failedSubmissionCalls (queue : string) (q : Queue) (n : Z)
    (executable : string) (chunk processors : Z) : list Event :=
  (if bool_decide (CEType q ≠ "HTCondorCE") then [CallUnlink executable] else [])
  ++ [CallSubmitJob queue executable chunk processors;
      CallGetExecutable queue n (default false (BundleProxy q))
        (default "" (pHttpProxy (Parameters q)))
        (default "" (pJobExecDir (Parameters q)))].

(** The memory of the agent after such a submission. *)
Definition afterFailedSubmission (queue : string) (q : Queue)
    (executable : string) (chunk processors : Z) (σ : State) : State :=
  bump queue
    (set_pilotsToSubmit 0
       (set_trace (failedSubmissionCalls queue q (pilotsToSubmit σ) executable
                     chunk processors ++ trace σ) σ)).

(** ** What is expected of the outside *)

(** Modelled from the spec: [getExecutable] belongs to the base class
    [SiteDirector], which is not part of the sources at hand; following
    the spec, the bundle it builds is sized to at most the pilots asked
    for. *)
Definition executableWithinRequest (env : Env) : Prop :=
  ∀ tr queue n bundleProxy httpProxy jobExecDir executable chunk,
    env_getExecutable env
      (CallGetExecutable queue n bundleProxy httpProxy jobExecDir :: tr)
      = S_OK (executable, chunk) →
    chunk ≤ n.

(** Modelled from the spec: [submitJob] belongs to the computing element
    classes, which are not part of the sources at hand; following the
    spec, the computing element returns the identities of the pilots of
    the chunk, possibly fewer than asked for. *)
Definition pilotsWithinChunk (env : Env) : Prop :=
  ∀ tr queue executable chunk processors submission,
    env_submitJob env (CallSubmitJob queue executable chunk processors :: tr)
      = S_OK submission →
    Z.of_nat (length (pilotRefs submission)) ≤ chunk.

(** ** Assertions on the memory of the agent *)

(** From a memory in [P], the statement [m] either falls through with a
    value and a memory in [Q], or stops ([return], an exception, no fuel)
    with a memory in [R]. *)
Definition hoare {A} (P : State → Prop) (m : M A) (Q : A → State → Prop)
    (R : State → Prop) : Prop :=
  ∀ σ, P σ →
    match m σ with
    | (Next a, σ') => Q a σ'
    | (_, σ') => R σ'
    end.

(** The pilots counted for one tag stay within a budget: [s0] and [t0] are
    the counts when the tag was begun, [budget] what was wanted then; the
    count of pilot identities is followed only when [identities] holds. *)
Definition withinBudget (s0 t0 budget : Z) (identities : Prop) (σ : State)
  : Prop :=
  queueSubmittedPilots σ - s0 + Z.max 0 (pilotsToSubmit σ) ≤ Z.max 0 budget
  ∧ (identities → totalSubmittedPilots σ - t0 ≤ queueSubmittedPilots σ - s0).

(** ** Reading a history *)

(** The pilots written to the pilot database, with their task queue,
    latest first. *)
Definition recordedPilots (tr : list Event) : list (list string * Z) :=
  omap (λ ev, match ev with
              | CallAddPilotTQReference pilots tq _ _ => Some (pilots, tq)
              | _ => None
              end) tr.


(** The computing elements the matcher was asked about, latest first. *)
Definition queriedCEs (tr : list Event) : list string :=
  omap (λ ev, match ev with
              | CallMatcher req => mGridCE req
              | _ => None
              end) tr.

(** The submissions tried, with the queue and the chunk, latest first. *)
Definition submissions (tr : list Event) : list (string * Z) :=
  omap (λ ev, match ev with
              | CallSubmitJob queue _ chunk _ => Some (queue, chunk)
              | _ => None
              end) tr.

(** The processor counts of the submissions tried, latest first. *)
Definition submittedProcessors (tr : list Event) : list Z :=
  omap (λ ev, match ev with
              | CallSubmitJob _ _ _ processors => Some processors
              | _ => None
              end) tr.

(** ** Sample data *)

Definition sampleCE : CEDef :=
  {| ceMaxProcessors := None; ceWholeNode := Some "True" |}.

Definition sampleParameters : ParametersDict :=
  {| pMaxProcessors := Some "4"; pWholeNode := None; pTags := None;
     pCPUTime := Some "1000"; pJobExecDir := None; pHttpProxy := None |}.

Definition sampleTags : list string :=
  ["1Processors"; "2Processors"; "3Processors"; "4Processors"; "WholeNode"].

Definition sampleQueue (p : ParametersDict) : Queue :=
  {| CEName := "ce.example.org"; Site := "LCG.Example.org"; CEType := "ARC";
     QueueName := "long"; Platform := "x86_64"; CEParameters := [];
     BundleProxy := None; Parameters := p |}.

Definition sampleResources : gmap (string * string) CEDef :=
  {[ ("LCG.Example.org", "ce.example.org") :=
       {| ceMaxProcessors := None; ceWholeNode := None |} ]}.

(** A queue with one processor only and no whole-node flag. *)
Definition singleProcessorParameters : ParametersDict :=
  {| pMaxProcessors := Some "1"; pWholeNode := None; pTags := None;
     pCPUTime := Some "1000"; pJobExecDir := None; pHttpProxy := None |}.

Definition sampleConfig : Config :=
  {| setup := "Production"; defaultSubmitPools := ["Default"]; vo := "";
     voGroups := []; platforms := []; sites := ["LCG.Example.org"];
     rssFlag := false; pilotWaitingFlag := true; maxQueueLength := 259200;
     maxPilotsToSubmit := 100; failedQueueCycleFactor := 10;
     pilotDN := "/DC=org/CN=pilot"; pilotGroup := "pilot";
     localhost := "agent.example.org" |}.

Definition emptyState : State :=
  {| failedQueues := ∅; queueSlots := ∅; proxy := None;
     totalSubmittedPilots := 0; matchedQueues := 0; tqID := 0;
     queueSubmittedPilots := 0; pilotsToSubmit := 0; trace := [] |}.

(** A task queue of [jobs] jobs that asks for two processors. *)
Definition twoProcessorTQ (jobs : Z) (priority : float) : TaskQueue :=
  {| tqSites := None; tqJobTypes := None; tqJobs := jobs;
     tqPriority := priority; tqTags := Some ["2Processors"] |}.


(** An outside world in which everything works: the matcher always
    answers [taskQueues], every queue has [slots] free slots, the
    executable is made for all the pilots asked for and the computing
    element accepts them all. *)
Definition friendlyEnv (taskQueues : gmap Z TaskQueue) (slots : Z) : Env :=
  {| env_platforms := λ _, S_OK ["x86_64"];
     env_matcher := λ _, S_OK taskQueues;
     env_countPilots := λ _, S_OK 0;
     env_siteMask := λ _, S_OK ["LCG.Example.org"];
     env_shuffle := λ tr, match tr with CallShuffle l :: _ => l | _ => [] end;
     env_proxy := λ _, S_OK "proxy";
     env_queueSlots := λ tr m,
       match tr with
       | CallQueueSlots q :: _ => (slots, <[q := slots]> m)
       | _ => (0, m)
       end;
     env_getExecutable := λ tr,
       match tr with
       | CallGetExecutable _ n _ _ _ :: _ => S_OK ("pilotwrapper.py", n)
       | _ => S_ERROR "no request"
       end;
     env_submitJob := λ tr,
       match tr with
       | CallSubmitJob _ _ n _ :: _ =>
           S_OK {| pilotRefs := (λ k : nat, "pilot" +:+ pretty k) <$> seq 0 (Z.to_nat n);
                   pilotStampDict := None |}
       | _ => S_ERROR "no request"
       end;
     env_random := λ _, 0.5%float;
     env_addPilotTQReference := λ _, S_OK tt;
     env_setPilotStatus := λ _, S_OK tt |}.

Definition with_matcher (f : list Event → Result (gmap Z TaskQueue)) (e : Env)
  : Env :=
  {| env_platforms := env_platforms e; env_matcher := f;
     env_countPilots := env_countPilots e; env_siteMask := env_siteMask e;
     env_shuffle := env_shuffle e; env_proxy := env_proxy e;
     env_queueSlots := env_queueSlots e;
     env_getExecutable := env_getExecutable e;
     env_submitJob := env_submitJob e; env_random := env_random e;
     env_addPilotTQReference := env_addPilotTQReference e;
     env_setPilotStatus := env_setPilotStatus e |}.

Definition with_proxy (f : list Event → Result string) (e : Env) : Env :=
  {| env_platforms := env_platforms e; env_matcher := env_matcher e;
     env_countPilots := env_countPilots e; env_siteMask := env_siteMask e;
     env_shuffle := env_shuffle e; env_proxy := f;
     env_queueSlots := env_queueSlots e;
     env_getExecutable := env_getExecutable e;
     env_submitJob := env_submitJob e; env_random := env_random e;
     env_addPilotTQReference := env_addPilotTQReference e;
     env_setPilotStatus := env_setPilotStatus e |}.

Definition with_submitJob (f : list Event → Result Submission) (e : Env) : Env :=
  {| env_platforms := env_platforms e; env_matcher := env_matcher e;
     env_countPilots := env_countPilots e; env_siteMask := env_siteMask e;
     env_shuffle := env_shuffle e; env_proxy := env_proxy e;
     env_queueSlots := env_queueSlots e;
     env_getExecutable := env_getExecutable e;
     env_submitJob := f; env_random := env_random e;
     env_addPilotTQReference := env_addPilotTQReference e;
     env_setPilotStatus := env_setPilotStatus e |}.

(** The parameters of [sampleParameters] once the tags are derived. *)
Definition sampleDerived : ParametersDict :=
  setTags sampleParameters sampleTags.

(** The same without a [CPUTime] entry. *)
Definition noCPUTimeParameters : ParametersDict :=
  {| pMaxProcessors := Some "4"; pWholeNode := None;
     pTags := Some sampleTags; pCPUTime := None; pJobExecDir := None;
     pHttpProxy := None |}.

Definition otherQueue : Queue :=
  {| CEName := "ce2.example.org"; Site := "LCG.Example.org"; CEType := "ARC";
     QueueName := "short"; Platform := "x86_64"; CEParameters := [];
     BundleProxy := None; Parameters := sampleDerived |}.

Definition oneQueue : gmap string Queue :=
  {[ "queueA" := sampleQueue sampleDerived ]}.

Definition twoQueues : gmap string Queue :=
  {[ "queueA" := sampleQueue sampleDerived; "queueB" := otherQueue ]}.


Definition weightedTaskQueues : gmap Z TaskQueue :=
  {[ 1 := twoProcessorTQ 5 1%float; 2 := twoProcessorTQ 5 3%float ]}.

(** The matcher answers the query of the cycle and fails afterwards. *)
Definition matcherDownAfterFirst (taskQueues : gmap Z TaskQueue)
    (tr : list Event) : Result (gmap Z TaskQueue) :=
  match tr with
  | [_; _] => S_OK taskQueues
  | _ => S_ERROR "TaskQueueDB is down"
  end.

Definition someDemand : Demand :=
  {| jobSites := ∅; anySite := true; testSites := ∅; totalWaitingJobs := 10 |}.

(** The queue has failed once. *)
Definition failedOnce (queue : string) : State :=
  set_failedQueues {[ queue := 1 ]} emptyState.

(** A queue without a [CPUTime] entry. *)
Definition noCPUTimeQueues : gmap string Queue :=
  {[ "queueA" := sampleQueue noCPUTimeParameters ]}.

(** An outside world in which the matcher, the proxy manager and the
    computing element all answer with the same error. *)
Definition hostileEnv : Env :=
  with_matcher (λ _, S_ERROR "service is down")
    (with_proxy (λ _, S_ERROR "service is down")
       (with_submitJob (λ _, S_ERROR "service is down")
          (friendlyEnv weightedTaskQueues 5))).

(** Three pilots are still wanted. *)
Definition threeWanted : State := set_pilotsToSubmit 3 emptyState.

(** A task queue of three jobs that asks for a whole node. *)
Definition wholeNodeTaskQueues : gmap Z TaskQueue :=
  {[ 4 := {| tqSites := None; tqJobTypes := None; tqJobs := 3;
             tqPriority := 1%float; tqTags := Some ["WholeNode"] |} ]}.

(** A friendly world with two weighted task queues and five free slots. *)
Definition sampleEnv : Env := friendlyEnv weightedTaskQueues 5.

(** A friendly world in which the matcher answers the query of the cycle
    and fails afterwards. *)
Definition probeDownEnv : Env :=
  with_matcher (matcherDownAfterFirst weightedTaskQueues) sampleEnv.

(** A cycle over two queues in which the matcher answers the global query
    and fails at the first query for a queue. *)
Definition probeFailureRun : Ctl unit * State :=
  submitJobs probeDownEnv sampleConfig twoQueues 5 emptyState.


(** Ten jobs of a tag, five free slots, no waiting pilot. *)
Definition sampleTagRun : Ctl unit * State :=
  submitToTag sampleEnv sampleConfig 5 "queueA" (sampleQueue sampleDerived)
    weightedTaskQueues [1; 2] 2 5 10 0 emptyState.

(** ** Places in a cycle *)

(** [k] turns of the [while] loop of lines 300-371, or fewer when no pilot
    is wanted any more. *)
Fixpoint submitTurns (env : Env) (k : nat) (queue : string) (q : Queue)
    (taskQueueDict : gmap Z TaskQueue) (tagTqIDList : list Z)
    (processors : Z) : M unit :=
  match k with
  | O => ret tt
  | S k' =>
      n <~ get pilotsToSubmit ;;
      if 0 <? n then
        submitOnce env queue q taskQueueDict tagTqIDList processors ;;;
        submitTurns env k' queue q taskQueueDict tagTqIDList processors
      else ret tt
  end.

(** The memory of the agent before the first queue of the loop of line
    145, in a cycle started in [σ] whose global query, made for
    [platform] and [tags], was answered with [value]. *)
Definition queuesEntry (cfg : Config) (queueDict : gmap string Queue)
    (platform tags : list string) (value : gmap Z TaskQueue) (σ : State)
  : State :=
  let call1 := CallPlatforms (platforms cfg) in
  let call2 := CallMatcher (tqDict cfg platform tags) in
  let call3 := CallCountPilots (map_to_list value).*1 false in
  let call4 := if rssFlag cfg then CallUsableSites else CallSiteMask in
  let call5 := CallShuffle (map_to_list queueDict).*1 in
  set_matchedQueues 0
    (set_totalSubmittedPilots 0
       (set_trace (call5 :: call4 :: call3 :: call2 :: call1 :: trace σ)
          (set_tqID (default (tqID σ) (last (map_to_list value).*1)) σ))).

(** The cycle comes to the loop over the queues (lines 56-144): the
    platforms, the global query and the site mask are answered, and jobs
    are waiting.  [value] is the answer of the global query,
    [siteMaskList] the site mask, [queues] the queues in the order in
    which they are taken, and [σ0] the memory before the first queue. *)
Definition cycleReachesQueues (env : Env) (cfg : Config)
    (queueDict : gmap string Queue) (σ : State) (value : gmap Z TaskQueue)
    (siteMaskList queues : list string) (σ0 : State) : Prop :=
  ∃ platform tags,
    let call1 := CallPlatforms (platforms cfg) in
    let call2 := CallMatcher (tqDict cfg platform tags) in
    let call3 := CallCountPilots (map_to_list value).*1 false in
    let call4 := if rssFlag cfg then CallUsableSites else CallSiteMask in
    let call5 := CallShuffle (map_to_list queueDict).*1 in
    env_platforms env (call1 :: trace σ) = S_OK platform
    ∧ allTags queueDict (map_to_list queueDict).*1 = Some tags
    ∧ env_matcher env (call2 :: call1 :: trace σ) = S_OK value
    ∧ value ≠ ∅
    ∧ env_siteMask env (call4 :: call3 :: call2 :: call1 :: trace σ)
      = S_OK siteMaskList
    ∧ queues
      = env_shuffle env (call5 :: call4 :: call3 :: call2 :: call1 :: trace σ)
    ∧ σ0 = queuesEntry cfg queueDict platform tags value σ.

(** The call by which the matcher is asked about a queue (lines 186-209). *)
Definition queueQuery (cfg : Config) (siteMaskList : list string) (q : Queue)
    (platform processorTags : list string) : Event :=
  CallMatcher (ceDict cfg q (bool_decide (Site q ∈ siteMaskList)) platform
                 processorTags).

(** In the memory [σ1] the queue passes the tests of lines 147-205 and the
    matcher is asked about it: the queue is not left out for its failures,
    its site passes both site tests, it has a [CPUTime], and its platform
    is known.  [processorTags], [queueCPUTime] and [platform] are what the
    query and the tags of the queue are given. *)
Definition queueReachesMatcher (env : Env) (cfg : Config)
    (queueDict : gmap string Queue) (demand : Demand)
    (siteMaskList : list string) (queue : string) (q : Queue)
    (processorTags : list string) (queueCPUTime : Z) (platform : list string)
    (σ1 : State) : Prop :=
  ∃ queueTags cpu cpuTime,
    failedQueueCycleFactor cfg ≠ 0
    ∧ queueFailedRecently cfg σ1 queue = false
    ∧ queueDict !! queue = Some q
    ∧ pTags (Parameters q) = Some queueTags
    ∧ processorTags = processorTagsOf queueTags
    ∧ (anySite demand = true ∨ Site q ∈ jobSites demand)
    ∧ (Site q ∈ siteMaskList ∨ Site q ∈ testSites demand)
    ∧ pCPUTime (Parameters q) = Some cpu
    ∧ py_int cpu = Some cpuTime
    ∧ queueCPUTime = (if maxQueueLength cfg <? cpuTime
                      then maxQueueLength cfg else cpuTime)
    ∧ env_platforms env (CallPlatforms [Platform q] :: trace σ1)
      = S_OK platform.

(** The memory before the first tag of a queue (lines 217 and 240), once
    the matcher has answered the query for the queue. *)
Definition beforeTags (cfg : Config) (siteMaskList : list string) (q : Queue)
    (platform processorTags : list string) (σ1 : State) : State :=
  set_queueSubmittedPilots 0
    (set_matchedQueues (matchedQueues σ1 + 1)
       (set_trace (queueQuery cfg siteMaskList q platform processorTags
                     :: CallPlatforms [Platform q] :: trace σ1) σ1)).

(** The request for the proxy of the pilots of a tag (line 279). *)
Definition proxyRequest (cfg : Config) (queueCPUTime : Z) : Event :=
  CallProxy (pilotDN cfg) (pilotGroup cfg) (queueCPUTime + 86400).

(** The memory of the agent at the start of the submission loop of a tag
    (line 300): the proxy [p] is set, the slots of the queue are counted,
    and the pilots wanted are the budget of lines 293-298.  [σw] is the
    memory after the waiting pilots of the tag were counted. *)
Definition loopEntry (cfg : Config) (queue : string) (queueCPUTime : Z)
    (p : string) (totalSlots : Z) (slots : gmap string Z)
    (tagTQJobs tagWaitingPilots : Z) (σw : State) : State :=
  set_pilotsToSubmit
    (tagBudget (maxPilotsToSubmit cfg) (queueSubmittedPilots σw)
       totalSlots tagTQJobs tagWaitingPilots)
    (set_queueSlots slots
       (set_trace (CallQueueSlots queue
                     :: CallSetProxy queue (queueCPUTime + 86400 - 60)
                     :: proxyRequest cfg queueCPUTime :: trace σw)
          (set_proxy p σw))).

(** In the memory [σ3] the tag comes to its submission loop (lines
    253-298): jobs of the tag are without a waiting pilot, the proxy is
    obtained and the queue has free slots.  [σentry] is the memory in
    which the loop begins. *)
Definition tagReachesLoop (env : Env) (cfg : Config) (queue : string)
    (queueCPUTime : Z) (tqIDListByProcessors : gmap string (list Z))
    (totalTQJobsByProcessors : gmap string Z) (tag : string)
    (tagTqIDList : list Z) (σ3 σentry : State) : Prop :=
  ∃ tagTQJobs tagWaitingPilots σw p totalSlots slots,
    let calls := CallQueueSlots queue
                 :: CallSetProxy queue (queueCPUTime + 86400 - 60)
                 :: proxyRequest cfg queueCPUTime :: trace σw in
    totalTQJobsByProcessors !! tag = Some tagTQJobs
    ∧ tqIDListByProcessors !! tag = Some tagTqIDList
    ∧ countWaitingPilots env cfg tagTqIDList σ3 = (Next tagWaitingPilots, σw)
    ∧ tagWaitingPilots < tagTQJobs
    ∧ env_proxy env (proxyRequest cfg queueCPUTime :: trace σw) = S_OK p
    ∧ env_queueSlots env calls (queueSlots σw) = (totalSlots, slots)
    ∧ totalSlots ≠ 0
    ∧ σentry = loopEntry cfg queue queueCPUTime p totalSlots slots tagTQJobs
                 tagWaitingPilots σw.

(** The cycle comes to the query for [queue]: the queues before it in the
    order of the cycle have all fallen through, leaving the memory [σ1],
    in which the matcher is asked about [queue]; [queuesAfter] are the
    queues that follow. *)
Definition cycleReachesQueue (env : Env) (cfg : Config)
    (queueDict : gmap string Queue) (fuel : nat) (σ : State)
    (demand : Demand) (siteMaskList : list string) (queue : string)
    (queuesAfter : list string) (q : Queue) (processorTags : list string)
    (queueCPUTime : Z) (platform : list string) (σ1 : State) : Prop :=
  ∃ value queues σ0 queuesBefore,
    cycleReachesQueues env cfg queueDict σ value siteMaskList queues σ0
    ∧ demand = globalDemand (map_to_list value)
    ∧ queues = queuesBefore ++ queue :: queuesAfter
    ∧ forEach queuesBefore
        (processQueue env cfg queueDict fuel demand siteMaskList) σ0
      = (Next tt, σ1)
    ∧ queueReachesMatcher env cfg queueDict demand siteMaskList queue q
        processorTags queueCPUTime platform σ1.

(** The cycle comes to [tag] of [queue]: the matcher has answered the
    query for the queue with the task queues [taskQueueDict], and the tags
    before [tag] in the order of the loop of line 241 have all fallen
    through, leaving the memory [σ3]; [tagsAfter] are the tags that
    follow. *)
Definition cycleReachesTag (env : Env) (cfg : Config)
    (queueDict : gmap string Queue) (fuel : nat) (σ : State)
    (demand : Demand) (siteMaskList : list string) (queue : string)
    (queuesAfter : list string) (q : Queue) (processorTags : list string)
    (queueCPUTime : Z) (taskQueueDict : gmap Z TaskQueue) (tag : string)
    (tagsAfter : list string) (σ3 : State) : Prop :=
  ∃ platform σ1 tagsBefore,
    cycleReachesQueue env cfg queueDict fuel σ demand siteMaskList queue
      queuesAfter q processorTags queueCPUTime platform σ1
    ∧ env_matcher env
        (queueQuery cfg siteMaskList q platform processorTags
           :: CallPlatforms [Platform q] :: trace σ1)
      = S_OK taskQueueDict
    ∧ taskQueueDict ≠ ∅
    ∧ (map_to_list (partitionByTag processorTags taskQueueDict).1).*1
      = tagsBefore ++ tag :: tagsAfter
    ∧ forEach tagsBefore
        (processTag env cfg fuel queue q queueCPUTime taskQueueDict
           (partitionByTag processorTags taskQueueDict).1
           (partitionByTag processorTags taskQueueDict).2)
        (beforeTags cfg siteMaskList q platform processorTags σ1)
      = (Next tt, σ3).

(** What is left of a cycle after a tag of a queue: the tags of the queue
    that follow, the queues that follow, and [return S_OK()]. *)
Definition restOfCycle (env : Env) (cfg : Config)
    (queueDict : gmap string Queue) (fuel : nat) (demand : Demand)
    (siteMaskList : list string) (queue : string) (q : Queue)
    (queueCPUTime : Z) (taskQueueDict : gmap Z TaskQueue)
    (processorTags tagsAfter queuesAfter : list string) : M unit :=
  forEach tagsAfter
    (processTag env cfg fuel queue q queueCPUTime taskQueueDict
       (partitionByTag processorTags taskQueueDict).1
       (partitionByTag processorTags taskQueueDict).2) ;;;
  forEach queuesAfter
    (processQueue env cfg queueDict fuel demand siteMaskList) ;;;
  return_ (S_OK tt).

(** ** More sample data *)

(** A queue with a former [Tags] entry, two processors and a whole-node
    flag that is not set. *)
Definition formerTagsParameters : ParametersDict :=
  {| pMaxProcessors := Some "2"; pWholeNode := Some "false";
     pTags := Some ["8Processors"; "WholeNode"];
     pCPUTime := Some "1000"; pJobExecDir := None; pHttpProxy := None |}.

Definition formerTagsDerived : ParametersDict :=
  setTags formerTagsParameters
    ["8Processors"; "WholeNode"; "1Processors"; "2Processors"].

(** Jobs for two processors and jobs for a whole node. *)
Definition twoTagTaskQueues : gmap Z TaskQueue :=
  {[ 1 := twoProcessorTQ 5 1%float;
     4 := {| tqSites := None; tqJobTypes := None; tqJobs := 3;
             tqPriority := 1%float; tqTags := Some ["WholeNode"] |} ]}.

(** A friendly world with these jobs in which the computing elements
    refuse every submission. *)
Definition refusingEnv : Env :=
  with_submitJob (λ _, S_ERROR "refused") (friendlyEnv twoTagTaskQueues 5).

(** A cycle over two queues in that world. *)
Definition refusedRun : Ctl unit * State :=
  submitJobs refusingEnv sampleConfig twoQueues 5 emptyState.

(** A friendly world without a proxy for the pilots. *)
Definition proxyDownEnv : Env :=
  with_proxy (λ _, S_ERROR "no proxy") sampleEnv.

(** A cycle over two queues in that world. *)
Definition proxyFailureRun : Ctl unit * State :=
  submitJobs proxyDownEnv sampleConfig twoQueues 5 emptyState.

(** The memory before the first of the two queues, in a cycle started in
    [emptyState] whose global query was answered with [value]. *)
Definition sampleQueuesEntry (value : gmap Z TaskQueue) : State :=
  queuesEntry sampleConfig twoQueues ["x86_64"] (sampleTags ++ sampleTags)
    value emptyState.

(** The memory before the first tag of queueA, the first of the queues. *)
Definition sampleTagsEntry (value : gmap Z TaskQueue) : State :=
  beforeTags sampleConfig ["LCG.Example.org"] (sampleQueue sampleDerived)
    ["x86_64"] (processorTagsOf sampleTags) (sampleQueuesEntry value).

(** The same once the waiting pilots of the first tag were counted. *)
Definition sampleCounted (value : gmap Z TaskQueue) (tagTqIDList : list Z)
  : State :=
  set_trace (CallCountPilots tagTqIDList true :: trace (sampleTagsEntry value))
    (sampleTagsEntry value).

(** The start of the submission loop of the tag WholeNode of queueA: three
    jobs, no waiting pilot, five free slots. *)
Definition sampleLoopEntry : State :=
  loopEntry sampleConfig "queueA" 1000 "proxy" 5 {[ "queueA" := 5 ]} 3 0
    (sampleCounted twoTagTaskQueues [4]).

(** What is left of the cycle over the two queues after the tag WholeNode
    of queueA: the tag 2Processors of queueA, then queueB. *)
Definition sampleRestOfCycle (env : Env) : M unit :=
  restOfCycle env sampleConfig twoQueues 5
    (globalDemand (map_to_list twoTagTaskQueues)) ["LCG.Example.org"]
    "queueA" (sampleQueue sampleDerived) 1000 twoTagTaskQueues
    (processorTagsOf sampleTags) ["2Processors"] ["queueB"].

(** ** More vocabulary for the site director *)

(** A text made of decimal digits only. *)
Fixpoint all_digits (s : string) : bool :=
  match s with
  | EmptyString => true
  | String c r => is_digit c && all_digits r
  end.

(** What lines 28-52 make of one queue that stays in the catalogue: the
    queue with its derived tags; [None] when the queue would be deleted or
    an exception raised. *)
Definition derivedQueue (resourceDict : gmap (string * string) CEDef)
    (q : Queue) : option Queue :=
  ceDef ← resourceDict !! (Site q, CEName q);
  p ← deriveTags ceDef (Parameters q);
  if keepQueue p then Some (setParameters q p) else None.

(** The jobs of a list of task queues, added up. *)
Definition sumJobs (tqs : list TaskQueue) : Z :=
  foldr (λ t n, tqJobs t + n) 0 tqs.

(** The jobs of the task queues with the given identifiers. *)
Definition jobsOf (taskQueueDict : gmap Z TaskQueue) (ids : list Z) : Z :=
  foldr (λ tq n, default 0 (tqJobs <$> taskQueueDict !! tq) + n) 0 ids.

(** All the pilots filed in [tqDict], task queue by task queue. *)
Definition filedPilots (tqDict : gmap Z (list string)) : list string :=
  concat (map_to_list tqDict).*2.

(** Every bundle is made for at least one pilot: a condition on
    [getExecutable], a method of the base class [SiteDirector], under
    which the submission loop makes progress. *)
Definition executableNotEmpty (env : Env) : Prop :=
  ∀ tr queue n bundleProxy httpProxy jobExecDir executable chunk,
    env_getExecutable env
      (CallGetExecutable queue n bundleProxy httpProxy jobExecDir :: tr)
      = S_OK (executable, chunk) →
    1 ≤ chunk.

(** The computing element never refuses a submission. *)
Definition neverRefuses (env : Env) : Prop :=
  ∀ tr queue executable chunk processors,
    isOK (env_submitJob env
            (CallSubmitJob queue executable chunk processors :: tr)) = true.

(** Every bundle is empty and every submission is accepted without a
    pilot. *)
Definition emptySubmissions (env : Env) : Prop :=
  (∀ tr queue n bundleProxy httpProxy jobExecDir,
     ∃ executable,
       env_getExecutable env
         (CallGetExecutable queue n bundleProxy httpProxy jobExecDir :: tr)
       = S_OK (executable, 0))
  ∧ (∀ tr queue executable chunk processors,
       ∃ stamps,
         env_submitJob env
           (CallSubmitJob queue executable chunk processors :: tr)
         = S_OK {| pilotRefs := []; pilotStampDict := stamps |}).

(** The statement [self.failedQueues[queue] += 1] keeps the property [P]
    of the failure counters, or is never reached from the submission loop
    because no submission is refused. *)
Definition countingKeeps (env : Env) (P : gmap string Z → Prop)
    (queue : string) : Prop :=
  (∀ σ, P (failedQueues σ) → P (failedQueues (bump queue σ)))
  ∨ neverRefuses env.

(** A statement that never stops for want of fuel. *)
Definition usesNoFuel {A} (m : M A) : Prop :=
  ∀ σ, (m σ).1 ≠ OutOfFuel.

(** While the task queues are sorted by tag (lines 219-235): the task
    queues [done] have been looked at, and the tags [seen] of the task
    queue [tq]; [acc] holds the lists and the sums made so far. *)
Definition partitioned (processorTags : list string)
    (taskQueueDict : gmap Z TaskQueue) (done : list (Z * TaskQueue)) (tq : Z)
    (seen : list string) (acc : gmap string (list Z) * gmap string Z) : Prop :=
  (∀ tag, acc.2 !! tag = jobsOf taskQueueDict <$> acc.1 !! tag)
  ∧ (∀ tag i,
       (∃ ids, acc.1 !! tag = Some ids ∧ i ∈ ids)
       ↔ tag ∈ processorTags
         ∧ ((∃ t tags, (i, t) ∈ done ∧ tqTags t = Some tags ∧ tag ∈ tags)
            ∨ (i = tq ∧ tag ∈ seen))).

(** * The administrator service ([WMSAdministratorHandler.py]) *)

From stdpp Require Import sorting.

Local Open Scope Z_scope.

(** The exceptions met in the methods of the service. *)
Inductive ServiceExc : Type := SvcKeyError | SvcIndexError.

(** How a method of the service ends: with a value or with an
    exception. *)
Inductive Outcome (A : Type) : Type :=
| Returned (a : A)
| Raised (e : ServiceExc).
Arguments Returned {A} a.
Arguments Raised {A} e.

(** ** [export_getSiteMaskSummary] *)

(** Lines 154-159: the sites of the grids, grid after grid; the first
    section that cannot be read ends the method with its answer. *)
Fixpoint configuredSites (getSections : string → Result (list string))
    (grids sites : list string) : Result (list string) :=
  match grids with
  | [] => S_OK sites
  | grid :: rest =>
      match getSections ("/Resources/Sites/" +:+ grid) with
      | S_ERROR msg => S_ERROR msg
      | S_OK value => configuredSites getSections rest (sites ++ value)
      end
  end.

(** Lines 164-166: [if site not in siteDict: siteDict[site] = 'Unknown']
    for every site. *)
Definition markUnknown (siteDict : gmap string string) (sites : list string)
  : gmap string string :=
  foldl (λ siteDict site,
           match siteDict !! site with
           | Some _ => siteDict
           | None => <[site := "Unknown"]> siteDict
           end) siteDict sites.

(** [export_getSiteMaskSummary()], lines 145-168; [getSections] stands for
    [gConfig.getSections] and [getSiteMaskStatus] for the answer of
    [jobDB.getSiteMaskStatus()], whose ['Value'] is read without a look at
    ['OK']. *)
Definition export_getSiteMaskSummary
    (getSections : string → Result (list string))
    (getSiteMaskStatus : Result (gmap string string))
  : Outcome (Result (gmap string string)) :=
  match getSections "/Resources/Sites" with
  | S_ERROR msg => Returned (S_ERROR msg)
  | S_OK grids =>
      match configuredSites getSections grids [] with
      | S_ERROR msg => Returned (S_ERROR msg)
      | S_OK sites =>
          match getSiteMaskStatus with
          | S_ERROR _ => Raised SvcKeyError
          | S_OK siteDict => Returned (S_OK (markUnknown siteDict sites))
          end
      end
  end.

(** ** [export_getCurrentPilotCounters] *)

Definition FINAL_STATES : list string :=
  ["Done"; "Aborted"; "Cleared"; "Deleted"; "Stalled"].

(** A row of [getCounters]: the attributes and the count. *)
Definition CounterRow : Type := gmap string string * Z.

(** Lines 193-196: the loop over the counters of the last day, left at
    the end of its first turn. *)
Definition dayCounter (status : string) (resultDay : list CounterRow)
    (resultDict : gmap string Z) : Outcome (gmap string Z) :=
  match resultDay with
  | [] => Returned resultDict
  | (statusDayDict, ccount) :: _ =>
      match statusDayDict !! "Status" with
      | None => Raised SvcKeyError
      | Some statusDay =>
          Returned (if bool_decide (status = statusDay)
                    then <[status := ccount]> resultDict
                    else resultDict)
      end
  end.

(** Lines 188-196: the loop over the counters. *)
Fixpoint pilotCounters (resultDay rows : list CounterRow)
    (resultDict : gmap string Z) : Outcome (gmap string Z) :=
  match rows with
  | [] => Returned resultDict
  | (statusDict, count) :: rest =>
      match statusDict !! "Status" with
      | None => Raised SvcKeyError
      | Some status =>
          let resultDict := <[status := count]> resultDict in
          if bool_decide (status ∈ FINAL_STATES) then
            match dayCounter status resultDay (<[status := 0]> resultDict) with
            | Raised e => Raised e
            | Returned resultDict => pilotCounters resultDay rest resultDict
            end
          else pilotCounters resultDay rest resultDict
      end
  end.

(** [export_getCurrentPilotCounters( attrDict )], lines 173-198;
    [getCounters newer] stands for [pilotDB.getCounters] on the table of
    the pilots, by status, with the selection [attrDict] and the given
    [newer]; [now] is [Time.dateTime()] and [day] is [Time.day]. *)
Definition export_getCurrentPilotCounters
    (getCounters : option Z → Result (list CounterRow)) (now day : Z)
  : Outcome (Result (gmap string Z)) :=
  match getCounters None with
  | S_ERROR msg => Returned (S_ERROR msg)
  | S_OK rows =>
      let last_update := now - day in
      match getCounters (Some last_update) with
      | S_ERROR msg => Returned (S_ERROR msg)
      | S_OK resultDay =>
          match pilotCounters resultDay rows ∅ with
          | Raised e => Raised e
          | Returned resultDict => Returned (S_OK resultDict)
          end
      end
  end.

(** The count of the last row of [rows] for [status], if any. *)
Definition lastCount (rows : list CounterRow) (status : string) : option Z :=
  foldl (λ found row,
           if bool_decide (row.1 !! "Status" = Some status) then Some row.2
           else found) None rows.

(** The count of the first row of the last day when it is for [status],
    else 0. *)
Definition firstDayCount (resultDay : list CounterRow) (status : string) : Z :=
  match resultDay with
  | (statusDayDict, ccount) :: _ =>
      if bool_decide (statusDayDict !! "Status" = Some status) then ccount
      else 0
  | [] => 0
  end.

(** ** [export_getSiteSummarySelectors] *)

(** [s.split( sep )] for a separator of one character. *)
Fixpoint split (sep : ascii) (s : string) : list string :=
  match s with
  | EmptyString => [EmptyString]
  | String c r =>
      if Ascii.eqb c sep then EmptyString :: split sep r
      else match split sep r with
           | part :: parts => String c part :: parts
           | [] => [String c EmptyString]
           end
  end.

(** [s.find( c ) != -1] *)
Fixpoint has_char (c : ascii) (s : string) : bool :=
  match s with
  | EmptyString => false
  | String c' r => Ascii.eqb c' c || has_char c r
  end.

(** How often [c] occurs in [s]. *)
Fixpoint count_char (c : ascii) (s : string) : nat :=
  match s with
  | EmptyString => 0%nat
  | String c' r => ((if Ascii.eqb c' c then 1 else 0) + count_char c r)%nat
  end.

(** The order of [list.sort()] on strings: byte after byte. *)
Definition string_le (a b : string) : Prop := String.leb a b = true.

#[global] Instance string_le_dec (a b : string) : Decision (string_le a b) :=
  decide (String.leb a b = true).

Definition sort (l : list string) : list string := merge_sort string_le l.

(** Lines 461-465: the sites of the grids whose section can be read. *)
Definition selectorSites (getSections : string → Result (list string))
    (gridTypes : list string) : list string :=
  foldl (λ siteList grid,
           match getSections ("Resources/Sites/" +:+ grid) with
           | S_OK value => siteList ++ value
           | S_ERROR _ => siteList
           end) [] gridTypes.

(** Lines 467-472: the countries of the sites. *)
Fixpoint countries (siteList countryList : list string)
  : Outcome (list string) :=
  match siteList with
  | [] => Returned countryList
  | site :: rest =>
      if has_char "." site then
        match split "." site !! 2%nat with
        | None => Raised SvcIndexError
        | Some part =>
            let country := lower part in
            countries rest
              (if bool_decide (country ∈ countryList) then countryList
               else countryList ++ [country])
        end
      else countries rest countryList
  end.

Record Selectors : Type := {
  selStatus : list string;
  selMaskStatus : list string;
  selGridType : list string;
  selCountry : list string;
  selSite : list string
}.

(** [export_getSiteSummarySelectors()], lines 445-478. *)
Definition export_getSiteSummarySelectors
    (getSections : string → Result (list string))
  : Outcome (Result Selectors) :=
  let statusList := ["Good"; "Fair"; "Poor"; "Bad"; "Idle"] in
  let maskStatus := ["Active"; "Banned"; "NoMask"; "Reduced"] in
  let gridTypes :=
    match getSections "Resources/Sites/" with
    | S_OK value => value
    | S_ERROR _ => []
    end in
  let siteList := selectorSites getSections gridTypes in
  match countries siteList [] with
  | Raised e => Raised e
  | Returned countryList =>
      Returned (S_OK {| selStatus := statusList;
                        selMaskStatus := maskStatus;
                        selGridType := gridTypes;
                        selCountry := sort countryList;
                        selSite := sort siteList |})
  end.

(** * The loader of the monitoring types ([TypeLoader.py]) *)

Section TypeLoader.

(** The classes that [loadObjects] finds, by name. *)
Variable Class : Type.

(** The answer of [loadObjects] at its first, second, ... call. *)
Variable loadObjects : nat → gmap string Class.

(** [self.__loaded] and the calls of [loadObjects] made so far. *)
Record Loader : Type := {
  loaded : gmap string Class;
  loads : nat
}.

(** [TypeLoader()], lines 33-39. *)
Definition newLoader : Loader := {| loaded := ∅; loads := 0 |}.

(** [getTypes( self )], lines 42-48. *)
Definition getTypes (self : Loader) : gmap string Class * Loader :=
  if bool_decide (loaded self = ∅) then
    let objects := loadObjects (loads self) in
    (objects, {| loaded := objects; loads := S (loads self) |})
  else (loaded self, self).

(** [n] calls of [getTypes] in a row: what they return, and the loader
    after them. *)
Fixpoint getTypesTimes (n : nat) (self : Loader)
  : list (gmap string Class) * Loader :=
  match n with
  | O => ([], self)
  | S n =>
      let '(types, self) := getTypes self in
      let '(more, self) := getTypesTimes n self in
      (types :: more, self)
  end.

End TypeLoader.

Arguments loaded {Class} _.
Arguments loads {Class} _.
Arguments newLoader {Class}.

(** ** More sample data *)

(** A catalogue of one queue with four processors, before its tags are
    derived. *)
Definition fourProcessorQueues : gmap string Queue :=
  {[ "queueA" := sampleQueue sampleParameters ]}.

(** All the waiting jobs are for another site. *)
Definition elsewhereDemand : Demand :=
  {| jobSites := {[ "LCG.Other.org" ]}; anySite := false; testSites := ∅;
     totalWaitingJobs := 10 |}.

(** A friendly world in which the site mask cannot be read. *)
Definition maskDownEnv : Env :=
  {| env_platforms := env_platforms sampleEnv;
     env_matcher := env_matcher sampleEnv;
     env_countPilots := env_countPilots sampleEnv;
     env_siteMask := λ _, S_ERROR "mask is down";
     env_shuffle := env_shuffle sampleEnv; env_proxy := env_proxy sampleEnv;
     env_queueSlots := env_queueSlots sampleEnv;
     env_getExecutable := env_getExecutable sampleEnv;
     env_submitJob := env_submitJob sampleEnv;
     env_random := env_random sampleEnv;
     env_addPilotTQReference := env_addPilotTQReference sampleEnv;
     env_setPilotStatus := env_setPilotStatus sampleEnv |}.

(** A world in which every bundle is empty and accepted as it is. *)
Definition emptyBundleEnv : Env :=
  {| env_platforms := env_platforms sampleEnv;
     env_matcher := env_matcher sampleEnv;
     env_countPilots := env_countPilots sampleEnv;
     env_siteMask := env_siteMask sampleEnv;
     env_shuffle := env_shuffle sampleEnv; env_proxy := env_proxy sampleEnv;
     env_queueSlots := env_queueSlots sampleEnv;
     env_getExecutable := λ _, S_OK ("pilotwrapper.py", 0);
     env_submitJob := λ _, S_OK {| pilotRefs := []; pilotStampDict := None |};
     env_random := env_random sampleEnv;
     env_addPilotTQReference := env_addPilotTQReference sampleEnv;
     env_setPilotStatus := env_setPilotStatus sampleEnv |}.

(** Three pilots are wanted for a queue with five free slots. *)
Definition threeWantedFiveSlots : State :=
  set_queueSlots {[ "queueA" := 5 ]} threeWanted.

(** A friendly world in which a bundle is made for two pilots at most,
    and for one at least. *)
Definition smallBundleEnv : Env :=
  {| env_platforms := env_platforms sampleEnv;
     env_matcher := env_matcher sampleEnv;
     env_countPilots := env_countPilots sampleEnv;
     env_siteMask := env_siteMask sampleEnv;
     env_shuffle := env_shuffle sampleEnv; env_proxy := env_proxy sampleEnv;
     env_queueSlots := env_queueSlots sampleEnv;
     env_getExecutable := λ tr,
       match tr with
       | CallGetExecutable _ n _ _ _ :: _ =>
           S_OK ("pilotwrapper.py", Z.max 1 (Z.min 2 n))
       | _ => S_ERROR "no request"
       end;
     env_submitJob := env_submitJob sampleEnv;
     env_random := env_random sampleEnv;
     env_addPilotTQReference := env_addPilotTQReference sampleEnv;
     env_setPilotStatus := env_setPilotStatus sampleEnv |}.

(** Five pilots wanted at most for a queue with five free slots, in
    bundles of two. *)
Definition smallBundleRun : Ctl unit * State :=
  submitToTag smallBundleEnv sampleConfig 5 "queueA"
    (sampleQueue sampleDerived) weightedTaskQueues [1; 2] 2 5 10 0
    threeWantedFiveSlots.

(** A configuration with one grid and two sites. *)
Definition sampleSections (path : string) : Result (list string) :=
  if bool_decide (path = "/Resources/Sites") then S_OK ["LCG"]
  else if bool_decide (path = "/Resources/Sites/LCG")
  then S_OK ["LCG.Example.org"; "LCG.Other.ch"]
  else if bool_decide (path = "Resources/Sites/") then S_OK ["LCG"]
  else if bool_decide (path = "Resources/Sites/LCG")
  then S_OK ["LCG.Example.org"; "LCG.Other.ch"; "Cloud"]
  else S_ERROR "no such section".

(** A configuration with two grids, the second of which cannot be read. *)
Definition brokenSections (path : string) : Result (list string) :=
  if bool_decide (path = "/Resources/Sites") then S_OK ["LCG"; "DIRAC"]
  else if bool_decide (path = "/Resources/Sites/LCG")
  then S_OK ["LCG.Example.org"]
  else S_ERROR "no such section".

Definition sampleMask : gmap string string :=
  {[ "LCG.Example.org" := "Active" ]}.

(** Seven pilots done in all, two of them in the last day; the first row
    of the last day is for another status. *)
Definition sampleCounters (newer : option Z) : Result (list CounterRow) :=
  match newer with
  | None => S_OK [({[ "Status" := "Running" ]}, 4); ({[ "Status" := "Done" ]}, 7)]
  | Some _ =>
      S_OK [({[ "Status" := "Aborted" ]}, 1); ({[ "Status" := "Done" ]}, 2)]
  end.

(** The third search is the first one to find a type. *)
Definition sampleLoadObjects (call : nat) : gmap string unit :=
  if (call <? 2)%nat then ∅ else {[ "WMSHistory" := tt ]}.

(** ** [export_killPilot] *)

(** [sep.join( l )] *)
Fixpoint join (sep : string) (l : list string) : string :=
  match l with
  | [] => EmptyString
  | [x] => x
  | x :: rest => x +:+ sep +:+ join sep rest
  end.

(** [s.split( sep )] for a separator that is not empty: the text is read
    from the left; [cur] is the part being read and [skip] counts the
    characters of a separator that are still to be passed over. *)
Fixpoint split_go (sep : string) (skip : nat) (cur s : string) : list string :=
  match s with
  | EmptyString => [cur]
  | String c r =>
      match skip with
      | S k => split_go sep k cur r
      | O =>
          if String.prefix sep s
          then cur :: split_go sep (String.length sep - 1) EmptyString r
          else split_go sep 0 (cur +:+ String c EmptyString) r
      end
  end.

Definition split_str (sep s : string) : list string :=
  split_go sep 0 EmptyString s.

(** The argument of [export_killPilot]: one reference or a list. *)
Inductive PilotRefList : Type :=
| OneReference (pilotReference : string)
| References (pilotReferences : list string).

(** Lines 520-522. *)
Definition pilotRefsOf (pilotRefList : PilotRefList) : list string :=
  match pilotRefList with
  | OneReference pilotReference => [pilotReference]
  | References pilotReferences => pilotReferences
  end.

Section KillPilot.

(** What [getQueue] returns for a queue, and the computing element made by
    the factory. *)
Variables QueueDescr CE : Type.

(** The calls that leave the service. *)
Inductive KillEvent : Type :=
| AskPilotInfo (pilotReference : string)
| AskQueue (site ce queue : string)
| AskCE (gridType ce : string) (queueDict : QueueDescr)
| AskGroupOption (group : string)
| AskProxy (owner group : string)
| TellProxy (ce : CE) (proxy : string)
| AskKillJob (ce : CE) (pilotList : list string).

(** The outside world; every answer may depend on the whole history, which
    starts with the call being answered. *)
Record KillEnv : Type := {
  kill_getPilotInfo : list KillEvent → Result (gmap string (gmap string string));
  kill_getQueue : list KillEvent → Result QueueDescr;
  kill_getCE : list KillEvent → Result CE;
  kill_getGroupOption : list KillEvent → string;
  kill_getProxy : list KillEvent → Result string;
  kill_killJob : list KillEvent → Result unit
}.

Variable env : KillEnv.

(** Lines 536-539: the pilot joins the pilots of its key, and the grid type
    of the key becomes the one of the pilot. *)
Definition addPilot (pilotRefDict : gmap string (list string * string))
    (queue pilotReference gridType : string)
  : gmap string (list string * string) :=
  <[queue := (default [] (fst <$> pilotRefDict !! queue) ++ [pilotReference],
              gridType)]> pilotRefDict.

(** Lines 525-539: the pilots are sorted by owner, group, site, computing
    element and queue. *)
Fixpoint regroup (pilotRefs : list string)
    (pilotRefDict : gmap string (list string * string)) (tr : list KillEvent)
  : Ctl (gmap string (list string * string)) * list KillEvent :=
  match pilotRefs with
  | [] => (Next pilotRefDict, tr)
  | pilotReference :: rest =>
      let tr := AskPilotInfo pilotReference :: tr in
      let failure :=
        Return (S_ERROR ("Failed to get info for pilot " +:+ pilotReference)) in
      match kill_getPilotInfo env tr with
      | S_ERROR _ => (failure, tr)
      | S_OK value =>
          if bool_decide (value = ∅) then (failure, tr)
          else
            match value !! pilotReference with
            | None => (Raise KeyError, tr)
            | Some pilotDict =>
                match pilotDict !! "OwnerDN", pilotDict !! "OwnerGroup",
                      pilotDict !! "GridSite", pilotDict !! "DestinationSite",
                      pilotDict !! "Queue", pilotDict !! "GridType" with
                | Some owner, Some group, Some site, Some ce, Some queue,
                  Some gridType =>
                    let queue := join "@@@" [owner; group; site; ce; queue] in
                    regroup rest
                      (addPilot pilotRefDict queue pilotReference gridType) tr
                | _, _, _, _, _, _ => (Raise KeyError, tr)
                end
            end
      end
  end.

(** Lines 558-566: the proxy of the owner, for the grids that need one. *)
Definition setOwnerProxy (gridType owner group : string) (ce : CE)
    (tr : list KillEvent) : Ctl unit * list KillEvent :=
  if bool_decide (gridType ∈ ["LCG"; "gLite"; "CREAM"; "ARC"; "Globus"]) then
    let tr := AskGroupOption group :: tr in
    let group := kill_getGroupOption env tr in
    let tr := AskProxy owner group :: tr in
    match kill_getProxy env tr with
    | S_ERROR _ => (Return (S_ERROR "Failed to get the pilot's owner proxy"), tr)
    | S_OK proxy => (Next tt, TellProxy ce proxy :: tr)
    end
  else (Next tt, tr).

(** Lines 546-571: the body of the loop over the keys. *)
Definition killGroup (failed : list string)
    (entry : string * (list string * string)) (tr : list KillEvent)
  : Ctl (list string) * list KillEvent :=
  let '(key, (pilotList, gridType)) := entry in
  match split_str "@@@" key with
  | [owner; group; site; ce; queue] =>
      let tr := AskQueue site ce queue :: tr in
      match kill_getQueue env tr with
      | S_ERROR msg => (Return (S_ERROR msg), tr)
      | S_OK queueDict =>
          let tr := AskCE gridType ce queueDict :: tr in
          match kill_getCE env tr with
          | S_ERROR msg => (Return (S_ERROR msg), tr)
          | S_OK ce =>
              match setOwnerProxy gridType owner group ce tr with
              | (Next _, tr) =>
                  let tr := AskKillJob ce pilotList :: tr in
                  match kill_killJob env tr with
                  | S_ERROR _ => (Next (failed ++ pilotList), tr)
                  | S_OK _ => (Next failed, tr)
                  end
              | (Return r, tr) => (Return r, tr)
              | (Raise e, tr) => (Raise e, tr)
              | (OutOfFuel, tr) => (OutOfFuel, tr)
              end
          end
      end
  | _ => (Raise ValueError, tr)
  end.

(** Lines 544-571: [for key, pilotDict in pilotRefDict.items()]. *)
Fixpoint killGroups (entries : list (string * (list string * string)))
    (failed : list string) (tr : list KillEvent)
  : Ctl (list string) * list KillEvent :=
  match entries with
  | [] => (Next failed, tr)
  | entry :: rest =>
      match killGroup failed entry tr with
      | (Next failed, tr) => killGroups rest failed tr
      | stopped => stopped
      end
  end.

(** [export_killPilot( pilotRefList )], lines 516-576. *)
Definition export_killPilot (pilotRefList : PilotRefList)
    (tr : list KillEvent) : Ctl unit * list KillEvent :=
  match regroup (pilotRefsOf pilotRefList) ∅ tr with
  | (Next pilotRefDict, tr) =>
      match killGroups (map_to_list pilotRefDict) [] tr with
      | (Next failed, tr) =>
          match failed with
          | [] => (Return (S_OK tt), tr)
          | _ => (Return (S_ERROR "Failed to kill at least some pilots"), tr)
          end
      | (Return r, tr) => (Return r, tr)
      | (Raise e, tr) => (Raise e, tr)
      | (OutOfFuel, tr) => (OutOfFuel, tr)
      end
  | (Return r, tr) => (Return r, tr)
  | (Raise e, tr) => (Raise e, tr)
  | (OutOfFuel, tr) => (OutOfFuel, tr)
  end.

(** The pilots handed to [killJob], latest call first. *)
Definition killedPilots (tr : list KillEvent) : list string :=
  concat (omap (λ ev, match ev with
                      | AskKillJob _ pilotList => Some pilotList
                      | _ => None
                      end) tr).

(** The pilots of the calls of [killJob] that were refused. *)
Fixpoint refusedPilots (tr : list KillEvent) : list string :=
  match tr with
  | [] => []
  | ev :: rest =>
      match ev with
      | AskKillJob _ pilotList =>
          if isOK (kill_killJob env tr) then refusedPilots rest
          else pilotList ++ refusedPilots rest
      | _ => refusedPilots rest
      end
  end.

(** All the pilots of [pilotRefDict], key after key. *)
Definition groupedPilots (pilotRefDict : gmap string (list string * string))
  : list string :=
  concat (map_to_list pilotRefDict).*2.*1.

End KillPilot.

Arguments AskPilotInfo {QueueDescr CE} _.
Arguments AskQueue {QueueDescr CE} _ _ _.
Arguments AskCE {QueueDescr CE} _ _ _.
Arguments AskGroupOption {QueueDescr CE} _.
Arguments AskProxy {QueueDescr CE} _ _.
Arguments TellProxy {QueueDescr CE} _ _.
Arguments AskKillJob {QueueDescr CE} _ _.
Arguments kill_getPilotInfo {QueueDescr CE} _ _.
Arguments kill_getQueue {QueueDescr CE} _ _.
Arguments kill_getCE {QueueDescr CE} _ _.
Arguments kill_getGroupOption {QueueDescr CE} _ _.
Arguments kill_getProxy {QueueDescr CE} _ _.
Arguments kill_killJob {QueueDescr CE} _ _.
Arguments regroup {QueueDescr CE} _ _ _ _.
Arguments setOwnerProxy {QueueDescr CE} _ _ _ _ _ _.
Arguments killGroup {QueueDescr CE} _ _ _ _.
Arguments killGroups {QueueDescr CE} _ _ _ _.
Arguments export_killPilot {QueueDescr CE} _ _ _.
Arguments killedPilots {QueueDescr CE} _.
Arguments refusedPilots {QueueDescr CE} _ _.

(** What the pilot database knows of a pilot of the sample site. *)
Definition samplePilotDict : gmap string string :=
  {[ "OwnerDN" := "/DC=org/CN=user"; "OwnerGroup" := "user_group";
     "GridSite" := "LCG.Example.org"; "DestinationSite" := "ce.example.org";
     "Queue" := "long"; "GridType" := "ARC" ]}.

(** A world that knows the pilots [pilotA] and [pilotB] and in which every
    other call succeeds; a computing element is known by its name. *)
Definition sampleKillEnv : KillEnv unit string :=
  {| kill_getPilotInfo := λ tr,
       match tr with
       | AskPilotInfo pilotReference :: _ =>
           if bool_decide (pilotReference ∈ ["pilotA"; "pilotB"])
           then S_OK {[ pilotReference := samplePilotDict ]}
           else S_ERROR "pilot not found"
       | _ => S_ERROR "no request"
       end;
     kill_getQueue := λ _, S_OK tt;
     kill_getCE := λ tr,
       match tr with
       | AskCE _ ce _ :: _ => S_OK ce
       | _ => S_ERROR "no request"
       end;
     kill_getGroupOption := λ tr,
       match tr with
       | AskGroupOption group :: _ => group
       | _ => ""
       end;
     kill_getProxy := λ _, S_OK "proxy";
     kill_killJob := λ _, S_OK tt |}.

(** * Properties *)

(** ** Strings and tags *)

Lemma length_append (s t : string) :
  String.length (s +:+ t) = (String.length s + String.length t)%nat.
Proof. induction s as [|c s IH]; simpl; [done | by rewrite IH]. Qed.

Lemma append_inj_r (t s1 s2 : string) : s1 +:+ t = s2 +:+ t → s1 = s2.
Proof.
  revert s2. induction s1 as [|c s1 IH]; intros [|d s2] H; simpl in *.
  - done.
  - apply (f_equal String.length) in H. simpl in H.
    rewrite !length_append in H. simpl in H. lia.
  - apply (f_equal String.length) in H. simpl in H.
    rewrite !length_append in H. simpl in H. lia.
  - injection H as -> H. f_equal. by apply IH.
Qed.

Lemma processorsTag_inj (a b : Z) : processorsTag a = processorsTag b → a = b.
Proof.
  unfold processorsTag. intros H%append_inj_r. by apply (inj pretty).
Qed.

Lemma processorsTag_not_WholeNode (n : Z) : processorsTag n ≠ "WholeNode".
Proof.
  intros H%(f_equal String.length). unfold processorsTag in H.
  rewrite length_append in H. simpl in H. lia.
Qed.

Lemma elem_of_range1 (k n : Z) : k ∈ range1 n ↔ 1 ≤ k ≤ n.
Proof.
  unfold range1. rewrite list_elem_of_fmap. split.
  - intros (i & -> & Hi). apply elem_of_seq in Hi. lia.
  - intros Hk. exists (Z.to_nat (k - 1)). split; [lia|].
    apply elem_of_seq. lia.
Qed.

Lemma wholeNodeFlag_setTags ceDef p t :
  wholeNodeFlag ceDef (setTags p t) = wholeNodeFlag ceDef p.
Proof. done. Qed.

Lemma wholeNodeFlag_truthy ceDef p :
  wholeNodeFlag ceDef p = true ↔
  ∃ s, effectiveWholeNode ceDef p = Some s ∧ truthy s.
Proof.
  unfold wholeNodeFlag, effectiveWholeNode, truthy, eq_nocase, get_or.
  rewrite bool_decide_eq_true.
  change (lower "yes") with "yes". change (lower "true") with "true".
  destruct (pWholeNode p) as [s|], (ceWholeNode ceDef) as [c|]; simpl.
  - split; [intros H; by exists s | by intros (? & [= <-] & H)].
  - split; [intros H; by exists s | by intros (? & [= <-] & H)].
  - split; [intros H; by exists c | by intros (? & [= <-] & H)].
  - split; [by intros [|] | by intros (? & ? & _)].
Qed.

(** The tags of a queue after [deriveTags]: the former ones, the processor
    tags, and the whole-node tag when the flag is set. *)
Lemma deriveTags_tags ceDef p p' :
  deriveTags ceDef p = Some p' →
  ∃ procs, processorsTags ceDef p = Some procs ∧
    default [] (pTags p') =
      default [] (pTags p) ++ procs
      ++ (if wholeNodeFlag ceDef p then ["WholeNode"] else []).
Proof.
  unfold deriveTags. destruct (processorsTags ceDef p) as [procs|]; [|done].
  simpl. intros [= <-]. exists procs. split; [done|].
  destruct procs as [|t procs].
  - destruct (wholeNodeFlag ceDef p); simpl; by rewrite ?app_nil_r.
  - rewrite wholeNodeFlag_setTags.
    destruct (wholeNodeFlag ceDef p); simpl; by rewrite ?app_nil_r, <- ?app_assoc.
Qed.

Lemma processorsTags_elem ceDef p procs N :
  processorsTags ceDef p = Some procs →
  processorsTag N ∈ procs ↔
  ∃ s m, effectiveMaxProcessors ceDef p = Some s ∧ py_int s = Some m ∧ 1 ≤ N ≤ m.
Proof.
  unfold processorsTags, effectiveMaxProcessors.
  destruct (get_or _ _) as [s|] eqn:E.
  - destruct (decide (s = "")) as [->|Hs].
    + intros [= <-]. split; [by intros ?%elem_of_nil|].
      by intros (? & ? & [= <-] & ? & _).
    + assert (H : (match s with
                   | "" => Some []
                   | _ => n ← py_int s; Some (processorsTag <$> range1 n)
                   end) = (n ← py_int s; Some (processorsTag <$> range1 n))).
      { by destruct s. }
      rewrite H. clear H. destruct (py_int s) as [m|] eqn:Em; [|done].
      simpl. intros [= <-]. rewrite list_elem_of_fmap. split.
      * intros (k & Hk%processorsTag_inj & Hr%elem_of_range1). subst k.
        by exists s, m.
      * intros (? & m' & [= <-] & Hm & HN). rewrite Em in Hm.
        injection Hm as <-. exists N. by rewrite elem_of_range1.
  - intros [= <-]. split; [by intros ?%elem_of_nil|].
    by intros (? & ? & ? & _).
Qed.

Lemma processorsTags_shape ceDef p procs tag :
  processorsTags ceDef p = Some procs → tag ∈ procs →
  ∃ N, tag = processorsTag N.
Proof.
  unfold processorsTags. intros H Hin.
  destruct (get_or _ _) as [s|].
  - destruct (decide (s = "")) as [->|Hs].
    + injection H as <-. by apply elem_of_nil in Hin.
    + assert (H' : (n ← py_int s; Some (processorsTag <$> range1 n)) = Some procs).
      { by destruct s. }
      destruct (py_int s) as [m|]; [|done]. simpl in H'. injection H' as <-.
      apply list_elem_of_fmap in Hin as (k & Hk & _). by exists k.
  - injection H as <-. by apply elem_of_nil in Hin.
Qed.

Lemma WholeNode_not_processors ceDef p procs :
  processorsTags ceDef p = Some procs → "WholeNode" ∉ procs.
Proof.
  unfold processorsTags. intros H Hin.
  destruct (get_or _ _) as [s|].
  - destruct (decide (s = "")) as [->|Hs].
    + injection H as <-. by apply elem_of_nil in Hin.
    + assert (H' : (n ← py_int s; Some (processorsTag <$> range1 n)) = Some procs).
      { by destruct s. }
      destruct (py_int s) as [m|]; [|done]. simpl in H'. injection H' as <-.
      apply list_elem_of_fmap in Hin as (k & Hk & _).
      by apply (processorsTag_not_WholeNode k).
  - injection H as <-. by apply elem_of_nil in Hin.
Qed.

(** C3, as the code has it. For a queue whose maximum-processors value
    is read without error, the derivation (lines 32-45) appends tags to
    those the queue already has: the tags after the derivation are the
    former ones followed by the derived ones. The derived tags contain
    ["{N}Processors"] exactly for the integers [N] with [1 <= N <= ] the
    maximum-processors value in force (the entry of the queue parameters
    if present, else the one of the computing element), contain
    ["WholeNode"] if and only if the whole-node flag in force equals
    ["yes"] or ["true"] up to case, and contain nothing else. For a queue
    without a former [Tags] entry, the tags after the derivation are the
    derived ones. *)
Theorem derived_tags_exact (ceDef : CEDef) (p p' : ParametersDict) :
  deriveTags ceDef p = Some p' →
  ∃ derived,
    default [] (pTags p') = default [] (pTags p) ++ derived
    ∧ (∀ N : Z,
         processorsTag N ∈ derived ↔
         ∃ s m, effectiveMaxProcessors ceDef p = Some s ∧ py_int s = Some m
                ∧ 1 ≤ N ≤ m)
    ∧ ("WholeNode" ∈ derived ↔
       ∃ s, effectiveWholeNode ceDef p = Some s ∧ truthy s)
    ∧ (∀ tag, tag ∈ derived → tag = "WholeNode" ∨ ∃ N, tag = processorsTag N)
    ∧ (pTags p = None → default [] (pTags p') = derived).
Proof.
  intros Hd.
  destruct (deriveTags_tags _ _ _ Hd) as (procs & Hp & Htags).
  exists (procs ++ (if wholeNodeFlag ceDef p then ["WholeNode"] else [])).
  split; [exact Htags|]. split; [|split; [|split]].
  - intros N. rewrite elem_of_app.
    rewrite <- (processorsTags_elem ceDef p procs N Hp). split; [|by left].
    intros [H|H]; [done|]. destruct (wholeNodeFlag ceDef p).
    + apply list_elem_of_singleton in H. by apply processorsTag_not_WholeNode in H.
    + by apply elem_of_nil in H.
  - rewrite <- wholeNodeFlag_truthy. rewrite elem_of_app. split.
    + intros [H|H]; [by apply (WholeNode_not_processors _ _ _ Hp) in H|].
      by destruct (wholeNodeFlag ceDef p); [|apply elem_of_nil in H].
    + intros ->. right. by apply list_elem_of_singleton.
  - intros tag [H|H]%elem_of_app.
    + right. by apply (processorsTags_shape ceDef p procs).
    + left. destruct (wholeNodeFlag ceDef p);
        [by apply list_elem_of_singleton in H | by apply elem_of_nil in H].
  - intros Hnone. by rewrite Htags, Hnone.
Qed.

(** The test of lines 47-52, read on the tags. *)
Lemma keepQueue_spec (p : ParametersDict) :
  keepQueue p = true ↔
  ∃ tags, pTags p = Some tags ∧ ("2Processors" ∈ tags ∨ "WholeNode" ∈ tags).
Proof.
  unfold keepQueue. destruct (pTags p) as [tags|].
  - rewrite negb_true_iff, andb_false_iff, !bool_decide_eq_false. split.
    + intros [H|H]; exists tags; (split; [done|]).
      * left. by destruct (decide ("2Processors" ∈ tags)).
      * right. by destruct (decide ("WholeNode" ∈ tags)).
    + intros (? & [= <-] & [H|H]); [left | right]; by intros Hn.
  - split; [done | by intros (? & ? & _)].
Qed.

(** ** Sequencing *)

Lemma bind_next {A B} (m : M A) (k : A → M B) σ a σ' :
  m σ = (Next a, σ') → bind m k σ = k a σ'.
Proof. unfold bind. by intros ->. Qed.

Lemma bind_return {A B} (m : M A) (k : A → M B) σ r σ' :
  m σ = (Return r, σ') → bind m k σ = (Return r, σ').
Proof. unfold bind. by intros ->. Qed.

Lemma forEach_next {A} (body : A → M unit) x rest σ σ' :
  body x σ = (Next tt, σ') →
  forEach (x :: rest) body σ = forEach rest body σ'.
Proof. intros H. simpl. by rewrite (bind_next _ _ _ _ _ H). Qed.

Lemma forEach_return {A} (body : A → M unit) x rest σ r σ' :
  body x σ = (Return r, σ') →
  forEach (x :: rest) body σ = (Return r, σ').
Proof. intros H. simpl. by rewrite (bind_return _ _ _ _ _ H). Qed.

(** ** The early end of the cycle *)

(** C8. When the global query is answered with an empty mapping,
    [submitJobs] returns [S_OK()]; the only calls of the cycle are the
    platform query and the global query, so no queue is queried, no pilot
    is submitted and no failure counter changes. *)
Theorem no_demand_ends_cycle (env : Env) (cfg : Config)
    (queueDict : gmap string Queue) (fuel : nat) (σ : State)
    (platform tags : list string) :
  let call1 := CallPlatforms (platforms cfg) in
  let call2 := CallMatcher (tqDict cfg platform tags) in
  env_platforms env (call1 :: trace σ) = S_OK platform →
  allTags queueDict (map_to_list queueDict).*1 = Some tags →
  env_matcher env (call2 :: call1 :: trace σ) = S_OK ∅ →
  ∃ σ', submitJobs env cfg queueDict fuel σ = (Return (S_OK tt), σ')
        ∧ trace σ' = call2 :: call1 :: trace σ
        ∧ failedQueues σ' = failedQueues σ
        ∧ queueSlots σ' = queueSlots σ
        ∧ totalSubmittedPilots σ' = totalSubmittedPilots σ.
Proof.
  intros call1 call2 Hplat Htags Hmatch.
  exists (set_trace (call2 :: call1 :: trace σ) σ).
  split; [|done].
  unfold submitJobs, submitJobs_body, bind, ask. simpl.
  fold call1. rewrite Hplat, Htags. simpl.
  fold call2. rewrite Hmatch. simpl. done.
Qed.

(** ** The queue parameters *)

(** C10. A queue that is not left out for its failures, whose site passes
    both site tests, and whose parameters have no [CPUTime] entry is
    skipped: [processQueue] falls through to the next queue and leaves the
    memory of the agent as it was, so no call was issued for the queue
    (no query, no submission) and its failure counter is unchanged. *)
Theorem missing_cputime_skips (env : Env) (cfg : Config)
    (queueDict : gmap string Queue) (fuel : nat) (demand : Demand)
    (siteMaskList : list string) (queue : string) (q : Queue)
    (queueTags : list string) (σ : State) :
  failedQueueCycleFactor cfg ≠ 0 →
  queueFailedRecently cfg σ queue = false →
  queueDict !! queue = Some q →
  pTags (Parameters q) = Some queueTags →
  anySite demand = true ∨ Site q ∈ jobSites demand →
  Site q ∈ siteMaskList ∨ Site q ∈ testSites demand →
  pCPUTime (Parameters q) = None →
  processQueue env cfg queueDict fuel demand siteMaskList queue σ = (Next tt, σ).
Proof.
  intros Hf Hgate Hq Htags Hsite Hmask Hcpu.
  unfold processQueue. rewrite bool_decide_eq_false_2 by done.
  unfold bind at 1, get. rewrite Hgate.
  unfold processEligibleQueue. rewrite Hq. simpl.
  unfold bind at 1, ret. rewrite Htags. simpl.
  assert (negb (anySite demand) && bool_decide (Site q ∉ jobSites demand) = false)
    as ->.
  { destruct Hsite as [-> | Hin]; [done|].
    rewrite (bool_decide_eq_false_2 _ (λ H : Site q ∉ jobSites demand, H Hin)).
    apply andb_false_r. }
  assert (negb (bool_decide (Site q ∈ siteMaskList))
          && bool_decide (Site q ∉ testSites demand) = false) as ->.
  { destruct Hmask as [Hin | Hin].
    - by rewrite bool_decide_eq_true_2.
    - rewrite (bool_decide_eq_false_2 _ (λ H : Site q ∉ testSites demand, H Hin)).
      apply andb_false_r. }
  by rewrite Hcpu.
Qed.

(** ** The failure counters *)

Section Backoff.

Variable env : Env.
Variable cfg : Config.
Variable queueDict : gmap string Queue.
Variable fuel : nat.
Variable demand : Demand.
Variable siteMaskList : list string.
Variable queue : string.

Local Abbreviation f := (failedQueueCycleFactor cfg).
Local Abbreviation cycle := (processQueue env cfg queueDict fuel demand siteMaskList queue).
Local Abbreviation cycles := (repeatQueue env cfg queueDict fuel demand siteMaskList queue).

Lemma failedCounter_bump σ : failedCounter (bump queue σ) queue = failedCounter σ queue + 1.
Proof. unfold bump, failedCounter. simpl. by rewrite lookup_insert_eq. Qed.

Lemma failedCounter_bump_ne σ other :
  other ≠ queue → failedCounter (bump queue σ) other = failedCounter σ other.
Proof.
  intros H. unfold bump, failedCounter. simpl. by rewrite lookup_insert_ne.
Qed.

Lemma queueFailedRecently_true σ :
  queueFailedRecently cfg σ queue = true ↔ failedCounter σ queue `mod` f ≠ 0.
Proof. unfold queueFailedRecently. apply bool_decide_eq_true. Qed.

Lemma queueFailedRecently_false σ :
  queueFailedRecently cfg σ queue = false ↔ failedCounter σ queue `mod` f = 0.
Proof.
  unfold queueFailedRecently. rewrite bool_decide_eq_false.
  destruct (decide (failedCounter σ queue `mod` f = 0)); naive_solver.
Qed.

(** A queue that failed recently: the counter goes up, nothing else. *)
Lemma processQueue_skip σ :
  f ≠ 0 → failedCounter σ queue `mod` f ≠ 0 →
  cycle σ = (Next tt, bump queue σ).
Proof.
  intros Hf Hc. unfold processQueue.
  rewrite bool_decide_eq_false_2 by done.
  unfold bind at 1, get.
  by rewrite (proj2 (queueFailedRecently_true σ) Hc).
Qed.

Lemma processQueue_eligible σ :
  f ≠ 0 → failedCounter σ queue `mod` f = 0 →
  cycle σ = processEligibleQueue env cfg queueDict fuel demand siteMaskList queue σ.
Proof.
  intros Hf Hc. unfold processQueue.
  rewrite bool_decide_eq_false_2 by done.
  unfold bind at 1, get.
  by rewrite (proj2 (queueFailedRecently_false σ) Hc).
Qed.

(** As long as the counter stays off the multiples of [f], the cycles
    only count. *)
Lemma repeatQueue_skips (n : nat) : ∀ σ,
  f ≠ 0 →
  (∀ j : nat, (j < n)%nat → (failedCounter σ queue + Z.of_nat j) `mod` f ≠ 0) →
  ∃ σ', cycles n σ = (Next tt, σ')
        ∧ failedCounter σ' queue = failedCounter σ queue + Z.of_nat n
        ∧ trace σ' = trace σ.
Proof.
  induction n as [|n IH]; intros σ Hf Hskip.
  - exists σ. simpl. split; [done|]. split; [lia | done].
  - assert (H0 : failedCounter σ queue `mod` f ≠ 0).
    { specialize (Hskip 0%nat). rewrite Z.add_0_r in Hskip. apply Hskip. lia. }
    destruct (IH (bump queue σ) Hf) as (σ' & Hrun & Hc & Htr).
    { intros j Hj. rewrite failedCounter_bump.
      specialize (Hskip (S j)). replace (failedCounter σ queue + 1 + Z.of_nat j)
        with (failedCounter σ queue + Z.of_nat (S j)) by lia.
      apply Hskip. lia. }
    exists σ'. simpl.
    rewrite (bind_next _ _ _ _ _ (processQueue_skip σ Hf H0)).
    split; [done|]. rewrite Hc, failedCounter_bump. split; [lia | done].
Qed.

(** Counting up from [c] reaches the next multiple of [f] after
    [f - c mod f] steps and not before. *)
Lemma next_multiple (c j : Z) :
  0 < f → 0 ≤ j < f - c `mod` f → c `mod` f ≠ 0 → (c + j) `mod` f ≠ 0.
Proof.
  intros Hf Hj Hc.
  pose proof (Z.mod_pos_bound c f Hf) as Hb.
  rewrite (Z.div_mod c f) at 1 by lia.
  replace (f * (c `div` f) + c `mod` f + j)
    with (c `mod` f + j + (c `div` f) * f) by lia.
  rewrite Z_mod_plus_full, Z.mod_small; lia.
Qed.

Lemma at_multiple (c : Z) : 0 < f → (c + (f - c `mod` f)) `mod` f = 0.
Proof.
  intros Hf. rewrite (Z.div_mod c f) at 1 by lia.
  replace (f * (c `div` f) + c `mod` f + (f - c `mod` f))
    with (0 + (c `div` f + 1) * f) by lia.
  by rewrite Z_mod_plus_full, Z.mod_0_l by lia.
Qed.

Lemma skippedFor_next_multiple σ :
  0 < f → failedCounter σ queue `mod` f ≠ 0 →
  skippedFor env cfg queueDict fuel demand siteMaskList queue
    (Z.to_nat (f - failedCounter σ queue `mod` f)) σ.
Proof.
  intros Hf Hc. remember (failedCounter σ queue) as c eqn:Ec.
  pose proof (Z.mod_pos_bound c f Hf) as Hb.
  assert (Hrun : ∀ n : nat, (n ≤ Z.to_nat (f - c `mod` f))%nat →
            failedCounter (afterCycles env cfg queueDict fuel demand
                             siteMaskList queue n σ) queue = c + Z.of_nat n).
  { intros n Hn. unfold afterCycles.
    assert (Hskip : ∀ j : nat, (j < n)%nat →
              (failedCounter σ queue + Z.of_nat j) `mod` f ≠ 0).
    { intros j Hj. rewrite <- Ec. apply next_multiple; [done | lia | done]. }
    destruct (repeatQueue_skips n σ ltac:(lia) Hskip) as (σ' & -> & Hc' & _).
    simpl. by rewrite Hc', Ec. }
  split.
  - intros j Hj. apply queueFailedRecently_true.
    rewrite Hrun by lia. apply next_multiple; [done | lia | done].
  - apply queueFailedRecently_false. rewrite Hrun by lia.
    rewrite Z2Nat.id by lia. by apply at_multiple.
Qed.

(** One past a multiple of [f]: [f - 1] cycles without the queue. *)
Lemma skippedFor_one_past σ :
  0 < f → (failedCounter σ queue - 1) `mod` f = 0 →
  skippedFor env cfg queueDict fuel demand siteMaskList queue
    (Z.to_nat (f - 1)) σ.
Proof.
  intros Hf Hone.
  destruct (decide (f = 1)) as [Hf1|Hf1].
  - rewrite Hf1. simpl. split; [intros j Hj; lia|].
    apply queueFailedRecently_false. rewrite Hf1. apply Z.mod_1_r.
  - assert (Hm : failedCounter σ queue `mod` f = 1).
    { replace (failedCounter σ queue) with (1 + (failedCounter σ queue - 1)) by lia.
      rewrite Z.add_mod, Hone, Z.add_0_r, Z.mod_mod by lia.
      apply Z.mod_small. lia. }
    pose proof (skippedFor_next_multiple σ Hf) as H.
    rewrite Hm in H. apply H. lia.
Qed.

End Backoff.

Lemma afterFailedSubmission_counter queue q executable chunk processors σ :
  failedCounter (afterFailedSubmission queue q executable chunk processors σ) queue
  = failedCounter σ queue + 1.
Proof. unfold afterFailedSubmission. by rewrite failedCounter_bump. Qed.

Lemma afterFailedSubmission_counter_ne queue q executable chunk processors σ other :
  other ≠ queue →
  failedCounter (afterFailedSubmission queue q executable chunk processors σ) other
  = failedCounter σ other.
Proof.
  intros H. unfold afterFailedSubmission. by rewrite failedCounter_bump_ne.
Qed.

(** C9. When a queue is left out because its failure counter is not a
    multiple of the cycle factor, that cycle adds exactly one to the
    counter of the queue (issuing no call and leaving the other counters
    alone); hence the queue is left out for [cycleFactor - (counter mod
    cycleFactor)] cycles in a row and is taken again in the next one. *)
Theorem skip_increments_counter (env : Env) (cfg : Config)
    (queueDict : gmap string Queue) (fuel : nat) (demand : Demand)
    (siteMaskList : list string) (queue : string) (σ : State) :
  0 < failedQueueCycleFactor cfg →
  failedCounter σ queue `mod` failedQueueCycleFactor cfg ≠ 0 →
  (∃ σ', processQueue env cfg queueDict fuel demand siteMaskList queue σ
           = (Next tt, σ')
         ∧ failedCounter σ' queue = failedCounter σ queue + 1
         ∧ (∀ other, other ≠ queue → failedCounter σ' other = failedCounter σ other)
         ∧ trace σ' = trace σ)
  ∧ skippedFor env cfg queueDict fuel demand siteMaskList queue
      (Z.to_nat (failedQueueCycleFactor cfg
                 - failedCounter σ queue `mod` failedQueueCycleFactor cfg)) σ.
Proof.
  intros Hf Hc. split.
  - exists (bump queue σ). split; [apply processQueue_skip; [lia | done]|].
    split; [apply failedCounter_bump|].
    split; [intros other Hne; by apply failedCounter_bump_ne | done].
  - by apply skippedFor_next_multiple.
Qed.

(** C5, as the code has it. With a positive cycle factor [f], a queue is
    left out of a cycle exactly when its failure counter [c] has
    [c mod f <> 0] (the cycle then only counts; otherwise the queue is
    processed); and a queue whose counter is one past a multiple of [f],
    as after one failure of an eligible queue, is left out for [f - 1]
    cycles in a row and is taken again in the cycle after them. *)
Theorem backoff_period (env : Env) (cfg : Config)
    (queueDict : gmap string Queue) (fuel : nat) (demand : Demand)
    (siteMaskList : list string) (queue : string) (σ : State) :
  0 < failedQueueCycleFactor cfg →
  (queueFailedRecently cfg σ queue = true ↔
     failedCounter σ queue `mod` failedQueueCycleFactor cfg ≠ 0)
  ∧ (failedCounter σ queue `mod` failedQueueCycleFactor cfg ≠ 0 →
     processQueue env cfg queueDict fuel demand siteMaskList queue σ
       = (Next tt, bump queue σ))
  ∧ (failedCounter σ queue `mod` failedQueueCycleFactor cfg = 0 →
     processQueue env cfg queueDict fuel demand siteMaskList queue σ
       = processEligibleQueue env cfg queueDict fuel demand siteMaskList queue σ)
  ∧ ((failedCounter σ queue - 1) `mod` failedQueueCycleFactor cfg = 0 →
     skippedFor env cfg queueDict fuel demand siteMaskList queue
       (Z.to_nat (failedQueueCycleFactor cfg - 1)) σ)
  ∧ (failedCounter σ queue `mod` failedQueueCycleFactor cfg = 0 →
     ∀ q executable chunk processors,
       skippedFor env cfg queueDict fuel demand siteMaskList queue
         (Z.to_nat (failedQueueCycleFactor cfg - 1))
         (afterFailedSubmission queue q executable chunk processors σ)).
Proof.
  intros Hf. split; [apply queueFailedRecently_true|].
  split; [intros Hc; apply processQueue_skip; [lia | done]|].
  split; [intros Hc; apply processQueue_eligible; [lia | done]|].
  split; [by apply skippedFor_one_past|].
  intros Hc q executable chunk processors. apply skippedFor_one_past; [done|].
  rewrite afterFailedSubmission_counter.
  replace (failedCounter σ queue + 1 - 1) with (failedCounter σ queue) by lia.
  exact Hc.
Qed.

(** ** Failures of the outside calls *)

Section Failures.

Variable env : Env.
Variable cfg : Config.

(** The computing element refuses a submission: the loop of the tag ends
    with the memory [afterFailedSubmission]. *)
Lemma submitLoop_failure (fuel : nat) (queue : string) (q : Queue)
    (taskQueueDict : gmap Z TaskQueue) (tagTqIDList : list Z) (processors : Z)
    (σ : State) (executable : string) (chunk : Z) (msg : string) :
  let call1 := CallGetExecutable queue (pilotsToSubmit σ)
                 (default false (BundleProxy q))
                 (default "" (pHttpProxy (Parameters q)))
                 (default "" (pJobExecDir (Parameters q))) in
  let call2 := CallSubmitJob queue executable chunk processors in
  0 < pilotsToSubmit σ →
  env_getExecutable env (call1 :: trace σ) = S_OK (executable, chunk) →
  env_submitJob env (call2 :: call1 :: trace σ) = S_ERROR msg →
  submitLoop env (S fuel) queue q taskQueueDict tagTqIDList processors σ
  = (Next tt, afterFailedSubmission queue q executable chunk processors σ).
Proof.
  intros call1 call2 Hpos Hexe Hsub.
  assert (Hlt : (0 <? pilotsToSubmit σ) = true) by by apply Z.ltb_lt.
  cbn [submitLoop]. unfold bind at 1, get. rewrite Hlt.
  unfold afterFailedSubmission, failedSubmissionCalls, bump.
  unfold submitOnce, bind, get, ask, tell, modify, countFailure, continue, ret.
  simpl. fold call1. rewrite Hexe. simpl. fold call2. rewrite Hsub.
  destruct (bool_decide (CEType q ≠ "HTCondorCE")); simpl;
    destruct fuel; simpl; rewrite ?Z.ltb_irrefl; reflexivity.
Qed.

(** The query for a queue fails: [return result]. *)
Lemma matchAndSubmit_failure (fuel : nat) (queue : string) (q : Queue) (siteMask : bool)
    (processorTags platform : list string) (queueCPUTime : Z) (σ : State)
    (msg : string) :
  let call := CallMatcher (ceDict cfg q siteMask platform processorTags) in
  env_matcher env (call :: trace σ) = S_ERROR msg →
  matchAndSubmit env cfg fuel queue q siteMask processorTags queueCPUTime
                 platform σ
  = (Return (S_ERROR msg), set_trace (call :: trace σ) σ).
Proof.
  intros call H. unfold matchAndSubmit, bind, ask. simpl. fold call.
  by rewrite H.
Qed.

Lemma countWaitingPilots_failedQueues (tagTqIDList : list Z) σ w σ' :
  countWaitingPilots env cfg tagTqIDList σ = (Next w, σ') →
  failedQueues σ' = failedQueues σ ∧ queueSlots σ' = queueSlots σ
  ∧ totalSubmittedPilots σ' = totalSubmittedPilots σ.
Proof.
  unfold countWaitingPilots. destruct (pilotWaitingFlag cfg).
  - unfold bind, ask, ret. simpl. by intros [= _ <-].
  - unfold ret. by intros [= _ <-].
Qed.

(** No proxy for the pilots of a tag: [return result]. *)
Lemma processTag_no_proxy (fuel : nat) (queue : string) (q : Queue)
    (queueCPUTime : Z) (taskQueueDict : gmap Z TaskQueue)
    (tqIDListByProcessors : gmap string (list Z))
    (totalTQJobsByProcessors : gmap string Z) (tag : string)
    (tagTQJobs : Z) (tagTqIDList : list Z) (tagWaitingPilots : Z)
    (σ σ1 : State) (msg : string) :
  let call := CallProxy (pilotDN cfg) (pilotGroup cfg) (queueCPUTime + 86400) in
  totalTQJobsByProcessors !! tag = Some tagTQJobs →
  tqIDListByProcessors !! tag = Some tagTqIDList →
  countWaitingPilots env cfg tagTqIDList σ = (Next tagWaitingPilots, σ1) →
  tagWaitingPilots < tagTQJobs →
  env_proxy env (call :: trace σ1) = S_ERROR msg →
  processTag env cfg fuel queue q queueCPUTime taskQueueDict
             tqIDListByProcessors totalTQJobsByProcessors tag σ
  = (Return (S_ERROR msg), set_trace (call :: trace σ1) σ1).
Proof.
  intros call Hjobs Hids Hwait Hlt Hproxy.
  unfold processTag. rewrite Hjobs, Hids. simpl.
  unfold bind at 1, ret. unfold bind at 1, ret.
  unfold bind at 1. rewrite Hwait.
  rewrite (proj2 (Z.leb_gt _ _) Hlt).
  unfold bind, ask. simpl. fold call. by rewrite Hproxy.
Qed.

End Failures.

(** ** Where a failure finds the cycle *)

Lemma bind_assoc {A B C} (m : M A) (k1 : A → M B) (k2 : B → M C) σ :
  bind (bind m k1) k2 σ = bind m (λ a, bind (k1 a) k2) σ.
Proof. unfold bind. by destruct (m σ) as [[] ?]. Qed.

Lemma bind_run {A B} (m m' : M A) (k : A → M B) σ σ' :
  m σ = m' σ' → bind m k σ = bind m' k σ'.
Proof. unfold bind. by intros ->. Qed.

Lemma bind_ext {A B} (m : M A) (k k' : A → M B) σ :
  (∀ a σ', k a σ' = k' a σ') → bind m k σ = bind m k' σ.
Proof. intros H. unfold bind. destruct (m σ) as [[] ?]; [apply H|done..]. Qed.

Lemma bind_get {A B} (f : State → A) (k : A → M B) σ :
  bind (get f) k σ = k (f σ) σ.
Proof. done. Qed.

Lemma bind_ret {A B} (a : A) (k : A → M B) σ : bind (ret a) k σ = k a σ.
Proof. done. Qed.

Lemma bind_modify {B} (f : State → State) (k : unit → M B) σ :
  bind (modify f) k σ = k tt (f σ).
Proof. done. Qed.

Lemma bind_ask {A B} (env : Env) (ev : Event) (answer : Env → list Event → A)
    (k : A → M B) σ :
  bind (ask env ev answer) k σ
  = k (answer env (ev :: trace σ)) (set_trace (ev :: trace σ) σ).
Proof. done. Qed.

Lemma bind_tell {B} (ev : Event) (k : unit → M B) σ :
  bind (tell ev) k σ = k tt (set_trace (ev :: trace σ) σ).
Proof. done. Qed.

Lemma forEach_app {A} (body : A → M unit) l1 l2 σ :
  forEach (l1 ++ l2) body σ = (forEach l1 body ;;; forEach l2 body) σ.
Proof.
  revert σ. induction l1 as [|x l1 IH]; intros σ; [done|].
  cbn [app forEach]. rewrite bind_assoc. apply bind_ext. intros _ σ'. apply IH.
Qed.

(** The loop has passed the elements [before]: it is at [x]. *)
Lemma forEach_from {A} (body : A → M unit) before x after σ0 σ1 :
  forEach before body σ0 = (Next tt, σ1) →
  forEach (before ++ x :: after) body σ0
  = (body x ;;; forEach after body) σ1.
Proof. intros H. rewrite forEach_app. by rewrite (bind_next _ _ _ _ _ H). Qed.

Section Places.

Variable env : Env.
Variable cfg : Config.
Variable queueDict : gmap string Queue.

Lemma submitLoop_done (fuel : nat) (queue : string) (q : Queue)
    (taskQueueDict : gmap Z TaskQueue) (tagTqIDList : list Z) (processors : Z)
    (σ : State) :
  pilotsToSubmit σ ≤ 0 →
  submitLoop env fuel queue q taskQueueDict tagTqIDList processors σ
  = (Next tt, σ).
Proof.
  intros H. assert (E : (0 <? pilotsToSubmit σ) = false) by by apply Z.ltb_ge.
  destruct fuel; cbn [submitLoop]; unfold bind, get; by rewrite E.
Qed.

(** The first [k] turns of the loop of a tag, then the rest of it. *)
Lemma submitLoop_turns (k fuel : nat) (queue : string) (q : Queue)
    (taskQueueDict : gmap Z TaskQueue) (tagTqIDList : list Z) (processors : Z)
    (σ : State) :
  submitLoop env (k + fuel) queue q taskQueueDict tagTqIDList processors σ
  = (submitTurns env k queue q taskQueueDict tagTqIDList processors ;;;
     submitLoop env fuel queue q taskQueueDict tagTqIDList processors) σ.
Proof.
  revert σ. induction k as [|k IH]; intros σ; [done|].
  cbn [Nat.add submitLoop submitTurns]. rewrite bind_assoc.
  rewrite !bind_get. destruct (0 <? pilotsToSubmit σ) eqn:E.
  - rewrite bind_assoc. apply bind_ext. intros _ σ2. apply IH.
  - symmetry. apply submitLoop_done. by apply Z.ltb_ge.
Qed.

(** From the start of the cycle to the loop over the queues. *)
Lemma submitJobs_reaches_queues (fuel : nat) (σ : State)
    (value : gmap Z TaskQueue) (siteMaskList queues : list string)
    (σ0 : State) :
  cycleReachesQueues env cfg queueDict σ value siteMaskList queues σ0 →
  submitJobs env cfg queueDict fuel σ
  = (forEach queues
       (processQueue env cfg queueDict fuel (globalDemand (map_to_list value))
          siteMaskList) ;;;
     return_ (S_OK tt)) σ0.
Proof.
  intros (platform & tags & Hplat & Htags & Hmatch & Hne & Hmask & -> & ->).
  unfold submitJobs, submitJobs_body. rewrite Htags.
  rewrite bind_assoc, bind_ask, Hplat. cbn beta iota.
  unfold item. rewrite bind_assoc, bind_ret, bind_assoc, bind_ask.
  cbn [trace set_trace]. rewrite Hmatch. cbn beta iota.
  rewrite bool_decide_eq_false_2 by done.
  unfold submitToQueues. rewrite !bind_assoc, bind_modify.
  rewrite !bind_assoc, bind_ask. rewrite !bind_assoc.
  unfold getSiteMaskList, queuesEntry. destruct (rssFlag cfg).
  - rewrite !bind_assoc, bind_ask. cbn [trace set_trace set_tqID].
    rewrite Hmask. cbn beta iota. rewrite bind_ret, !bind_assoc, bind_ask.
    rewrite !bind_assoc, bind_modify, !bind_assoc, bind_modify. done.
  - rewrite !bind_assoc, bind_ask. cbn [trace set_trace set_tqID].
    rewrite Hmask. cbn beta iota. rewrite bind_ret, !bind_assoc, bind_ask.
    rewrite !bind_assoc, bind_modify, !bind_assoc, bind_modify. done.
Qed.

(** A queue that passes the tests of lines 147-184 is queried. *)
Lemma processQueue_reaches_matcher (fuel : nat) (demand : Demand)
    (siteMaskList : list string) (queue : string) (q : Queue)
    (processorTags : list string) (queueCPUTime : Z) (platform : list string)
    (σ1 : State) :
  queueReachesMatcher env cfg queueDict demand siteMaskList queue q
    processorTags queueCPUTime platform σ1 →
  processQueue env cfg queueDict fuel demand siteMaskList queue σ1
  = matchAndSubmit env cfg fuel queue q
      (bool_decide (Site q ∈ siteMaskList)) processorTags queueCPUTime
      platform (set_trace (CallPlatforms [Platform q] :: trace σ1) σ1).
Proof.
  intros (queueTags & cpu & cpuTime & Hfactor & Hfailed & Hq & Htags & ->
          & Hsite & Hmask & Hcpu & Hint & -> & Hplat).
  unfold processQueue. rewrite bool_decide_eq_false_2 by done.
  rewrite bind_get, Hfailed. unfold processEligibleQueue.
  rewrite Hq. unfold item at 1. rewrite bind_ret.
  rewrite Htags. unfold item. rewrite bind_ret.
  replace (negb (anySite demand) && bool_decide (Site q ∉ jobSites demand))
    with false.
  2:{ symmetry. apply andb_false_iff. destruct Hsite as [->|Hin]; [by left|].
      right. by apply bool_decide_eq_false_2; intros ?. }
  replace (negb (bool_decide (Site q ∈ siteMaskList))
           && bool_decide (Site q ∉ testSites demand)) with false.
  2:{ symmetry. apply andb_false_iff. destruct Hmask as [Hin|Hin].
      - left. by rewrite bool_decide_eq_true_2.
      - right. by apply bool_decide_eq_false_2; intros ?. }
  rewrite Hcpu, Hint. rewrite bind_ask, Hplat. done.
Qed.

(** The query for the queue fails: the body of the loop over the queues
    returns the error. *)
Lemma processQueue_probe_failure (fuel : nat) (demand : Demand)
    (siteMaskList : list string) (queue : string) (q : Queue)
    (processorTags : list string) (queueCPUTime : Z) (platform : list string)
    (σ1 : State) (msg : string) :
  queueReachesMatcher env cfg queueDict demand siteMaskList queue q
    processorTags queueCPUTime platform σ1 →
  env_matcher env
    (queueQuery cfg siteMaskList q platform processorTags
       :: CallPlatforms [Platform q] :: trace σ1) = S_ERROR msg →
  processQueue env cfg queueDict fuel demand siteMaskList queue σ1
  = (Return (S_ERROR msg),
     set_trace (queueQuery cfg siteMaskList q platform processorTags
                  :: CallPlatforms [Platform q] :: trace σ1) σ1).
Proof.
  intros Hqueue Hmatch.
  rewrite (processQueue_reaches_matcher _ _ _ _ _ _ _ _ _ Hqueue).
  by rewrite (matchAndSubmit_failure env cfg _ _ _ _ _ _ _ _ msg).
Qed.

(** The query for the queue finds task queues: the loop over their tags
    starts. *)
Lemma processQueue_reaches_tags (fuel : nat) (demand : Demand)
    (siteMaskList : list string) (queue : string) (q : Queue)
    (processorTags : list string) (queueCPUTime : Z) (platform : list string)
    (σ1 : State) (taskQueueDict : gmap Z TaskQueue) :
  queueReachesMatcher env cfg queueDict demand siteMaskList queue q
    processorTags queueCPUTime platform σ1 →
  env_matcher env
    (queueQuery cfg siteMaskList q platform processorTags
       :: CallPlatforms [Platform q] :: trace σ1) = S_OK taskQueueDict →
  taskQueueDict ≠ ∅ →
  processQueue env cfg queueDict fuel demand siteMaskList queue σ1
  = forEach (map_to_list (partitionByTag processorTags taskQueueDict).1).*1
      (processTag env cfg fuel queue q queueCPUTime taskQueueDict
         (partitionByTag processorTags taskQueueDict).1
         (partitionByTag processorTags taskQueueDict).2)
      (beforeTags cfg siteMaskList q platform processorTags σ1).
Proof.
  intros Hqueue Hmatch Hne.
  rewrite (processQueue_reaches_matcher _ _ _ _ _ _ _ _ _ Hqueue).
  unfold matchAndSubmit. rewrite bind_ask. cbn [trace set_trace].
  unfold queueQuery in Hmatch. rewrite Hmatch.
  rewrite bool_decide_eq_false_2 by done.
  rewrite bind_modify, bind_modify. done.
Qed.

(** A tag with jobs beyond its waiting pilots, a proxy and free slots:
    the loop of the tag starts with its budget. *)
Lemma processTag_reaches_loop (fuel : nat) (queue : string) (q : Queue)
    (queueCPUTime : Z) (taskQueueDict : gmap Z TaskQueue)
    (tqIDListByProcessors : gmap string (list Z))
    (totalTQJobsByProcessors : gmap string Z) (tag : string)
    (tagTqIDList : list Z) (σ3 σentry : State) :
  tagReachesLoop env cfg queue queueCPUTime tqIDListByProcessors
    totalTQJobsByProcessors tag tagTqIDList σ3 σentry →
  processTag env cfg fuel queue q queueCPUTime taskQueueDict
    tqIDListByProcessors totalTQJobsByProcessors tag σ3
  = submitLoop env fuel queue q taskQueueDict tagTqIDList (processorsOf tag)
      σentry.
Proof.
  intros (tagTQJobs & tagWaitingPilots & σw & p & totalSlots & slots
          & Hjobs & Hids & Hwait & Hlt & Hproxy & Hslots & Hne & ->).
  unfold processTag. rewrite Hjobs, Hids. unfold item.
  rewrite !bind_ret. rewrite (bind_next _ _ _ _ _ Hwait).
  rewrite (proj2 (Z.leb_gt _ _) Hlt).
  unfold proxyRequest in *. rewrite bind_ask, Hproxy. cbn beta iota.
  rewrite bind_modify, bind_tell.
  unfold bind at 1, getQueueSlots. cbn [trace set_trace set_proxy queueSlots].
  rewrite Hslots. unfold submitToTag, loopEntry.
  rewrite (proj2 (Z.eqb_neq _ _) Hne). rewrite bind_modify. done.
Qed.

Section Positions.

Variable fuel : nat.
Variable σ : State.
Variable demand : Demand.
Variable siteMaskList : list string.
Variable queue : string.
Variable queuesAfter : list string.
Variable q : Queue.
Variable processorTags : list string.
Variable queueCPUTime : Z.

(** From the start of the cycle to the body of the loop for [queue]. *)
Lemma cycle_reaches_queue (platform : list string) (σ1 : State) :
  cycleReachesQueue env cfg queueDict fuel σ demand siteMaskList queue
    queuesAfter q processorTags queueCPUTime platform σ1 →
  submitJobs env cfg queueDict fuel σ
  = (processQueue env cfg queueDict fuel demand siteMaskList queue ;;;
     forEach queuesAfter (processQueue env cfg queueDict fuel demand siteMaskList) ;;;
     return_ (S_OK tt)) σ1.
Proof.
  intros (value & queues & σ0 & queuesBefore & Hstart & -> & -> & Hbefore & _).
  rewrite (submitJobs_reaches_queues _ _ _ _ _ _ Hstart).
  rewrite (bind_run _ _ _ _ _ (forEach_from _ _ _ _ _ _ Hbefore)).
  by rewrite bind_assoc.
Qed.

(** From the start of the cycle to the body of the loop for [tag]. *)
Lemma cycle_reaches_tag (taskQueueDict : gmap Z TaskQueue) (tag : string)
    (tagsAfter : list string) (σ3 : State) :
  cycleReachesTag env cfg queueDict fuel σ demand siteMaskList queue
    queuesAfter q processorTags queueCPUTime taskQueueDict tag tagsAfter σ3 →
  submitJobs env cfg queueDict fuel σ
  = (processTag env cfg fuel queue q queueCPUTime taskQueueDict
       (partitionByTag processorTags taskQueueDict).1
       (partitionByTag processorTags taskQueueDict).2 tag ;;;
     restOfCycle env cfg queueDict fuel demand siteMaskList queue q
       queueCPUTime taskQueueDict processorTags tagsAfter queuesAfter) σ3.
Proof.
  intros (platform & σ1 & tagsBefore & Hqueue & Hmatch & Hne & Htags & Hbefore).
  rewrite (cycle_reaches_queue _ _ Hqueue).
  destruct Hqueue as (value & queues & σ0 & queuesBefore & _ & _ & _ & _ & Hq).
  rewrite (bind_run _ _ _ _ _
             (processQueue_reaches_tags fuel _ _ _ _ _ _ _ _ _ Hq Hmatch Hne)).
  rewrite Htags.
  rewrite (bind_run _ _ _ _ _ (forEach_from _ _ _ _ _ _ Hbefore)).
  by rewrite bind_assoc.
Qed.

(** The query for [queue] fails: the cycle returns the error, nothing
    after the query is run. *)
Lemma cycle_probe_failure (platform : list string) (σ1 : State) (msg : string) :
  cycleReachesQueue env cfg queueDict fuel σ demand siteMaskList queue
    queuesAfter q processorTags queueCPUTime platform σ1 →
  env_matcher env
    (queueQuery cfg siteMaskList q platform processorTags
       :: CallPlatforms [Platform q] :: trace σ1) = S_ERROR msg →
  submitJobs env cfg queueDict fuel σ
  = (Return (S_ERROR msg),
     set_trace (queueQuery cfg siteMaskList q platform processorTags
                  :: CallPlatforms [Platform q] :: trace σ1) σ1).
Proof.
  intros Hqueue Hmatch. rewrite (cycle_reaches_queue _ _ Hqueue).
  destruct Hqueue as (value & queues & σ0 & queuesBefore & _ & _ & _ & _ & Hq).
  apply bind_return.
  by apply (processQueue_probe_failure fuel demand siteMaskList queue q
              processorTags queueCPUTime platform σ1 msg).
Qed.

(** No proxy for the pilots of [tag]: the cycle returns the error,
    nothing after the request is run. *)
Lemma cycle_proxy_failure (taskQueueDict : gmap Z TaskQueue) (tag : string)
    (tagsAfter : list string) (σ3 : State) (tagTQJobs : Z)
    (tagTqIDList : list Z) (tagWaitingPilots : Z) (σw : State) (msg : string) :
  cycleReachesTag env cfg queueDict fuel σ demand siteMaskList queue
    queuesAfter q processorTags queueCPUTime taskQueueDict tag tagsAfter σ3 →
  (partitionByTag processorTags taskQueueDict).2 !! tag = Some tagTQJobs →
  (partitionByTag processorTags taskQueueDict).1 !! tag = Some tagTqIDList →
  countWaitingPilots env cfg tagTqIDList σ3 = (Next tagWaitingPilots, σw) →
  tagWaitingPilots < tagTQJobs →
  env_proxy env (proxyRequest cfg queueCPUTime :: trace σw) = S_ERROR msg →
  submitJobs env cfg queueDict fuel σ
  = (Return (S_ERROR msg),
     set_trace (proxyRequest cfg queueCPUTime :: trace σw) σw).
Proof.
  intros Htag Hjobs Hids Hwait Hlt Hproxy. rewrite (cycle_reaches_tag _ _ _ _ Htag).
  apply bind_return.
  by apply (processTag_no_proxy env cfg fuel queue q queueCPUTime taskQueueDict
              _ _ tag tagTQJobs tagTqIDList tagWaitingPilots σ3 σw msg).
Qed.

End Positions.

(** The computing element refuses a submission in some turn of the loop
    of [tag]: the body of the loop over the tags ends there, and the cycle
    goes on with the tags and the queues that follow. *)
Lemma cycle_refused_submission (k fuel : nat) (σ : State) (demand : Demand)
    (siteMaskList : list string) (queue : string) (queuesAfter : list string)
    (q : Queue) (processorTags : list string) (queueCPUTime : Z)
    (taskQueueDict : gmap Z TaskQueue) (tag : string)
    (tagsAfter : list string) (tagTqIDList : list Z) (σ3 σentry σr : State)
    (executable : string) (chunk : Z) (msg : string) :
  let call1 := CallGetExecutable queue (pilotsToSubmit σr)
                 (default false (BundleProxy q))
                 (default "" (pHttpProxy (Parameters q)))
                 (default "" (pJobExecDir (Parameters q))) in
  let call2 := CallSubmitJob queue executable chunk (processorsOf tag) in
  cycleReachesTag env cfg queueDict (k + S fuel) σ demand siteMaskList queue
    queuesAfter q processorTags queueCPUTime taskQueueDict tag tagsAfter σ3 →
  tagReachesLoop env cfg queue queueCPUTime
    (partitionByTag processorTags taskQueueDict).1
    (partitionByTag processorTags taskQueueDict).2 tag tagTqIDList σ3 σentry →
  submitTurns env k queue q taskQueueDict tagTqIDList (processorsOf tag) σentry
  = (Next tt, σr) →
  0 < pilotsToSubmit σr →
  env_getExecutable env (call1 :: trace σr) = S_OK (executable, chunk) →
  env_submitJob env (call2 :: call1 :: trace σr) = S_ERROR msg →
  processTag env cfg (k + S fuel) queue q queueCPUTime taskQueueDict
    (partitionByTag processorTags taskQueueDict).1
    (partitionByTag processorTags taskQueueDict).2 tag σ3
  = (Next tt, afterFailedSubmission queue q executable chunk (processorsOf tag) σr)
  ∧ submitJobs env cfg queueDict (k + S fuel) σ
    = restOfCycle env cfg queueDict (k + S fuel) demand siteMaskList queue q
        queueCPUTime taskQueueDict processorTags tagsAfter queuesAfter
        (afterFailedSubmission queue q executable chunk (processorsOf tag) σr).
Proof.
  intros call1 call2 Htag Hloop Hturns Hpos Hexe Hsub.
  assert (Hbody :
    processTag env cfg (k + S fuel) queue q queueCPUTime taskQueueDict
      (partitionByTag processorTags taskQueueDict).1
      (partitionByTag processorTags taskQueueDict).2 tag σ3
    = (Next tt, afterFailedSubmission queue q executable chunk
                  (processorsOf tag) σr)).
  { rewrite (processTag_reaches_loop _ _ _ _ _ _ _ _ _ _ _ Hloop).
    rewrite submitLoop_turns, (bind_next _ _ _ _ _ Hturns).
    by apply (submitLoop_failure env fuel queue q taskQueueDict tagTqIDList
                (processorsOf tag) σr executable chunk msg). }
  split; [exact Hbody|].
  rewrite (cycle_reaches_tag _ _ _ _ _ _ _ _ _ _ _ _ _ Htag).
  by rewrite (bind_next _ _ _ _ _ Hbody).
Qed.

End Places.

(** C7. When the computing element refuses a submission for a tag of a
    queue, the pilots still wanted for the tag are set to zero and the
    loop of the tag ends, the failure counter of the queue goes up by
    exactly one, and no pilot of that call is recorded (the only calls are
    the request for the executable, the submission and the removal of the
    executable; the counts of submitted pilots and the slots are as
    before). Wherever in a cycle this happens (any queue of the loop of
    line 145, any tag of the loop of line 241, any turn of the loop of
    line 300), the body of the loop over the tags ends normally and
    [submitJobs] goes on from that memory with the tags of the queue that
    follow, then the queues that follow, then [return S_OK()]. *)
Theorem failed_submission_ends_tag (env : Env) (fuel : nat) (queue : string)
    (q : Queue) (taskQueueDict : gmap Z TaskQueue) (tagTqIDList : list Z)
    (processors : Z) (σ : State) (executable : string) (chunk : Z)
    (msg : string) :
  let call1 := CallGetExecutable queue (pilotsToSubmit σ)
                 (default false (BundleProxy q))
                 (default "" (pHttpProxy (Parameters q)))
                 (default "" (pJobExecDir (Parameters q))) in
  let call2 := CallSubmitJob queue executable chunk processors in
  0 < pilotsToSubmit σ →
  env_getExecutable env (call1 :: trace σ) = S_OK (executable, chunk) →
  env_submitJob env (call2 :: call1 :: trace σ) = S_ERROR msg →
  ∃ σ',
    submitLoop env (S fuel) queue q taskQueueDict tagTqIDList processors σ
    = (Next tt, σ')
    ∧ pilotsToSubmit σ' = 0
    ∧ failedCounter σ' queue = failedCounter σ queue + 1
    ∧ (∀ other, other ≠ queue → failedCounter σ' other = failedCounter σ other)
    ∧ trace σ' = failedSubmissionCalls queue q (pilotsToSubmit σ) executable
                   chunk processors ++ trace σ
    ∧ totalSubmittedPilots σ' = totalSubmittedPilots σ
    ∧ queueSubmittedPilots σ' = queueSubmittedPilots σ
    ∧ queueSlots σ' = queueSlots σ
    ∧ (∀ cfg queueDict k σstart demand siteMaskList queuesAfter processorTags
         queueCPUTime tag tagsAfter σ3 σentry,
         processors = processorsOf tag →
         cycleReachesTag env cfg queueDict (k + S fuel) σstart demand
           siteMaskList queue queuesAfter q processorTags queueCPUTime
           taskQueueDict tag tagsAfter σ3 →
         tagReachesLoop env cfg queue queueCPUTime
           (partitionByTag processorTags taskQueueDict).1
           (partitionByTag processorTags taskQueueDict).2 tag tagTqIDList
           σ3 σentry →
         submitTurns env k queue q taskQueueDict tagTqIDList processors σentry
         = (Next tt, σ) →
         processTag env cfg (k + S fuel) queue q queueCPUTime taskQueueDict
           (partitionByTag processorTags taskQueueDict).1
           (partitionByTag processorTags taskQueueDict).2 tag σ3
         = (Next tt, σ')
         ∧ submitJobs env cfg queueDict (k + S fuel) σstart
           = restOfCycle env cfg queueDict (k + S fuel) demand siteMaskList
               queue q queueCPUTime taskQueueDict processorTags tagsAfter
               queuesAfter σ').
Proof.
  intros call1 call2 Hpos Hexe Hsub.
  pose proof (submitLoop_failure env fuel queue q taskQueueDict tagTqIDList
                processors σ executable chunk msg Hpos Hexe Hsub) as Hrun.
  eexists. split; [exact Hrun|].
  split; [done|]. split; [apply afterFailedSubmission_counter|].
  split; [intros other Hne; by apply afterFailedSubmission_counter_ne|].
  do 4 (split; [done|]).
  intros cfg queueDict k σstart demand siteMaskList queuesAfter processorTags
    queueCPUTime tag tagsAfter σ3 σentry -> Htag Hloop Hturns.
  by apply (cycle_refused_submission env cfg queueDict k fuel σstart demand
              siteMaskList queue queuesAfter q processorTags queueCPUTime
              taskQueueDict tag tagsAfter tagTqIDList σ3 σentry σ executable
              chunk msg).
Qed.

(** C2, as the code has it. Take a cycle that has come to some queue of
    the loop of line 145. If the query for the queue fails, [submitJobs]
    returns that error there: the last call of the cycle is the failed
    query, and the memory of the agent, failure counters included, is what
    it was before the query. If the query succeeds and the cycle has come
    to some tag of the queue (loop of line 241) for which the request for
    the pilot proxy fails, [submitJobs] returns that error there: the last
    call is the failed request and no failure counter has changed since
    the tag was entered. If instead a submission for the tag is refused in
    some turn of the loop of line 300, the failure counter of the queue
    goes up by one, the pilots still wanted are set to zero, and
    [submitJobs] goes on with the tags of the same queue that follow, then
    with the queues that follow. *)
Theorem queue_failures (env : Env) (cfg : Config)
    (queueDict : gmap string Queue) :
  (∀ fuel σ demand siteMaskList queue queuesAfter q processorTags
     queueCPUTime platform σ1 msg,
     cycleReachesQueue env cfg queueDict fuel σ demand siteMaskList queue
       queuesAfter q processorTags queueCPUTime platform σ1 →
     env_matcher env
       (queueQuery cfg siteMaskList q platform processorTags
          :: CallPlatforms [Platform q] :: trace σ1) = S_ERROR msg →
     submitJobs env cfg queueDict fuel σ
     = (Return (S_ERROR msg),
        set_trace (queueQuery cfg siteMaskList q platform processorTags
                     :: CallPlatforms [Platform q] :: trace σ1) σ1))
  ∧ (∀ fuel σ demand siteMaskList queue queuesAfter q processorTags
       queueCPUTime taskQueueDict tag tagsAfter σ3 tagTQJobs tagTqIDList
       tagWaitingPilots σw msg,
       cycleReachesTag env cfg queueDict fuel σ demand siteMaskList queue
         queuesAfter q processorTags queueCPUTime taskQueueDict tag
         tagsAfter σ3 →
       (partitionByTag processorTags taskQueueDict).2 !! tag = Some tagTQJobs →
       (partitionByTag processorTags taskQueueDict).1 !! tag = Some tagTqIDList →
       countWaitingPilots env cfg tagTqIDList σ3 = (Next tagWaitingPilots, σw) →
       tagWaitingPilots < tagTQJobs →
       env_proxy env (proxyRequest cfg queueCPUTime :: trace σw) = S_ERROR msg →
       submitJobs env cfg queueDict fuel σ
       = (Return (S_ERROR msg),
          set_trace (proxyRequest cfg queueCPUTime :: trace σw) σw)
       ∧ failedQueues σw = failedQueues σ3)
  ∧ (∀ k fuel σ demand siteMaskList queue queuesAfter q processorTags
       queueCPUTime taskQueueDict tag tagsAfter tagTqIDList σ3 σentry σr
       executable chunk msg,
       cycleReachesTag env cfg queueDict (k + S fuel) σ demand siteMaskList
         queue queuesAfter q processorTags queueCPUTime taskQueueDict tag
         tagsAfter σ3 →
       tagReachesLoop env cfg queue queueCPUTime
         (partitionByTag processorTags taskQueueDict).1
         (partitionByTag processorTags taskQueueDict).2 tag tagTqIDList
         σ3 σentry →
       submitTurns env k queue q taskQueueDict tagTqIDList (processorsOf tag)
         σentry = (Next tt, σr) →
       0 < pilotsToSubmit σr →
       env_getExecutable env
         (CallGetExecutable queue (pilotsToSubmit σr)
            (default false (BundleProxy q))
            (default "" (pHttpProxy (Parameters q)))
            (default "" (pJobExecDir (Parameters q))) :: trace σr)
         = S_OK (executable, chunk) →
       env_submitJob env
         (CallSubmitJob queue executable chunk (processorsOf tag)
            :: CallGetExecutable queue (pilotsToSubmit σr)
                 (default false (BundleProxy q))
                 (default "" (pHttpProxy (Parameters q)))
                 (default "" (pJobExecDir (Parameters q))) :: trace σr)
         = S_ERROR msg →
       ∃ σ',
         submitJobs env cfg queueDict (k + S fuel) σ
         = restOfCycle env cfg queueDict (k + S fuel) demand siteMaskList
             queue q queueCPUTime taskQueueDict processorTags tagsAfter
             queuesAfter σ'
         ∧ failedCounter σ' queue = failedCounter σr queue + 1
         ∧ (∀ other, other ≠ queue →
                     failedCounter σ' other = failedCounter σr other)
         ∧ pilotsToSubmit σ' = 0).
Proof.
  split; [|split].
  - intros fuel σ demand siteMaskList queue queuesAfter q processorTags
      queueCPUTime platform σ1 msg Hqueue Hmatch.
    by apply (cycle_probe_failure env cfg queueDict fuel σ demand siteMaskList
                queue queuesAfter q processorTags queueCPUTime platform σ1 msg).
  - intros fuel σ demand siteMaskList queue queuesAfter q processorTags
      queueCPUTime taskQueueDict tag tagsAfter σ3 tagTQJobs tagTqIDList
      tagWaitingPilots σw msg Htag Hjobs Hids Hwait Hlt Hproxy.
    split.
    + by apply (cycle_proxy_failure env cfg queueDict fuel σ demand
                  siteMaskList queue queuesAfter q processorTags queueCPUTime
                  taskQueueDict tag tagsAfter σ3 tagTQJobs tagTqIDList
                  tagWaitingPilots σw msg).
    + by apply countWaitingPilots_failedQueues in Hwait as (-> & _).
  - intros k fuel σ demand siteMaskList queue queuesAfter q processorTags
      queueCPUTime taskQueueDict tag tagsAfter tagTqIDList σ3 σentry σr
      executable chunk msg Htag Hloop Hturns Hpos Hexe Hsub.
    exists (afterFailedSubmission queue q executable chunk (processorsOf tag) σr).
    split; [|split; [|split]].
    + by apply (cycle_refused_submission env cfg queueDict k fuel σ demand
                  siteMaskList queue queuesAfter q processorTags queueCPUTime
                  taskQueueDict tag tagsAfter tagTqIDList σ3 σentry σr
                  executable chunk msg).
    + apply afterFailedSubmission_counter.
    + intros other Hne. by apply afterFailedSubmission_counter_ne.
    + done.
Qed.

(** ** Reasoning with assertions *)

Section Hoare.

Context {A B : Type}.
Implicit Types (P : State → Prop) (R : State → Prop).

Lemma hoare_ret P (Q : A → State → Prop) R (a : A) :
  (∀ σ, P σ → Q a σ) → hoare P (ret a) Q R.
Proof. intros H σ HP. by apply H. Qed.

Lemma hoare_bind P (Q1 : A → State → Prop) (Q : B → State → Prop) R
    (m : M A) (k : A → M B) :
  hoare P m Q1 R → (∀ a, hoare (Q1 a) (k a) Q R) → hoare P (bind m k) Q R.
Proof.
  intros Hm Hk σ HP. specialize (Hm σ HP). unfold bind.
  destruct (m σ) as [[a|r|e|] σ']; try done. by apply Hk.
Qed.

Lemma hoare_get P (Q : A → State → Prop) R (f : State → A) :
  (∀ σ, P σ → Q (f σ) σ) → hoare P (get f) Q R.
Proof. intros H σ HP. by apply H. Qed.

Lemma hoare_ask env P (Q : A → State → Prop) R (ev : Event)
    (answer : Env → list Event → A) :
  (∀ σ, P σ → Q (answer env (ev :: trace σ)) (set_trace (ev :: trace σ) σ)) →
  hoare P (ask env ev answer) Q R.
Proof. intros H σ HP. by apply H. Qed.

Lemma hoare_item P (Q : A → State → Prop) R (o : option A) :
  (∀ a σ, o = Some a → P σ → Q a σ) → (∀ σ, o = None → P σ → R σ) →
  hoare P (item o) Q R.
Proof.
  intros HS HN σ HP. unfold item.
  destruct o as [a|] eqn:E; [by apply (HS a) | by apply HN].
Qed.

Lemma hoare_return P (Q : A → State → Prop) R (r : Result unit) :
  (∀ σ, P σ → R σ) → hoare P (return_ r) Q R.
Proof. intros H σ HP. by apply H. Qed.

Lemma hoare_outOfFuel P (Q : A → State → Prop) R :
  (∀ σ, P σ → R σ) → hoare P outOfFuel Q R.
Proof. intros H σ HP. by apply H. Qed.

Lemma hoare_pre P P' (Q : A → State → Prop) R (m : M A) :
  (∀ σ, P' σ → P σ) → hoare P m Q R → hoare P' m Q R.
Proof. intros HPP Hm σ HP. apply Hm. by apply HPP. Qed.

End Hoare.

Lemma hoare_modify P (Q : unit → State → Prop) R (f : State → State) :
  (∀ σ, P σ → Q tt (f σ)) → hoare P (modify f) Q R.
Proof. intros H σ HP. by apply H. Qed.

Lemma hoare_tell P (Q : unit → State → Prop) R (ev : Event) :
  (∀ σ, P σ → Q tt (set_trace (ev :: trace σ) σ)) → hoare P (tell ev) Q R.
Proof. intros H σ HP. by apply H. Qed.

(** A loop keeps what each of its turns keeps. *)
Lemma hoare_forEach {A} (I : State → Prop) (l : list A) (body : A → M unit) :
  (∀ x, hoare I (body x) (λ _, I) I) →
  hoare I (forEach l body) (λ _, I) I.
Proof.
  intros Hbody. induction l as [|x l IH]; simpl.
  - by apply hoare_ret.
  - eapply hoare_bind; [apply Hbody | intros ?; apply IH].
Qed.

(** ** The budget of a tag *)

Lemma tagBudget_specBound (maxPilots submitted totalSlots tagTQJobs
    tagWaitingPilots : Z) :
  Z.max 0 (tagBudget maxPilots submitted totalSlots tagTQJobs tagWaitingPilots)
  = specBound maxPilots submitted totalSlots tagTQJobs tagWaitingPilots.
Proof. unfold tagBudget, specBound. lia. Qed.

(** Reading a field of an updated memory. *)
Ltac fields :=
  unfold withinBudget in *;
  cbn [failedQueues queueSlots proxy totalSubmittedPilots matchedQueues tqID
       queueSubmittedPilots pilotsToSubmit trace
       set_failedQueues set_queueSlots set_proxy set_totalSubmittedPilots
       set_matchedQueues set_tqID set_queueSubmittedPilots set_pilotsToSubmit
       set_trace] in *.

Section Budget.

Variable env : Env.
Variable cfg : Config.
Variables (s0 t0 budget : Z) (identities : Prop).

Local Abbreviation I := (withinBudget s0 t0 budget identities).

(** Giving the pilots their task queues touches no count. *)
Lemma assignPilots_budget sumPriority tqPriorityList pilotList :
  ∀ tqDict,
    hoare I (assignPilots env sumPriority tqPriorityList pilotList tqDict)
          (λ _, I) I.
Proof.
  induction pilotList as [|pilotID rest IH]; intros tqDict; simpl.
  - by apply hoare_ret.
  - eapply (hoare_bind _ (λ _, I)); [apply hoare_ask; intros σ H; exact H|].
    intros r. eapply (hoare_bind _ (λ _, I)).
    + destruct (selectTQ _ _).
      * apply hoare_modify. intros σ H. exact H.
      * apply hoare_ret. intros σ H. exact H.
    + intros ?. eapply (hoare_bind _ (λ _, I)); [apply hoare_get; intros σ H; exact H|].
      intros tq. apply IH.
Qed.

Lemma recordGroup_budget q stampDict group :
  hoare I (recordGroup env q stampDict group) (λ _, I) I.
Proof.
  unfold recordGroup.
  eapply (hoare_bind _ (λ _, I)); [apply hoare_modify; intros σ H; exact H|]. intros ?.
  eapply (hoare_bind _ (λ _, I)); [apply hoare_ask; intros σ H; exact H|]. intros [?|msg].
  - apply hoare_forEach. intros pilot.
    eapply (hoare_bind _ (λ _, I)); [apply hoare_ask; intros σ H; exact H|].
    intros [?|?]; by apply hoare_ret.
  - by apply hoare_ret.
Qed.

(** One turn of the loop keeps the pilots of the tag within the budget. *)
Lemma submitOnce_budget queue q taskQueueDict tagTqIDList processors :
  executableWithinRequest env →
  (identities → pilotsWithinChunk env) →
  hoare (λ σ, I σ ∧ 0 < pilotsToSubmit σ)
        (submitOnce env queue q taskQueueDict tagTqIDList processors)
        (λ _, I) I.
Proof.
  intros Hexe Hids. unfold submitOnce.
  eapply (hoare_bind _ (λ n σ, I σ ∧ 0 < pilotsToSubmit σ ∧ n = pilotsToSubmit σ)).
  { apply hoare_get. by intros σ [H1 H2]. }
  intros n.
  eapply (hoare_bind _ (λ result σ,
            I σ ∧ 0 < pilotsToSubmit σ ∧ n = pilotsToSubmit σ
            ∧ ∀ executable chunk, result = S_OK (executable, chunk) → chunk ≤ n)).
  { apply hoare_ask. intros σ (H1 & H2 & H3).
    split; [exact H1|]. split; [exact H2|]. split; [exact H3|].
    intros executable chunk Hr. by eapply Hexe. }
  intros [[executable chunk]|msg]; [|apply hoare_return; by intros σ [H _]].
  eapply (hoare_bind _ (λ result σ,
            I σ ∧ 0 < pilotsToSubmit σ ∧ chunk ≤ pilotsToSubmit σ
            ∧ (identities → ∀ submission, result = S_OK submission →
                 Z.of_nat (length (pilotRefs submission)) ≤ chunk))).
  { apply hoare_ask. intros σ (H1 & H2 & H3 & H4).
    split; [exact H1|]. split; [exact H2|]. split.
    - simpl. rewrite <- H3. by eapply H4.
    - intros Hi submission Hr. by eapply (Hids Hi). }
  intros result.
  eapply (hoare_bind _ (λ _ σ,
            I σ ∧ 0 < pilotsToSubmit σ ∧ chunk ≤ pilotsToSubmit σ
            ∧ (identities → ∀ submission, result = S_OK submission →
                 Z.of_nat (length (pilotRefs submission)) ≤ chunk))).
  { destruct (bool_decide _); [apply hoare_tell | apply hoare_ret];
      by intros σ H. }
  intros ?. destruct result as [submission|msg].
  - eapply (hoare_bind _ (λ _ σ,
              (queueSubmittedPilots σ + chunk - s0 + pilotsToSubmit σ
               ≤ Z.max 0 budget ∧ 0 ≤ pilotsToSubmit σ)
              ∧ (identities →
                 totalSubmittedPilots σ - t0 ≤ queueSubmittedPilots σ - s0
                 ∧ Z.of_nat (length (pilotRefs submission)) ≤ chunk))).
    { apply hoare_modify. intros σ ([H1 H1'] & H2 & H3 & H4). fields.
      split; [lia|]. intros Hi. split; [by apply H1' | by apply H4]. }
    intros ?.
    set (J := λ σ : State,
           I σ ∧ (identities →
                  totalSubmittedPilots σ - t0
                  + Z.of_nat (length (pilotRefs submission))
                  ≤ queueSubmittedPilots σ - s0)).
    eapply (hoare_bind _ (λ _, J)).
    { apply hoare_modify. intros σ ([H1 H2] & H3). subst J. fields.
      split; [split|]; [lia | |]; intros Hi; destruct (H3 Hi); lia. }
    intros ?.
    eapply (hoare_bind _ (λ _, J)); [apply hoare_get; intros σ H; exact H|].
    intros slots.
    eapply (hoare_bind _ (λ _, J)).
    { apply hoare_item; [intros a' σ _ H; exact H | by intros σ _ [H _]]. }
    intros slots'.
    eapply (hoare_bind _ (λ _, J)); [apply hoare_modify; intros σ H; exact H|].
    intros ?.
    eapply (hoare_bind _ (λ _, I)).
    { apply hoare_modify. intros σ ([H1 H2] & H3). fields. split; [done|].
      intros Hi. specialize (H3 Hi). lia. }
    intros ?.
    eapply (hoare_bind _ (λ _, I)).
    { apply hoare_item; [intros a' σ _ H; exact H | by intros σ _ H]. }
    intros prio.
    eapply (hoare_bind _ (λ _, I)); [apply hoare_tell; intros σ H; exact H|]. intros ?.
    eapply (hoare_bind _ (λ _, I)); [apply assignPilots_budget|]. intros tqDict.
    apply hoare_forEach. intros group. apply recordGroup_budget.
  - eapply (hoare_bind _ (λ _, I)).
    { apply hoare_modify. intros σ ([H1 H1'] & H2 & _). fields.
      split; [lia|done]. }
    intros ?. eapply (hoare_bind _ (λ _, I)); [apply hoare_modify; intros σ H; exact H|].
    intros ?. by apply hoare_ret.
Qed.

(** So does the whole loop, wherever it stops. *)
Lemma submitLoop_budget fuel queue q taskQueueDict tagTqIDList processors :
  executableWithinRequest env →
  (identities → pilotsWithinChunk env) →
  hoare I (submitLoop env fuel queue q taskQueueDict tagTqIDList processors)
        (λ _, I) I.
Proof.
  intros Hexe Hids. induction fuel as [|fuel IH]; simpl.
  - eapply (hoare_bind _ (λ n σ, I σ ∧ n = pilotsToSubmit σ)).
    { apply hoare_get. by intros σ H. }
    intros n. destruct (0 <? n).
    + apply hoare_outOfFuel. by intros σ [H _].
    + apply hoare_ret. by intros σ [H _].
  - eapply (hoare_bind _ (λ n σ, I σ ∧ n = pilotsToSubmit σ)).
    { apply hoare_get. by intros σ H. }
    intros n. destruct (0 <? n) eqn:Hn.
    + eapply (hoare_bind _ (λ _, I)); [|intros ?; apply IH].
      eapply hoare_pre; [|by apply submitOnce_budget].
      intros σ [H ->]. split; [done|]. by apply Z.ltb_lt.
    + apply hoare_ret. by intros σ [H _].
Qed.

End Budget.

(** C1. Provided the executable is never made for more pilots than asked
    for, the pilots submitted for a tag of a queue (the chunks counted in
    [queueSubmittedPilots] from the moment the tag is begun) never exceed
    the smallest of the free slots, the jobs of the tag minus its waiting
    pilots, and the ceiling of the queue minus what the queue got earlier
    in the cycle, floored at zero; if moreover the computing element never
    returns more pilot identities than the chunk, the same bound holds
    for the identities counted in [totalSubmittedPilots]. The bound holds
    wherever the loop stands: the statement is for every amount of fuel,
    that is after every number of submission calls, and for every way the
    loop can end. *)
Theorem submitted_within_bound (env : Env) (cfg : Config) (fuel : nat)
    (queue : string) (q : Queue) (taskQueueDict : gmap Z TaskQueue)
    (tagTqIDList : list Z)
    (processors totalSlots tagTQJobs tagWaitingPilots : Z) (σ : State) :
  executableWithinRequest env →
  let σ' := (submitToTag env cfg fuel queue q taskQueueDict tagTqIDList
               processors totalSlots tagTQJobs tagWaitingPilots σ).2 in
  let bound := specBound (maxPilotsToSubmit cfg) (queueSubmittedPilots σ)
                 totalSlots tagTQJobs tagWaitingPilots in
  queueSubmittedPilots σ' - queueSubmittedPilots σ ≤ bound
  ∧ (pilotsWithinChunk env →
     totalSubmittedPilots σ' - totalSubmittedPilots σ ≤ bound).
Proof.
  intros Hexe σ' bound.
  set (budget := tagBudget (maxPilotsToSubmit cfg) (queueSubmittedPilots σ)
                   totalSlots tagTQJobs tagWaitingPilots).
  assert (Hb : Z.max 0 budget = bound) by apply tagBudget_specBound.
  assert (Hinv : queueSubmittedPilots σ' - queueSubmittedPilots σ ≤ Z.max 0 budget
                 ∧ (pilotsWithinChunk env →
                    totalSubmittedPilots σ' - totalSubmittedPilots σ
                    ≤ queueSubmittedPilots σ' - queueSubmittedPilots σ)).
  { subst σ'. unfold submitToTag. destruct (totalSlots =? 0).
    - simpl. split; [lia|]. intros ?. lia.
    - pose proof (submitLoop_budget env (queueSubmittedPilots σ)
                    (totalSubmittedPilots σ) budget (pilotsWithinChunk env)
                    fuel queue q taskQueueDict tagTqIDList processors Hexe
                    (λ H, H)) as Hloop.
      unfold bind, modify.
      specialize (Hloop (set_pilotsToSubmit budget σ)).
      fold budget.
      assert (Hstart : withinBudget (queueSubmittedPilots σ)
                         (totalSubmittedPilots σ) budget (pilotsWithinChunk env)
                         (set_pilotsToSubmit budget σ)).
      { fields. split; [lia | intros ?; lia]. }
      specialize (Hloop Hstart).
      destruct (submitLoop _ _ _ _ _ _ _ _) as [[[]|r|e|] σ1];
        cbn [snd]; cbn beta iota in Hloop; fields; (split; [lia | tauto]). }
  destruct Hinv as [H1 H2]. rewrite Hb in H1. split; [lia|].
  intros Hids. specialize (H2 Hids). lia.
Qed.

(** ** The choice of a task queue *)








(** In binary64 a positive sum of priorities and a random number below one
    do not place the draw below the sum: with the smallest positive number
    as the only priority and [random() = 0.75] the product is rounded to
    the sum itself, and no task queue is selected. *)
Example smallest_weight_selects_nothing :
  priorityList {[ 1 := twoProcessorTQ 1 0x1p-1074%float ]} 0%float [1]
  = Some ([(1, 0x1p-1074%float)], 0x1p-1074%float)
  ∧ (0 <? 0x1p-1074)%float = true
  ∧ (0.75 <? 1)%float = true
  ∧ (0.75 * 0x1p-1074)%float = 0x1p-1074%float
  ∧ selectTQ (0.75 * 0x1p-1074)%float [(1, 0x1p-1074%float)] = None.
Proof. vm_compute. repeat split; reflexivity. Qed.

(** ** Runs on sample data *)

(** C4. A queue with one processor and no whole-node flag: the entry is
    deleted while [self.queueDict] is being iterated, and the next step of
    the iteration raises [RuntimeError]; [getQueues] does not return. *)
Theorem single_processor_queue_raises :
  deriveTags {| ceMaxProcessors := None; ceWholeNode := None |}
             singleProcessorParameters
  = Some (setTags singleProcessorParameters ["1Processors"])
  ∧ getQueues (S_OK tt) sampleResources
              {[ "queueA" := sampleQueue singleProcessorParameters ]}
    = (Raise RuntimeError, ∅).
Proof. split; vm_compute; reflexivity. Qed.

(** Whenever [getQueues] ends its loop normally, the dictionary has the
    size it had at the start: no run that deletes a queue gets there. *)
Lemma getQueues_loop_size resourceDict used keys : ∀ queueDict queueDict',
  getQueues_loop resourceDict used keys queueDict = (Next tt, queueDict') →
  size queueDict' = used.
Proof.
  induction keys as [|k keys IH]; intros queueDict queueDict' H; simpl in H.
  - case_bool_decide; [|done]. by injection H as <-.
  - case_bool_decide; [|done].
    destruct (getQueues_body resourceDict k queueDict) as [[[]|r|e|] qd] eqn:E;
      try done.
    by eapply IH.
Qed.

Lemma getQueues_body_dom resourceDict queueName queueDict c queueDict' :
  getQueues_body resourceDict queueName queueDict = (c, queueDict') →
  dom queueDict' ⊆ dom queueDict.
Proof.
  unfold getQueues_body.
  destruct (queueDict !! queueName) as [q|] eqn:Eq; [|by intros [= _ <-]].
  destruct (resourceDict !! _) as [ceDef|]; [|by intros [= _ <-]].
  destruct (deriveTags _ _) as [p|]; [|by intros [= _ <-]].
  destruct (keepQueue p); intros [= _ <-].
  - intros x [v Hv]%elem_of_dom. apply elem_of_dom.
    destruct (decide (x = queueName)) as [->|Hne]; [by eexists|].
    rewrite lookup_insert_ne in Hv by done. by eexists.
  - intros x [v Hv]%elem_of_dom. apply elem_of_dom.
    destruct (decide (x = queueName)) as [->|Hne].
    + by rewrite lookup_delete_eq in Hv.
    + rewrite lookup_delete_ne in Hv by done. by eexists.
Qed.

Lemma getQueues_loop_dom resourceDict used keys : ∀ queueDict c queueDict',
  getQueues_loop resourceDict used keys queueDict = (c, queueDict') →
  dom queueDict' ⊆ dom queueDict.
Proof.
  induction keys as [|k keys IH]; intros queueDict c queueDict' H; simpl in H.
  - case_bool_decide; by simplify_eq.
  - case_bool_decide; [|by simplify_eq].
    destruct (getQueues_body resourceDict k queueDict) as [[[]|r|e|] qd] eqn:E;
      try (simplify_eq; by eapply getQueues_body_dom).
    etrans; [by eapply IH | by eapply getQueues_body_dom].
Qed.

(** The loop of [getQueues] has no [return] inside. *)
Lemma getQueues_loop_ctl resourceDict used keys : ∀ queueDict c queueDict',
  getQueues_loop resourceDict used keys queueDict = (c, queueDict') →
  c = Next tt ∨ ∃ e, c = Raise e.
Proof.
  induction keys as [|k keys IH]; intros queueDict c queueDict' H; simpl in H.
  - case_bool_decide; simplify_eq; eauto.
  - case_bool_decide; [|simplify_eq; eauto].
    destruct (getQueues_body resourceDict k queueDict) as [c' qd] eqn:E.
    unfold getQueues_body in E.
    destruct (queueDict !! k) as [q|]; [|simplify_eq; eauto].
    destruct (resourceDict !! _) as [ceDef|]; [|simplify_eq; eauto].
    destruct (deriveTags _ _) as [p|]; [|simplify_eq; eauto].
    destruct (keepQueue p); simplify_eq; by eapply IH.
Qed.

(** A run of [getQueues] that returns [S_OK()] has kept every queue: the
    deletion of lines 48 and 52 is never followed by a normal return. *)
Lemma getQueues_ok_keeps_all resourceDict queueDict queueDict' :
  getQueues (S_OK tt) resourceDict queueDict = (Return (S_OK tt), queueDict') →
  dom queueDict' = dom queueDict.
Proof.
  unfold getQueues.
  destruct (getQueues_loop _ _ _ _) as [c qd] eqn:E.
  destruct (getQueues_loop_ctl _ _ _ _ _ _ E) as [-> | [e ->]]; [|done].
  intros [= <-].
  pose proof (getQueues_loop_size _ _ _ _ _ E) as Hsize.
  pose proof (getQueues_loop_dom _ _ _ _ _ _ E) as Hdom.
  apply set_subseteq_size_eq; [done|].
  rewrite !size_dom. lia.
Qed.

(** The whole-node scenario: one queue with the whole-node tag, a task
    queue of three jobs asking for a whole node, one free slot; exactly
    one pilot is submitted, with [processors = -1]. *)
Example whole_node_scenario :
  let run := submitJobs (friendlyEnv wholeNodeTaskQueues 1) sampleConfig
               oneQueue 5 emptyState in
  run.1 = Return (S_OK tt)
  ∧ submissions (trace run.2) = [("queueA", 1)]
  ∧ submittedProcessors (trace run.2) = [-1]
  ∧ recordedPilots (trace run.2) = [(["pilot0"], 4)]
  ∧ totalSubmittedPilots run.2 = 1.
Proof. vm_compute. repeat split; reflexivity. Qed.

(** The refused-submission scenario: two queues, the computing elements
    refuse every submission; no pilot is recorded, each queue has one
    failure, both queues were processed and the cycle returns [S_OK()]. *)
Example refused_submission_scenario :
  let env := with_submitJob (λ _, S_ERROR "refused")
               (friendlyEnv weightedTaskQueues 5) in
  let run := submitJobs env sampleConfig twoQueues 5 emptyState in
  run.1 = Return (S_OK tt)
  ∧ totalSubmittedPilots run.2 = 0
  ∧ recordedPilots (trace run.2) = []
  ∧ failedCounter run.2 "queueA" = 1
  ∧ failedCounter run.2 "queueB" = 1
  ∧ queriedCEs (trace run.2) = ["ce2.example.org"; "ce.example.org"].
Proof. vm_compute. repeat split; reflexivity. Qed.

(** C2: three cycles over two queues.  The query for the first queue
    fails: the cycle returns the error, no failure counter has changed,
    and the second queue was never queried.  The proxy for the first tag
    of the first queue is refused: the same.  Every submission is refused:
    after the refusal for the first tag of queueA (three jobs) the
    submission for its second tag (five jobs) is tried all the same, so
    the rest of the work of the queue is not left out, and each queue ends
    the cycle with two failures. *)
Lemma failures_abort_or_keep_queue :
  (probeFailureRun.1 = Return (S_ERROR "TaskQueueDB is down")
   ∧ failedQueues probeFailureRun.2 = ∅
   ∧ failedCounter probeFailureRun.2 "queueA" = 0
   ∧ queriedCEs (trace probeFailureRun.2) = ["ce.example.org"]
   ∧ submissions (trace probeFailureRun.2) = [])
  ∧ (proxyFailureRun.1 = Return (S_ERROR "no proxy")
     ∧ failedQueues proxyFailureRun.2 = ∅
     ∧ failedCounter proxyFailureRun.2 "queueA" = 0
     ∧ queriedCEs (trace proxyFailureRun.2) = ["ce.example.org"]
     ∧ submissions (trace proxyFailureRun.2) = [])
  ∧ (refusedRun.1 = Return (S_OK tt)
     ∧ submissions (trace refusedRun.2)
       = [("queueB", 5); ("queueB", 3); ("queueA", 5); ("queueA", 3)]
     ∧ submittedProcessors (trace refusedRun.2) = [2; -1; 2; -1]
     ∧ failedCounter refusedRun.2 "queueA" = 2
     ∧ failedCounter refusedRun.2 "queueB" = 2).
Proof. vm_compute. repeat split; reflexivity. Qed.

(** C3: a queue that comes with the tags 8Processors and WholeNode, with
    [MaxProcessors = 2] and [WholeNode = false].  After the derivation its
    tags contain 8Processors although 8 is above the maximum in force, and
    WholeNode although the flag in force is not set; the queue is kept for
    its WholeNode tag. *)
Lemma former_tags_outlive_derivation :
  deriveTags sampleCE formerTagsParameters = Some formerTagsDerived
  ∧ effectiveMaxProcessors sampleCE formerTagsParameters = Some "2"
  ∧ py_int "2" = Some 2
  ∧ processorsTag 8 ∈ default [] (pTags formerTagsDerived)
  ∧ effectiveWholeNode sampleCE formerTagsParameters = Some "false"
  ∧ ¬ truthy "false"
  ∧ "WholeNode" ∈ default [] (pTags formerTagsDerived)
  ∧ keepQueue formerTagsDerived = true.
Proof.
  split; [vm_compute; reflexivity|]. split; [reflexivity|].
  split; [vm_compute; reflexivity|].
  split; [apply list_elem_of_here|].
  split; [reflexivity|].
  split; [intros [H|H]; vm_compute in H; discriminate|].
  split; [apply list_elem_of_further, list_elem_of_here|].
  vm_compute. reflexivity.
Qed.

(** C5: with a cycle factor of 10, a queue that has failed once is taken
    again after 9 cycles; it is not left out 10 cycles in a row. *)
Lemma not_skipped_ten_times :
  ¬ skippedFor sampleEnv sampleConfig oneQueue 5 someDemand ["LCG.Example.org"]
      "queueA" 10 (failedOnce "queueA")
  ∧ queueFailedRecently sampleConfig
      (afterCycles sampleEnv sampleConfig oneQueue 5 someDemand
         ["LCG.Example.org"] "queueA" 9 (failedOnce "queueA")) "queueA" = false.
Proof.
  split; [|vm_compute; reflexivity].
  intros [H _]. specialize (H 9%nat ltac:(lia)). vm_compute in H. discriminate.
Qed.


(** ** The theorems on sample data *)

(** A queue with [MaxProcessors = 2], [WholeNode = false] and two former
    tags: two tags are appended. *)
Lemma derived_tags_exact_witness :
  deriveTags sampleCE formerTagsParameters = Some formerTagsDerived
  ∧ ∃ derived,
      default [] (pTags formerTagsDerived)
      = ["8Processors"; "WholeNode"] ++ derived
      ∧ (∀ N : Z,
           processorsTag N ∈ derived ↔
           ∃ s m, effectiveMaxProcessors sampleCE formerTagsParameters = Some s
                  ∧ py_int s = Some m ∧ 1 ≤ N ≤ m)
      ∧ ("WholeNode" ∈ derived ↔
         ∃ s, effectiveWholeNode sampleCE formerTagsParameters = Some s
              ∧ truthy s).
Proof.
  assert (H : deriveTags sampleCE formerTagsParameters = Some formerTagsDerived)
    by (vm_compute; reflexivity).
  split; [exact H|].
  destruct (derived_tags_exact sampleCE formerTagsParameters formerTagsDerived H)
    as (derived & Htags & Hprocs & Hwhole & _).
  exists derived. split; [exact Htags|]. split; [exact Hprocs | exact Hwhole].
Defined.

(** A cycle in which the matcher has no task queue at all. *)
Lemma no_demand_ends_cycle_witness :
  ∃ σ', submitJobs (friendlyEnv ∅ 5) sampleConfig oneQueue 5 emptyState
        = (Return (S_OK tt), σ')
        ∧ failedQueues σ' = ∅
        ∧ totalSubmittedPilots σ' = 0.
Proof.
  destruct (no_demand_ends_cycle (friendlyEnv ∅ 5) sampleConfig oneQueue 5
              emptyState ["x86_64"] sampleTags)
    as (σ' & Hrun & _ & Hf & _ & Ht);
    [vm_compute; reflexivity | vm_compute; reflexivity | vm_compute; reflexivity|].
  exists σ'. split; [exact Hrun|]. split; [exact Hf | exact Ht].
Defined.

(** A queue without [CPUTime] in an otherwise friendly world. *)
Lemma missing_cputime_skips_witness :
  processQueue sampleEnv sampleConfig noCPUTimeQueues 5
    someDemand ["LCG.Example.org"] "queueA" emptyState
  = (Next tt, emptyState).
Proof.
  apply (missing_cputime_skips sampleEnv sampleConfig
           noCPUTimeQueues 5 someDemand ["LCG.Example.org"] "queueA"
           (sampleQueue noCPUTimeParameters) sampleTags emptyState).
  - simpl. lia.
  - vm_compute. reflexivity.
  - vm_compute. reflexivity.
  - reflexivity.
  - left. reflexivity.
  - left. simpl. apply list_elem_of_here.
  - reflexivity.
Defined.

(** One failure, cycle factor 10: nine cycles without the queue. *)
Lemma skip_increments_counter_witness :
  0 < failedQueueCycleFactor sampleConfig
  ∧ failedCounter (failedOnce "queueA") "queueA" `mod` 10 ≠ 0
  ∧ skippedFor sampleEnv sampleConfig oneQueue 5
      someDemand ["LCG.Example.org"] "queueA" 9 (failedOnce "queueA").
Proof.
  assert (H1 : 0 < failedQueueCycleFactor sampleConfig) by (simpl; lia).
  assert (H2 : failedCounter (failedOnce "queueA") "queueA"
               `mod` failedQueueCycleFactor sampleConfig ≠ 0)
    by (vm_compute; discriminate).
  split; [exact H1|]. split; [exact H2|].
  exact (proj2 (skip_increments_counter sampleEnv
                  sampleConfig oneQueue 5 someDemand ["LCG.Example.org"]
                  "queueA" (failedOnce "queueA") H1 H2)).
Defined.

(** The same queue, seen as one past a multiple of the cycle factor. *)
Lemma backoff_period_witness :
  0 < failedQueueCycleFactor sampleConfig
  ∧ (failedCounter (failedOnce "queueA") "queueA" - 1) `mod` 10 = 0
  ∧ skippedFor sampleEnv sampleConfig oneQueue 5
      someDemand ["LCG.Example.org"] "queueA" 9 (failedOnce "queueA").
Proof.
  assert (H1 : 0 < failedQueueCycleFactor sampleConfig) by (simpl; lia).
  assert (H2 : (failedCounter (failedOnce "queueA") "queueA" - 1)
               `mod` failedQueueCycleFactor sampleConfig = 0)
    by (vm_compute; reflexivity).
  split; [exact H1|]. split; [exact H2|].
  exact (proj1 (proj2 (proj2 (proj2
           (backoff_period sampleEnv sampleConfig
              oneQueue 5 someDemand ["LCG.Example.org"] "queueA"
              (failedOnce "queueA") H1)))) H2).
Defined.

Lemma weighted_nonempty : weightedTaskQueues ≠ ∅.
Proof.
  intros H%(f_equal (λ m : gmap Z TaskQueue, m !! 1)). vm_compute in H.
  discriminate.
Qed.

Lemma twoTag_nonempty : twoTagTaskQueues ≠ ∅.
Proof.
  intros H%(f_equal (λ m : gmap Z TaskQueue, m !! 1)). vm_compute in H.
  discriminate.
Qed.

Local Ltac by_computation := vm_compute; reflexivity.

(** A cycle over the two queues, with platforms, site mask and order of
    the queues as in the friendly world, comes to queueA, the first of
    the queues. *)
Lemma sample_reaches_queue (env : Env) (value : gmap Z TaskQueue) :
  env_platforms env = (λ _, S_OK ["x86_64"]) →
  env_siteMask env = (λ _, S_OK ["LCG.Example.org"]) →
  env_shuffle env = (λ tr, match tr with CallShuffle l :: _ => l | _ => [] end) →
  env_matcher env [CallMatcher (tqDict sampleConfig ["x86_64"]
                                  (sampleTags ++ sampleTags));
                   CallPlatforms []] = S_OK value →
  value ≠ ∅ →
  anySite (globalDemand (map_to_list value)) = true →
  cycleReachesQueue env sampleConfig twoQueues 5 emptyState
    (globalDemand (map_to_list value)) ["LCG.Example.org"] "queueA"
    ["queueB"] (sampleQueue sampleDerived) (processorTagsOf sampleTags) 1000
    ["x86_64"] (sampleQueuesEntry value).
Proof.
  intros Hplat Hmask Hshuffle Hmatch Hne Hany.
  exists value, ["queueA"; "queueB"], (sampleQueuesEntry value), [].
  split.
  { exists ["x86_64"], (sampleTags ++ sampleTags). cbn zeta.
    rewrite Hplat, Hmask, Hshuffle.
    split; [done|]. split; [by_computation|]. split; [exact Hmatch|].
    split; [exact Hne|]. split; [done|]. split; [|done].
    by_computation. }
  split; [done|]. split; [done|]. split; [done|].
  exists sampleTags, "1000", 1000. rewrite Hplat.
  split; [done|]. split; [by_computation|]. split; [by_computation|].
  split; [done|]. split; [done|]. split; [by left|].
  split; [left; apply list_elem_of_here|].
  split; [done|]. split; [by_computation|]. done.
Qed.

(** When moreover the matcher always answers [value], the cycle comes to
    the first tag of queueA. *)
Lemma sample_reaches_tag (env : Env) (value : gmap Z TaskQueue) (tag : string)
    (tagsAfter : list string) :
  env_platforms env = (λ _, S_OK ["x86_64"]) →
  env_siteMask env = (λ _, S_OK ["LCG.Example.org"]) →
  env_shuffle env = (λ tr, match tr with CallShuffle l :: _ => l | _ => [] end) →
  env_matcher env = (λ _, S_OK value) →
  value ≠ ∅ →
  anySite (globalDemand (map_to_list value)) = true →
  (map_to_list (partitionByTag (processorTagsOf sampleTags) value).1).*1
  = tag :: tagsAfter →
  cycleReachesTag env sampleConfig twoQueues 5 emptyState
    (globalDemand (map_to_list value)) ["LCG.Example.org"] "queueA"
    ["queueB"] (sampleQueue sampleDerived) (processorTagsOf sampleTags) 1000
    value tag tagsAfter (sampleTagsEntry value).
Proof.
  intros Hplat Hmask Hshuffle Hmatch Hne Hany Htags.
  exists ["x86_64"], (sampleQueuesEntry value), [].
  split; [apply sample_reaches_queue; try done; by rewrite Hmatch|].
  split; [by rewrite Hmatch|]. split; [exact Hne|]. split; [exact Htags|]. done.
Qed.

(** In the world that refuses every submission, the tag WholeNode of
    queueA comes to its submission loop. *)
Lemma refused_reaches_loop :
  tagReachesLoop refusingEnv sampleConfig "queueA" 1000
    (partitionByTag (processorTagsOf sampleTags) twoTagTaskQueues).1
    (partitionByTag (processorTagsOf sampleTags) twoTagTaskQueues).2
    "WholeNode" [4] (sampleTagsEntry twoTagTaskQueues) sampleLoopEntry.
Proof.
  exists 3, 0, (sampleCounted twoTagTaskQueues [4]), "proxy", 5,
    {[ "queueA" := 5 ]}.
  cbn zeta. split; [by_computation|]. split; [by_computation|].
  split; [done|]. split; [lia|]. split; [done|]. split; [by_computation|].
  split; [lia|]. done.
Qed.

Lemma refused_reaches_tag :
  cycleReachesTag refusingEnv sampleConfig twoQueues 5 emptyState
    (globalDemand (map_to_list twoTagTaskQueues)) ["LCG.Example.org"] "queueA"
    ["queueB"] (sampleQueue sampleDerived) (processorTagsOf sampleTags) 1000
    twoTagTaskQueues "WholeNode" ["2Processors"]
    (sampleTagsEntry twoTagTaskQueues).
Proof.
  apply sample_reaches_tag; try done;
    first [apply twoTag_nonempty | by_computation].
Qed.

(** A cycle over two queues in which every submission is refused: the
    first refusal is for the tag WholeNode of queueA, and the cycle goes
    on with the tag 2Processors of queueA and with queueB. *)
Lemma failed_submission_ends_tag_witness :
  0 < pilotsToSubmit sampleLoopEntry
  ∧ ∃ σ', submitLoop refusingEnv 5 "queueA" (sampleQueue sampleDerived)
            twoTagTaskQueues [4] (-1) sampleLoopEntry = (Next tt, σ')
          ∧ pilotsToSubmit σ' = 0
          ∧ failedCounter σ' "queueA" = failedCounter sampleLoopEntry "queueA" + 1
          ∧ totalSubmittedPilots σ' = totalSubmittedPilots sampleLoopEntry
          ∧ refusedRun = sampleRestOfCycle refusingEnv σ'.
Proof.
  assert (H1 : 0 < pilotsToSubmit sampleLoopEntry) by by_computation.
  split; [exact H1|].
  destruct (failed_submission_ends_tag refusingEnv 4 "queueA"
              (sampleQueue sampleDerived) twoTagTaskQueues [4] (-1)
              sampleLoopEntry "pilotwrapper.py" 3 "refused" H1)
    as (σ' & Hrun & Hp & Hc & _ & _ & Ht & _ & _ & Hcycle);
    [reflexivity | reflexivity|].
  exists σ'. split; [exact Hrun|]. split; [exact Hp|]. split; [exact Hc|].
  split; [exact Ht|].
  exact (proj2 (Hcycle sampleConfig twoQueues 0%nat emptyState
                  (globalDemand (map_to_list twoTagTaskQueues))
                  ["LCG.Example.org"] ["queueB"] (processorTagsOf sampleTags)
                  1000 "WholeNode" ["2Processors"]
                  (sampleTagsEntry twoTagTaskQueues) sampleLoopEntry
                  eq_refl refused_reaches_tag refused_reaches_loop eq_refl)).
Defined.

(** Three cycles over two queues: the query for queueA fails; the proxy
    for the first tag of queueA is refused; every submission is
    refused. *)
Lemma queue_failures_witness :
  probeFailureRun
  = (Return (S_ERROR "TaskQueueDB is down"),
     set_trace (queueQuery sampleConfig ["LCG.Example.org"]
                  (sampleQueue sampleDerived) ["x86_64"]
                  (processorTagsOf sampleTags)
                  :: CallPlatforms ["x86_64"]
                  :: trace (sampleQueuesEntry weightedTaskQueues))
       (sampleQueuesEntry weightedTaskQueues))
  ∧ proxyFailureRun
    = (Return (S_ERROR "no proxy"),
       set_trace (proxyRequest sampleConfig 1000
                    :: trace (sampleCounted weightedTaskQueues [2; 1]))
         (sampleCounted weightedTaskQueues [2; 1]))
  ∧ ∃ σ', refusedRun = sampleRestOfCycle refusingEnv σ'
          ∧ failedCounter σ' "queueA" = failedCounter sampleLoopEntry "queueA" + 1
          ∧ pilotsToSubmit σ' = 0.
Proof.
  split; [|split].
  - apply (proj1 (queue_failures probeDownEnv sampleConfig twoQueues)
             5%nat emptyState (globalDemand (map_to_list weightedTaskQueues))
             ["LCG.Example.org"] "queueA" ["queueB"]
             (sampleQueue sampleDerived) (processorTagsOf sampleTags) 1000
             ["x86_64"] (sampleQueuesEntry weightedTaskQueues)
             "TaskQueueDB is down"); [|reflexivity].
    apply sample_reaches_queue; try done;
      first [apply weighted_nonempty | by_computation].
  - apply (proj1 (proj2 (queue_failures proxyDownEnv sampleConfig twoQueues))
             5%nat emptyState (globalDemand (map_to_list weightedTaskQueues))
             ["LCG.Example.org"] "queueA" ["queueB"]
             (sampleQueue sampleDerived) (processorTagsOf sampleTags) 1000
             weightedTaskQueues "2Processors" []
             (sampleTagsEntry weightedTaskQueues) 10 [2; 1] 0
             (sampleCounted weightedTaskQueues [2; 1]) "no proxy");
      [|by_computation|by_computation|reflexivity|lia|reflexivity].
    apply sample_reaches_tag; try done;
      first [apply weighted_nonempty | by_computation].
  - destruct (proj2 (proj2 (queue_failures refusingEnv sampleConfig twoQueues))
                0%nat 4%nat emptyState
                (globalDemand (map_to_list twoTagTaskQueues))
                ["LCG.Example.org"] "queueA" ["queueB"]
                (sampleQueue sampleDerived) (processorTagsOf sampleTags) 1000
                twoTagTaskQueues "WholeNode" ["2Processors"] [4]
                (sampleTagsEntry twoTagTaskQueues) sampleLoopEntry
                sampleLoopEntry "pilotwrapper.py" 3 "refused"
                refused_reaches_tag refused_reaches_loop eq_refl)
      as (σ' & Hgo & Hc & _ & Hp);
      [by_computation | reflexivity | reflexivity|].
    exists σ'. split; [exact Hgo|]. split; [exact Hc | exact Hp].
Defined.

(** Ten jobs, five slots, a ceiling of a hundred: at most five pilots. *)
Lemma submitted_within_bound_witness :
  executableWithinRequest sampleEnv
  ∧ queueSubmittedPilots sampleTagRun.2 - queueSubmittedPilots emptyState
    ≤ specBound (maxPilotsToSubmit sampleConfig)
        (queueSubmittedPilots emptyState) 5 10 0.
Proof.
  assert (H : executableWithinRequest sampleEnv).
  { intros tr queue n bundleProxy httpProxy jobExecDir executable chunk Heq.
    simpl in Heq. injection Heq as _ <-. lia. }
  split; [exact H|].
  exact (proj1 (submitted_within_bound sampleEnv sampleConfig 5 "queueA"
                  (sampleQueue sampleDerived) weightedTaskQueues [1; 2]
                  2 5 10 0 emptyState H)).
Defined.


(** * Further properties of the site director *)

(** ** Tags written and tags read *)

Lemma digit_value_pretty_N_char (x : N) :
  (x < 10)%N →
  is_digit (pretty_N_char x) = true
  ∧ digit_value (pretty_N_char x) = Z.of_N x.
Proof.
  intros Hx.
  assert (x = 0 ∨ x = 1 ∨ x = 2 ∨ x = 3 ∨ x = 4 ∨ x = 5 ∨ x = 6 ∨ x = 7
          ∨ x = 8 ∨ x = 9)%N as H by lia.
  repeat (destruct H as [->|H]; [by vm_compute|]). subst x. by vm_compute.
Qed.

Lemma append_cons (c : ascii) (s t : string) :
  String c s +:+ t = String c (s +:+ t).
Proof. reflexivity. Qed.

Lemma append_nil_l (t : string) : "" +:+ t = t.
Proof. reflexivity. Qed.

Lemma append_nil_r (s : string) : s +:+ "" = s.
Proof.
  induction s as [|c s IH]; [done|]. by rewrite append_cons, IH.
Qed.

Lemma append_assoc (a b c : string) : (a +:+ b) +:+ c = a +:+ (b +:+ c).
Proof.
  induction a as [|x a IH]; [done|]. by rewrite !append_cons, IH.
Qed.

Lemma all_digits_app (d1 d2 : string) :
  all_digits (d1 +:+ d2) = all_digits d1 && all_digits d2.
Proof.
  induction d1 as [|c d1 IH]; [done|].
  rewrite append_cons. simpl. by rewrite IH, andb_assoc.
Qed.

(** Reading a text of digits continues the number read so far. *)
Lemma digits_value_app (d r : string) :
  all_digits d = true →
  ∃ v, ∀ acc, digits_value acc (d +:+ r)
              = digits_value (acc * 10 ^ Z.of_nat (String.length d) + v) r.
Proof.
  induction d as [|c d IH]; intros Hd.
  - exists 0. intros acc. rewrite append_nil_l. simpl. f_equal. lia.
  - simpl in Hd. apply andb_true_iff in Hd as [Hc Hd].
    destruct (IH Hd) as (v & Hv).
    exists (digit_value c * 10 ^ Z.of_nat (String.length d) + v).
    intros acc. rewrite append_cons. simpl digits_value. rewrite Hc, Hv.
    f_equal. simpl String.length.
    rewrite Nat2Z.inj_succ, Z.pow_succ_r by lia. lia.
Qed.

(** The decimal digits of a number, written in front of [s]. *)
Lemma pretty_N_go_digits (x : N) : ∀ s,
  ∃ d, pretty_N_go x s = d +:+ s
       ∧ all_digits d = true
       ∧ ((0 < x)%N → d ≠ "")
       ∧ ∀ acc r, digits_value acc (d +:+ r)
                  = digits_value (acc * 10 ^ Z.of_nat (String.length d) + Z.of_N x) r.
Proof.
  induction (N.lt_wf_0 x) as [x _ IH]; intros s.
  assert (x = 0 ∨ 0 < x)%N as [->|Hx] by lia.
  - exists "". rewrite pretty_N_go_0. repeat split; [lia|].
    intros acc r. rewrite append_nil_l. simpl. f_equal. lia.
  - rewrite pretty_N_go_step by done.
    set (c := pretty_N_char (x `mod` 10)%N).
    destruct (IH (x `div` 10)%N (N.div_lt x 10 Hx eq_refl) (String c s))
      as (d & -> & Hd & _ & Hv).
    destruct (digit_value_pretty_N_char (x `mod` 10)%N) as [Hc1 Hc2].
    { by apply N.mod_lt. }
    fold c in Hc1, Hc2.
    exists (d +:+ String c "").
    split; [by rewrite append_assoc|].
    split; [rewrite all_digits_app, Hd; simpl; by rewrite Hc1|].
    split; [intros _; by destruct d|].
    intros acc r. rewrite append_assoc, append_cons, append_nil_l, Hv.
    simpl digits_value. rewrite Hc1, Hc2. f_equal.
    rewrite length_append. simpl String.length.
    rewrite Nat2Z.inj_add, Z.pow_add_r by lia.
    pose proof (N.div_mod x 10 ltac:(done)) as Hdm.
    change (10 ^ Z.of_nat 1) with 10. lia.
Qed.

Lemma pretty_Z_digits (n : Z) :
  0 ≤ n →
  all_digits (pretty n) = true ∧ pretty n ≠ ""
  ∧ digits_value 0 (pretty n) = Some n.
Proof.
  intros Hn. destruct n as [|p|p]; [by vm_compute| |lia].
  unfold pretty, pretty_Z, pretty, pretty_positive, pretty, pretty_N.
  rewrite decide_False by done.
  destruct (pretty_N_go_digits (N.pos p) "") as (d & -> & Hd & Hne & Hv).
  rewrite append_nil_r. split; [done|]. split; [apply Hne; lia|].
  specialize (Hv 0 ""). rewrite append_nil_r in Hv. rewrite Hv. simpl.
  f_equal.
Qed.

Lemma span_digits_app (d r : string) :
  all_digits d = true →
  (∀ c r', r = String c r' → is_digit c = false) →
  span_digits (d +:+ r) = (d, r).
Proof.
  intros Hd Hr. induction d as [|c d IH].
  - rewrite append_nil_l. destruct r as [|c r']; [done|].
    simpl. by rewrite (Hr c r' eq_refl).
  - simpl in Hd. apply andb_true_iff in Hd as [Hc Hd].
    rewrite append_cons. simpl. by rewrite Hc, IH.
Qed.

(** The tag written for [n] processors is read back as [n]. *)
Lemma matchProcessors_processorsTag (n : Z) :
  0 ≤ n → matchProcessors (processorsTag n) = Some n.
Proof.
  intros Hn. destruct (pretty_Z_digits n Hn) as (Hd & Hne & Hv).
  unfold matchProcessors, processorsTag.
  rewrite span_digits_app; [|done|by intros c r' [= <- <-]].
  rewrite bool_decide_eq_true_2 by by left.
  unfold unsigned_value. by destruct (pretty n).
Qed.

(** X2. The tag that [getQueues] writes for [n] processors
    (['%dProcessors' % n], [n] not negative) is read back by [submitJobs]
    as [n]: the number of processors handed to the computing element for
    the tag is [n]. *)
Theorem processors_of_written_tag (n : Z) :
  0 ≤ n → processorsOf (processorsTag n) = n.
Proof.
  intros Hn. unfold processorsOf.
  rewrite matchProcessors_processorsTag by done.
  rewrite bool_decide_eq_false_2; [done|].
  apply processorsTag_not_WholeNode.
Qed.

Lemma processorTagsOf_written (procs : list string) (wholeNode : bool) :
  (∀ tag, tag ∈ procs → ∃ n, 0 ≤ n ∧ tag = processorsTag n) →
  processorTagsOf (procs ++ (if wholeNode then ["WholeNode"] else []))
  = procs ++ (if wholeNode then ["WholeNode"] else []).
Proof.
  intros Hprocs. unfold processorTagsOf. rewrite filter_app.
  assert (Hf : filter (λ tag, is_Some (matchProcessors tag)) procs = procs).
  { induction procs as [|tag procs IH]; [done|].
    destruct (Hprocs tag) as (n & Hn & ->); [apply list_elem_of_here|].
    rewrite filter_cons_True.
    - f_equal. apply IH. intros t Ht. apply Hprocs. by apply list_elem_of_further.
    - rewrite matchProcessors_processorsTag by done. by eexists. }
  rewrite Hf.
  assert (Hw : "WholeNode" ∉ procs).
  { intros Hin. destruct (Hprocs _ Hin) as (n & _ & Hn).
    by apply (processorsTag_not_WholeNode n). }
  destruct wholeNode.
  - rewrite filter_cons_False; [|by vm_compute; intros [? ?]].
    rewrite filter_nil, app_nil_r.
    rewrite bool_decide_eq_true_2; [done|].
    apply elem_of_app. right. apply list_elem_of_here.
  - rewrite filter_nil, !app_nil_r.
    rewrite bool_decide_eq_false_2 by done. by rewrite app_nil_r.
Qed.

(** X3. The tags that [getQueues] derives for a queue without a former
    [Tags] entry are all recognised by [submitJobs]: the processor tags it
    computes for the queue in lines 162-168 (and sends to the matcher) are
    the derived tags themselves, in the same order. *)
Theorem derived_tags_are_processor_tags (ceDef : CEDef) (p p' : ParametersDict) :
  pTags p = None →
  deriveTags ceDef p = Some p' →
  processorTagsOf (default [] (pTags p')) = default [] (pTags p').
Proof.
  intros Hnone Hd.
  destruct (deriveTags_tags _ _ _ Hd) as (procs & Hp & ->).
  rewrite Hnone. simpl. apply processorTagsOf_written.
  intros tag Htag. unfold processorsTags in Hp.
  destruct (get_or _ _) as [s|]; [|simplify_eq; by apply elem_of_nil in Htag].
  destruct (decide (s = "")) as [->|Hs];
    [simplify_eq; by apply elem_of_nil in Htag|].
  assert (Hp' : (n ← py_int s; Some (processorsTag <$> range1 n)) = Some procs)
    by by destruct s.
  destruct (py_int s) as [m|]; [|done]. simpl in Hp'. injection Hp' as <-.
  apply list_elem_of_fmap in Htag as (k & -> & Hk%elem_of_range1).
  exists k. split; [lia | done].
Qed.

(** ** The catalogue when every queue qualifies *)

Lemma getQueues_body_kept resourceDict queueName queueDict q q' :
  queueDict !! queueName = Some q →
  derivedQueue resourceDict q = Some q' →
  getQueues_body resourceDict queueName queueDict
  = (Next tt, <[queueName := q']> queueDict).
Proof.
  intros Hq Hd. unfold getQueues_body, derivedQueue in *. rewrite Hq.
  destruct (resourceDict !! _) as [ceDef|]; [|done]. simpl in Hd.
  destruct (deriveTags _ _) as [p|]; [|done]. simpl in Hd.
  destruct (keepQueue p); [|done]. by injection Hd as <-.
Qed.

Lemma getQueues_loop_kept resourceDict (queueDict0 : gmap string Queue) keys :
  NoDup keys →
  ∀ queueDict,
    size queueDict = size queueDict0 →
    (∀ k, k ∈ keys →
       ∃ q q', queueDict !! k = Some q ∧ queueDict0 !! k = Some q
               ∧ derivedQueue resourceDict q = Some q') →
    ∃ queueDict',
      getQueues_loop resourceDict (size queueDict0) keys queueDict
      = (Next tt, queueDict')
      ∧ (∀ k, k ∈ keys →
           queueDict' !! k = queueDict0 !! k ≫= derivedQueue resourceDict)
      ∧ (∀ k, k ∉ keys → queueDict' !! k = queueDict !! k).
Proof.
  induction 1 as [|k keys Hk Hnd IH]; intros queueDict Hsize Hkeys.
  - exists queueDict. simpl. rewrite bool_decide_eq_true_2 by done.
    split; [done|]. split; [by intros k ?%elem_of_nil | done].
  - destruct (Hkeys k) as (q & q' & Hq & Hq0 & Hd); [apply list_elem_of_here|].
    cbn [getQueues_loop]. rewrite bool_decide_eq_true_2 by done.
    rewrite (getQueues_body_kept _ _ _ _ _ Hq Hd).
    destruct (IH (<[k := q']> queueDict)) as (queueDict' & Hrun & Hin & Hout).
    + rewrite <- Hsize. apply map_size_insert_Some. done.
    + intros k' Hk'. destruct (Hkeys k') as (q1 & q1' & H1 & H2 & H3);
        [by apply list_elem_of_further|].
      exists q1, q1'. rewrite lookup_insert_ne by (intros ->; done). done.
    + exists queueDict'. split; [exact Hrun|]. split.
      * intros k' [->|Hk']%elem_of_cons; [|by apply Hin].
        rewrite (Hout k Hk), lookup_insert_eq, Hq0. simpl. by rewrite Hd.
      * intros k' Hk'. apply not_elem_of_cons in Hk' as [Hne Hk'].
        rewrite (Hout k' Hk'). by rewrite lookup_insert_ne.
Qed.

(** X1. When the enumeration of the base class succeeded and every queue
    of the catalogue qualifies (its computing element is described, its
    maximum-processors value is read without error, and its derived tags
    contain ["2Processors"] or ["WholeNode"]), [getQueues] returns
    [S_OK()] and leaves exactly the same queues, each with its derived
    tags appended to its parameters. *)
Theorem getQueues_all_qualify (resourceDict : gmap (string * string) CEDef)
    (queueDict : gmap string Queue) :
  (∀ k q, queueDict !! k = Some q → is_Some (derivedQueue resourceDict q)) →
  ∃ queueDict',
    getQueues (S_OK tt) resourceDict queueDict = (Return (S_OK tt), queueDict')
    ∧ ∀ k, queueDict' !! k = queueDict !! k ≫= derivedQueue resourceDict.
Proof.
  intros Hall. unfold getQueues.
  destruct (getQueues_loop_kept resourceDict queueDict (map_to_list queueDict).*1
              (NoDup_fst_map_to_list queueDict) queueDict eq_refl)
    as (queueDict' & -> & Hin & Hout).
  { intros k Hk. apply list_elem_of_fmap in Hk as ([k' q] & -> & Hkq).
    apply elem_of_map_to_list in Hkq. destruct (Hall _ _ Hkq) as [q' Hq'].
    by exists q, q'. }
  exists queueDict'. split; [done|]. intros k.
  destruct (queueDict !! k) as [q|] eqn:Hq.
  - rewrite Hin, Hq; [done|]. apply list_elem_of_fmap. exists (k, q).
    split; [done|]. by apply elem_of_map_to_list.
  - rewrite Hout, Hq; [done|]. intros Hk.
    apply list_elem_of_fmap in Hk as ([k' q] & -> & Hkq).
    apply elem_of_map_to_list in Hkq. simpl in Hq. congruence.
Qed.

(** ** What the global answer says about the sites *)

Lemma elem_of_namedSites (s : string) (l : list string) :
  s ∈ namedSites l ↔ s ∈ l ∧ lower s ≠ "any".
Proof.
  unfold namedSites. rewrite list_elem_of_filter.
  split; intros [H1 H2]; by split.
Qed.

Lemma jobSites_foldl (ts : list TaskQueue) : ∀ d s,
  s ∈ jobSites (foldl demandStep d ts) ↔
  s ∈ jobSites d
  ∨ ∃ t l, t ∈ ts ∧ tqSites t = Some l ∧ s ∈ l ∧ lower s ≠ "any".
Proof.
  induction ts as [|t ts IH]; intros d s; simpl.
  - split; [by left|]. intros [H|(t & l & []%elem_of_nil & _)]. done.
  - rewrite IH. simpl. split.
    + intros [H|(t' & l & Ht' & Hl & Hs)].
      * destruct (tqSites t) as [l|] eqn:El; [|by left].
        apply elem_of_union in H as [H|H]; [by left|].
        apply elem_of_list_to_set, elem_of_namedSites in H as [H1 H2].
        right. exists t, l. split; [apply list_elem_of_here | done].
      * right. exists t', l. split; [by apply list_elem_of_further | done].
    + intros [H|(t' & l & Ht' & Hl & Hs1 & Hs2)].
      * left. destruct (tqSites t); [|done]. apply elem_of_union. by left.
      * apply elem_of_cons in Ht' as [->|Ht'].
        -- left. rewrite Hl. apply elem_of_union. right.
           apply elem_of_list_to_set, elem_of_namedSites. done.
        -- right. by exists t', l.
Qed.

Lemma testSites_foldl (ts : list TaskQueue) : ∀ d s,
  s ∈ testSites (foldl demandStep d ts) ↔
  s ∈ testSites d
  ∨ ∃ t l, t ∈ ts ∧ is_Some (tqJobTypes t) ∧ tqSites t = Some l
           ∧ s ∈ l ∧ lower s ≠ "any".
Proof.
  induction ts as [|t ts IH]; intros d s; simpl.
  - split; [by left|]. intros [H|(t & l & []%elem_of_nil & _)]. done.
  - rewrite IH. simpl. split.
    + intros [H|(t' & l & Ht' & Hj & Hl & Hs)].
      * destruct (tqJobTypes t) as [j|] eqn:Ej; [|by left].
        destruct (tqSites t) as [l|] eqn:El; [|by left].
        apply elem_of_union in H as [H|H]; [by left|].
        apply elem_of_list_to_set, elem_of_namedSites in H as [H1 H2].
        right. exists t, l. split; [apply list_elem_of_here|].
        rewrite Ej. split; [by eexists | done].
      * right. exists t', l. split; [by apply list_elem_of_further | done].
    + intros [H|(t' & l & Ht' & [j Hj] & Hl & Hs1 & Hs2)].
      * left. destruct (tqJobTypes t); [|done]. destruct (tqSites t); [|done].
        apply elem_of_union. by left.
      * apply elem_of_cons in Ht' as [->|Ht'].
        -- left. rewrite Hj, Hl. apply elem_of_union. right.
           apply elem_of_list_to_set, elem_of_namedSites. done.
        -- right. exists t', l. split; [done|]. split; [by eexists | done].
Qed.

(** X4. The sites collected from the answer of the global query: a site
    is in [jobSites] exactly when some task queue lists it and it is not
    spelled ["any"] in any case of letters; it is in [testSites] exactly
    when such a task queue also has a [JobTypes] entry. Hence [testSites]
    is a part of [jobSites], whatever the order of the task queues. *)
Theorem demand_sites (taskQueues : list (Z * TaskQueue)) :
  let demand := globalDemand taskQueues in
  (∀ s, s ∈ jobSites demand ↔
        ∃ t l, t ∈ taskQueues.*2 ∧ tqSites t = Some l ∧ s ∈ l
               ∧ lower s ≠ "any")
  ∧ (∀ s, s ∈ testSites demand ↔
          ∃ t l, t ∈ taskQueues.*2 ∧ is_Some (tqJobTypes t)
                 ∧ tqSites t = Some l ∧ s ∈ l ∧ lower s ≠ "any")
  ∧ testSites demand ⊆ jobSites demand.
Proof.
  assert (H1 : ∀ s, s ∈ jobSites (globalDemand taskQueues) ↔
             ∃ t l, t ∈ taskQueues.*2 ∧ tqSites t = Some l ∧ s ∈ l
                    ∧ lower s ≠ "any").
  { intros s. unfold globalDemand. rewrite jobSites_foldl. simpl.
    split; [intros [[]%elem_of_empty|H]; exact H | by right]. }
  assert (H2 : ∀ s, s ∈ testSites (globalDemand taskQueues) ↔
             ∃ t l, t ∈ taskQueues.*2 ∧ is_Some (tqJobTypes t)
                    ∧ tqSites t = Some l ∧ s ∈ l ∧ lower s ≠ "any").
  { intros s. unfold globalDemand. rewrite testSites_foldl. simpl.
    split; [intros [[]%elem_of_empty|H]; exact H | by right]. }
  split; [exact H1|]. split; [exact H2|].
  intros s Hs. apply H2 in Hs as (t & l & Ht & _ & Hl & Hs).
  apply H1. by exists t, l.
Qed.

Lemma anySite_foldl (ts : list TaskQueue) : ∀ d,
  anySite (foldl demandStep d ts) = true ↔
  anySite d = true
  ∨ ∃ t, t ∈ ts
         ∧ (tqSites t = None
            ∨ ∃ l s, tqSites t = Some l ∧ s ∈ l ∧ lower s = "any").
Proof.
  induction ts as [|t ts IH]; intros d; simpl.
  - split; [by left|]. intros [H|(t & []%elem_of_nil & _)]. done.
  - rewrite IH. simpl. split.
    + intros [H|(t' & Ht' & H)].
      * destruct (tqSites t) as [l|] eqn:El.
        -- apply orb_true_iff in H as [H|H]; [by left|].
           apply existsb_exists in H as (s & Hs%list_elem_of_In & Hany).
           apply bool_decide_eq_true in Hany. right. exists t.
           split; [apply list_elem_of_here|]. right. by exists l, s.
        -- right. exists t. split; [apply list_elem_of_here | by left].
      * right. exists t'. split; [by apply list_elem_of_further | done].
    + intros [H|(t' & Ht' & H)].
      * left. destruct (tqSites t); [|done]. by rewrite H.
      * apply elem_of_cons in Ht' as [->|Ht']; [|right; by exists t'].
        left. destruct H as [->|(l & s & -> & Hs & Hany)]; [done|].
        apply orb_true_iff. right. apply existsb_exists. exists s.
        split; [by apply list_elem_of_In | by apply bool_decide_eq_true].
Qed.

Lemma totalWaitingJobs_foldl (ts : list TaskQueue) : ∀ d,
  totalWaitingJobs (foldl demandStep d ts) = totalWaitingJobs d + sumJobs ts.
Proof.
  induction ts as [|t ts IH]; intros d; simpl; [lia|].
  rewrite IH. simpl. lia.
Qed.

(** X5. The global answer allows any site ([anySite]) exactly when some
    task queue has no [Sites] entry or lists a site spelled ["any"] in any
    case of letters; and the number of waiting jobs is the sum of the
    [Jobs] of the task queues. *)
Theorem demand_any_site (taskQueues : list (Z * TaskQueue)) :
  let demand := globalDemand taskQueues in
  (anySite demand = true ↔
     ∃ t, t ∈ taskQueues.*2
          ∧ (tqSites t = None
             ∨ ∃ l s, tqSites t = Some l ∧ s ∈ l ∧ lower s = "any"))
  ∧ totalWaitingJobs demand = sumJobs taskQueues.*2.
Proof.
  split.
  - unfold globalDemand. rewrite anySite_foldl. simpl.
    split; [intros [H|H]; [done | exact H] | by right].
  - unfold globalDemand. rewrite totalWaitingJobs_foldl. simpl. lia.
Qed.

(** ** The site tests *)

(** X6. A queue that is not left out for its failures is skipped, with
    the memory of the agent unchanged (no call, no counter touched), when
    the global answer has no job for its site (no any-site job and the
    site is not in [jobSites]), or when the site is neither in the site
    mask nor among the sites of test jobs. *)
Theorem site_tests_skip (env : Env) (cfg : Config)
    (queueDict : gmap string Queue) (fuel : nat) (demand : Demand)
    (siteMaskList : list string) (queue : string) (q : Queue)
    (queueTags : list string) (σ : State) :
  failedQueueCycleFactor cfg ≠ 0 →
  queueFailedRecently cfg σ queue = false →
  queueDict !! queue = Some q →
  pTags (Parameters q) = Some queueTags →
  (anySite demand = false ∧ (Site q ∉ jobSites demand))
  ∨ ((Site q ∉ siteMaskList) ∧ (Site q ∉ testSites demand)) →
  processQueue env cfg queueDict fuel demand siteMaskList queue σ = (Next tt, σ).
Proof.
  intros Hf Hgate Hq Htags Hsite.
  unfold processQueue. rewrite bool_decide_eq_false_2 by done.
  unfold bind at 1, get. rewrite Hgate.
  unfold processEligibleQueue. rewrite Hq. simpl.
  unfold bind at 1, ret. rewrite Htags. simpl.
  destruct Hsite as [[Hany Hjob] | [Hmask Htest]].
  - rewrite Hany. by rewrite bool_decide_eq_true_2.
  - destruct (negb (anySite demand) && bool_decide (Site q ∉ jobSites demand));
      [done|].
    rewrite (bool_decide_eq_false_2 _ Hmask).
    by rewrite bool_decide_eq_true_2.
Qed.

(** ** Failures that end the cycle *)

(** X7. When the global query of the matcher fails, [submitJobs] returns
    that very error; the platform query and the global query are the only
    calls made, and the failure counters, the slots and the count of
    submitted pilots are as before. *)
Theorem global_query_failure_ends_cycle (env : Env) (cfg : Config)
    (queueDict : gmap string Queue) (fuel : nat) (σ : State)
    (platform tags : list string) (msg : string) :
  env_platforms env (CallPlatforms (platforms cfg) :: trace σ) = S_OK platform →
  allTags queueDict (map_to_list queueDict).*1 = Some tags →
  env_matcher env
    (CallMatcher (tqDict cfg platform tags)
       :: CallPlatforms (platforms cfg) :: trace σ) = S_ERROR msg →
  submitJobs env cfg queueDict fuel σ
  = (Return (S_ERROR msg),
     set_trace (CallMatcher (tqDict cfg platform tags)
                  :: CallPlatforms (platforms cfg) :: trace σ) σ).
Proof.
  intros Hplat Htags Hmatch.
  unfold submitJobs, submitJobs_body, bind, ask. simpl.
  rewrite Hplat, Htags. simpl. by rewrite Hmatch.
Qed.

(** X8. When the global query finds waiting jobs but the site mask cannot
    be read, [submitJobs] returns an error of its own (["Can not get the
    site status"] with the resource status system, ["Can not get the site
    mask"] otherwise) in place of the one received; no queue is processed:
    the calls of the cycle end with the count of waiting pilots and the
    request for the mask, and the failure counters are as before. *)
Theorem site_mask_failure_ends_cycle (env : Env) (cfg : Config)
    (queueDict : gmap string Queue) (fuel : nat) (σ : State)
    (platform tags : list string) (value : gmap Z TaskQueue) (msg : string) :
  let call1 := CallPlatforms (platforms cfg) in
  let call2 := CallMatcher (tqDict cfg platform tags) in
  let call3 := CallCountPilots (map_to_list value).*1 false in
  let call4 := if rssFlag cfg then CallUsableSites else CallSiteMask in
  env_platforms env (call1 :: trace σ) = S_OK platform →
  allTags queueDict (map_to_list queueDict).*1 = Some tags →
  env_matcher env (call2 :: call1 :: trace σ) = S_OK value →
  value ≠ ∅ →
  env_siteMask env (call4 :: call3 :: call2 :: call1 :: trace σ) = S_ERROR msg →
  ∃ σ',
    submitJobs env cfg queueDict fuel σ
    = (Return (S_ERROR (if rssFlag cfg then "Can not get the site status"
                        else "Can not get the site mask")), σ')
    ∧ trace σ' = call4 :: call3 :: call2 :: call1 :: trace σ
    ∧ failedQueues σ' = failedQueues σ
    ∧ queueSlots σ' = queueSlots σ.
Proof.
  intros call1 call2 call3 call4 Hplat Htags Hmatch Hne Hmask.
  unfold submitJobs, submitJobs_body, bind, ask. simpl.
  fold call1. rewrite Hplat, Htags. simpl. fold call2. rewrite Hmatch.
  rewrite bool_decide_eq_false_2 by done.
  unfold submitToQueues, getSiteMaskList, bind, ask, modify. simpl.
  fold call3. subst call4.
  destruct (rssFlag cfg); simpl; rewrite Hmask; eexists; by repeat split.
Qed.

(** ** What a cycle does to the failure counters *)

Lemma hoare_getQueueSlots env (P : State → Prop) (Q : Z → State → Prop)
    (R : State → Prop) (queue : string) :
  (∀ σ n slots, P σ →
     Q n (set_queueSlots slots (set_trace (CallQueueSlots queue :: trace σ) σ))) →
  hoare P (getQueueSlots env queue) Q R.
Proof.
  intros H σ HP. unfold getQueueSlots.
  destruct (env_queueSlots _ _ _) as [n slots]. by apply H.
Qed.

Lemma hoare_raise {A} (P : State → Prop) (Q : A → State → Prop)
    (R : State → Prop) (e : PyExc) :
  (∀ σ, P σ → R σ) → hoare P (raise e) Q R.
Proof. intros H σ HP. by apply H. Qed.

(** What keeps through a new call and a new [tqID] keeps through the
    filing of the pilots of a submission. *)
Section Frame.

Variable env : Env.
Variable I : State → Prop.
Hypothesis Htrace : ∀ σ ev, I σ → I (set_trace (ev :: trace σ) σ).
Hypothesis HtqID : ∀ σ t, I σ → I (set_tqID t σ).

Lemma assignPilots_frame sumPriority tqPriorityList pilotList :
  ∀ tqDict,
    hoare I (assignPilots env sumPriority tqPriorityList pilotList tqDict)
          (λ _, I) I.
Proof.
  induction pilotList as [|pilotID rest IH]; intros tqDict; simpl.
  - by apply hoare_ret.
  - eapply (hoare_bind _ (λ _, I)); [apply hoare_ask; intros σ H; by apply Htrace|].
    intros r. eapply (hoare_bind _ (λ _, I)).
    + destruct (selectTQ _ _).
      * apply hoare_modify. intros σ H. by apply HtqID.
      * by apply hoare_ret.
    + intros ?. eapply (hoare_bind _ (λ _, I)); [by apply hoare_get|].
      intros tq. apply IH.
Qed.

Lemma recordGroup_frame q stampDict group :
  hoare I (recordGroup env q stampDict group) (λ _, I) I.
Proof.
  unfold recordGroup.
  eapply (hoare_bind _ (λ _, I));
    [apply hoare_modify; intros σ H; by apply HtqID|].
  intros ?.
  eapply (hoare_bind _ (λ _, I)); [apply hoare_ask; intros σ H; by apply Htrace|].
  intros [?|msg].
  - apply hoare_forEach. intros pilot.
    eapply (hoare_bind _ (λ _, I));
      [apply hoare_ask; intros σ H; by apply Htrace|].
    intros [?|?]; by apply hoare_ret.
  - by apply hoare_ret.
Qed.

(** Lines 336-371: from the priorities to the last pilot written. *)
Lemma filing_frame q stampDict taskQueueDict tagTqIDList pilotList :
  hoare I
    (prio <~ item (priorityList taskQueueDict 0%float tagTqIDList) ;;
     tell CallRandom ;;;
     tqDict <~ assignPilots env prio.2 prio.1 pilotList ∅ ;;
     forEach (map_to_list tqDict) (recordGroup env q stampDict))
    (λ _, I) I.
Proof.
  eapply (hoare_bind _ (λ _, I)).
  { apply hoare_item; [intros a' σ _ H; exact H | by intros σ _ H]. }
  intros prio.
  eapply (hoare_bind _ (λ _, I));
    [apply hoare_tell; intros σ H; by apply Htrace|].
  intros ?.
  eapply (hoare_bind _ (λ _, I)); [apply assignPilots_frame|].
  intros tqDict.
  apply hoare_forEach. intros group. apply recordGroup_frame.
Qed.

End Frame.

(** An assertion that a statement keeps holds in the memory it leaves. *)
Lemma hoare_final {A} (I : State → Prop) (m : M A) (σ : State) :
  hoare I m (λ _, I) I → I σ → I (m σ).2.
Proof.
  intros H HI. specialize (H σ HI). by destruct (m σ) as [[a|r|e|] σ'].
Qed.

Section Counters.

Variable env : Env.
Variable cfg : Config.
Variable P : gmap string Z → Prop.

Local Abbreviation I := (λ σ : State, P (failedQueues σ)).

Lemma assignPilots_counters sumPriority tqPriorityList pilotList tqDict :
  hoare I (assignPilots env sumPriority tqPriorityList pilotList tqDict)
        (λ _, I) I.
Proof. apply assignPilots_frame; intros σ ? H; exact H. Qed.

Lemma recordGroup_counters q stampDict group :
  hoare I (recordGroup env q stampDict group) (λ _, I) I.
Proof. apply recordGroup_frame; intros σ ? H; exact H. Qed.

Lemma submitOnce_counters queue q taskQueueDict tagTqIDList processors :
  countingKeeps env P queue →
  hoare I (submitOnce env queue q taskQueueDict tagTqIDList processors)
        (λ _, I) I.
Proof.
  intros Hcount. unfold submitOnce.
  eapply (hoare_bind _ (λ _, I)); [apply hoare_get; intros σ H; exact H|].
  intros n.
  eapply (hoare_bind _ (λ _, I)); [apply hoare_ask; intros σ H; exact H|].
  intros [[executable chunk]|msg]; [|by apply hoare_return].
  eapply (hoare_bind _ (λ result σ,
            I σ ∧ (neverRefuses env → isOK result = true))).
  { apply hoare_ask. intros σ H. split; [exact H|]. intros Hnever. apply Hnever. }
  intros result.
  eapply (hoare_bind _ (λ _ σ, I σ ∧ (neverRefuses env → isOK result = true))).
  { destruct (bool_decide _); [apply hoare_tell | apply hoare_ret];
      by intros σ H. }
  intros ?. destruct result as [submission|msg].
  - eapply (hoare_bind _ (λ _, I));
      [apply hoare_modify; intros σ [H _]; exact H|]. intros ?.
    eapply (hoare_bind _ (λ _, I)); [apply hoare_modify; intros σ H; exact H|].
    intros ?.
    eapply (hoare_bind _ (λ _, I)); [apply hoare_get; intros σ H; exact H|].
    intros slots.
    eapply (hoare_bind _ (λ _, I)).
    { apply hoare_item; [intros a' σ _ H; exact H | by intros σ _ H]. }
    intros slots'.
    eapply (hoare_bind _ (λ _, I)); [apply hoare_modify; intros σ H; exact H|].
    intros ?.
    eapply (hoare_bind _ (λ _, I)); [apply hoare_modify; intros σ H; exact H|].
    intros ?.
    eapply (hoare_bind _ (λ _, I)).
    { apply hoare_item; [intros a' σ _ H; exact H | by intros σ _ H]. }
    intros prio.
    eapply (hoare_bind _ (λ _, I)); [apply hoare_tell; intros σ H; exact H|].
    intros ?.
    eapply (hoare_bind _ (λ _, I)); [apply assignPilots_counters|].
    intros tqDict.
    apply hoare_forEach. intros group. apply recordGroup_counters.
  - destruct Hcount as [Hkeep | Hnever].
    + eapply (hoare_bind _ (λ _, I));
        [apply hoare_modify; intros σ [H _]; exact H|]. intros ?.
      eapply (hoare_bind _ (λ _, I)).
      { apply hoare_modify. intros σ H. by apply (Hkeep σ). }
      intros ?. by apply hoare_ret.
    + intros σ [_ H]. by specialize (H Hnever).
Qed.

Lemma submitLoop_counters fuel queue q taskQueueDict tagTqIDList processors :
  countingKeeps env P queue →
  hoare I (submitLoop env fuel queue q taskQueueDict tagTqIDList processors)
        (λ _, I) I.
Proof.
  intros Hcount. induction fuel as [|fuel IH]; simpl.
  - eapply (hoare_bind _ (λ _, I)); [apply hoare_get; intros σ H; exact H|].
    intros n. destruct (0 <? n); [by apply hoare_outOfFuel | by apply hoare_ret].
  - eapply (hoare_bind _ (λ _, I)); [apply hoare_get; intros σ H; exact H|].
    intros n. destruct (0 <? n); [|by apply hoare_ret].
    eapply (hoare_bind _ (λ _, I)); [by apply submitOnce_counters|].
    intros ?. apply IH.
Qed.

Lemma processTag_counters fuel queue q queueCPUTime taskQueueDict byTag totals tag :
  countingKeeps env P queue →
  hoare I (processTag env cfg fuel queue q queueCPUTime taskQueueDict byTag
             totals tag) (λ _, I) I.
Proof.
  intros Hcount. unfold processTag.
  eapply (hoare_bind _ (λ _, I)).
  { apply hoare_item; [intros a' σ _ H; exact H | by intros σ _ H]. }
  intros tagTQJobs.
  eapply (hoare_bind _ (λ _, I)).
  { apply hoare_item; [intros a' σ _ H; exact H | by intros σ _ H]. }
  intros tagTqIDList.
  eapply (hoare_bind _ (λ _, I)).
  { unfold countWaitingPilots. destruct (pilotWaitingFlag cfg).
    - eapply (hoare_bind _ (λ _, I)); [apply hoare_ask; intros σ H; exact H|].
      intros ?. by apply hoare_ret.
    - by apply hoare_ret. }
  intros tagWaitingPilots.
  destruct (tagTQJobs <=? tagWaitingPilots); [by apply hoare_ret|].
  eapply (hoare_bind _ (λ _, I)); [apply hoare_ask; intros σ H; exact H|].
  intros [p|msg]; [|by apply hoare_return].
  eapply (hoare_bind _ (λ _, I)); [apply hoare_modify; intros σ H; exact H|].
  intros ?.
  eapply (hoare_bind _ (λ _, I)); [apply hoare_tell; intros σ H; exact H|].
  intros ?.
  eapply (hoare_bind _ (λ _, I));
    [apply hoare_getQueueSlots; intros σ n slots H; exact H|].
  intros totalSlots. unfold submitToTag.
  destruct (totalSlots =? 0); [by apply hoare_ret|].
  eapply (hoare_bind _ (λ _, I)); [apply hoare_modify; intros σ H; exact H|].
  intros ?. by apply submitLoop_counters.
Qed.

(** A queue that is not left out for its failures. *)
Lemma processEligibleQueue_counters queueDict fuel demand siteMaskList queue :
  countingKeeps env P queue →
  hoare I (processEligibleQueue env cfg queueDict fuel demand siteMaskList queue)
        (λ _, I) I.
Proof.
  intros Hcount. unfold processEligibleQueue.
  eapply (hoare_bind _ (λ _, I)).
  { apply hoare_item; [intros a' σ _ H; exact H | by intros σ _ H]. }
  intros q.
  eapply (hoare_bind _ (λ _, I)).
  { apply hoare_item; [intros a' σ _ H; exact H | by intros σ _ H]. }
  intros queueTags.
  destruct (_ && _); [by apply hoare_ret|].
  destruct (_ && _); [by apply hoare_ret|].
  destruct (pCPUTime _) as [cpu|]; [|by apply hoare_ret].
  destruct (py_int cpu) as [cpuTime|]; [|by apply hoare_raise].
  eapply (hoare_bind _ (λ _, I)); [apply hoare_ask; intros σ H; exact H|].
  intros [platform|msg]; [|by apply hoare_ret].
  unfold matchAndSubmit.
  eapply (hoare_bind _ (λ _, I)); [apply hoare_ask; intros σ H; exact H|].
  intros [taskQueueDict|msg]; [|by apply hoare_return].
  destruct (bool_decide _); [by apply hoare_ret|].
  eapply (hoare_bind _ (λ _, I)); [apply hoare_modify; intros σ H; exact H|].
  intros ?.
  eapply (hoare_bind _ (λ _, I)); [apply hoare_modify; intros σ H; exact H|].
  intros ?. apply hoare_forEach. intros tag. by apply processTag_counters.
Qed.

(** Any queue, left out or not. *)
Lemma processQueue_counters queueDict fuel demand siteMaskList queue :
  (∀ σ, P (failedQueues σ) → P (failedQueues (bump queue σ))) →
  hoare I (processQueue env cfg queueDict fuel demand siteMaskList queue)
        (λ _, I) I.
Proof.
  intros Hkeep. unfold processQueue.
  destruct (bool_decide _); [by apply hoare_raise|].
  eapply (hoare_bind _ (λ _, I)); [apply hoare_get; intros σ H; exact H|].
  intros [|].
  - eapply (hoare_bind _ (λ _, I)).
    { apply hoare_modify. intros σ H. by apply (Hkeep σ). }
    intros ?. by apply hoare_ret.
  - apply processEligibleQueue_counters. by left.
Qed.

(** The whole of [submitJobs]. *)
Lemma submitJobs_counters queueDict fuel :
  (∀ queue σ, P (failedQueues σ) → P (failedQueues (bump queue σ))) →
  hoare I (submitJobs env cfg queueDict fuel) (λ _, I) I.
Proof.
  intros Hkeep. unfold submitJobs.
  eapply (hoare_bind _ (λ _, I)); [|intros ?; by apply hoare_return].
  unfold submitJobs_body.
  eapply (hoare_bind _ (λ _, I)); [apply hoare_ask; intros σ H; exact H|].
  intros [platform|msg]; [|by apply hoare_return].
  eapply (hoare_bind _ (λ _, I)).
  { apply hoare_item; [intros a' σ _ H; exact H | by intros σ _ H]. }
  intros tags.
  eapply (hoare_bind _ (λ _, I)); [apply hoare_ask; intros σ H; exact H|].
  intros [value|msg]; [|by apply hoare_return].
  destruct (bool_decide _); [by apply hoare_return|].
  unfold submitToQueues.
  eapply (hoare_bind _ (λ _, I)); [apply hoare_modify; intros σ H; exact H|].
  intros ?.
  eapply (hoare_bind _ (λ _, I)); [apply hoare_ask; intros σ H; exact H|].
  intros ?.
  eapply (hoare_bind _ (λ _, I)).
  { unfold getSiteMaskList. destruct (rssFlag cfg).
    - eapply (hoare_bind _ (λ _, I)); [apply hoare_ask; intros σ H; exact H|].
      intros [l|msg]; [by apply hoare_ret | by apply hoare_return].
    - eapply (hoare_bind _ (λ _, I)); [apply hoare_ask; intros σ H; exact H|].
      intros [l|msg]; [by apply hoare_ret | by apply hoare_return]. }
  intros siteMaskList.
  eapply (hoare_bind _ (λ _, I)); [apply hoare_ask; intros σ H; exact H|].
  intros queues.
  eapply (hoare_bind _ (λ _, I)); [apply hoare_modify; intros σ H; exact H|].
  intros ?.
  eapply (hoare_bind _ (λ _, I)); [apply hoare_modify; intros σ H; exact H|].
  intros ?. apply hoare_forEach. intros queue.
  apply processQueue_counters. apply Hkeep.
Qed.

End Counters.

(** X9. Processing a queue in a cycle changes the failure counter of no
    other queue, and lowers no counter at all. *)
Theorem processQueue_counters_isolated (env : Env) (cfg : Config)
    (queueDict : gmap string Queue) (fuel : nat) (demand : Demand)
    (siteMaskList : list string) (queue other : string) (σ : State) :
  let σ' := (processQueue env cfg queueDict fuel demand siteMaskList queue σ).2 in
  (other ≠ queue → failedCounter σ' other = failedCounter σ other)
  ∧ failedCounter σ other ≤ failedCounter σ' other.
Proof.
  split.
  - intros Hne.
    apply (hoare_final (λ s, default 0 (failedQueues s !! other)
                             = failedCounter σ other)); [|done].
    apply (processQueue_counters env cfg
             (λ f, default 0 (f !! other) = failedCounter σ other)).
    intros s Hs. change (failedCounter (bump queue s) other = failedCounter σ other).
    by rewrite failedCounter_bump_ne.
  - apply (hoare_final (λ s, failedCounter σ other
                             ≤ default 0 (failedQueues s !! other))); [|done].
    apply (processQueue_counters env cfg
             (λ f, failedCounter σ other ≤ default 0 (f !! other))).
    intros s Hs. change (failedCounter σ other ≤ failedCounter s other) in Hs.
    change (failedCounter σ other ≤ failedCounter (bump queue s) other).
    destruct (decide (other = queue)) as [->|Hne].
    + rewrite failedCounter_bump. lia.
    + by rewrite failedCounter_bump_ne.
Qed.

(** X10. When the computing element refuses no submission, the processing
    of a queue that was not left out for its failures leaves all the
    failure counters as they were, however it ends: an empty answer of the
    matcher, a missing proxy or a failing bundle count no failure. *)
Theorem eligible_queue_counts_no_failure (env : Env) (cfg : Config)
    (queueDict : gmap string Queue) (fuel : nat) (demand : Demand)
    (siteMaskList : list string) (queue : string) (σ : State) :
  neverRefuses env →
  failedQueues
    (processEligibleQueue env cfg queueDict fuel demand siteMaskList queue σ).2
  = failedQueues σ.
Proof.
  intros Hnever.
  apply (hoare_final (λ s, failedQueues s = failedQueues σ)); [|done].
  apply (processEligibleQueue_counters env cfg (λ f, f = failedQueues σ)).
  by right.
Qed.

(** X23. Over a whole cycle no failure counter goes down, however the
    cycle ends. *)
Theorem cycle_counters_never_decrease (env : Env) (cfg : Config)
    (queueDict : gmap string Queue) (fuel : nat) (queue : string) (σ : State) :
  failedCounter σ queue
  ≤ failedCounter (submitJobs env cfg queueDict fuel σ).2 queue.
Proof.
  apply (hoare_final (λ s, failedCounter σ queue
                           ≤ default 0 (failedQueues s !! queue))); [|done].
  apply (submitJobs_counters env cfg
           (λ f, failedCounter σ queue ≤ default 0 (f !! queue))).
  intros q s Hs. change (failedCounter σ queue ≤ failedCounter s queue) in Hs.
  change (failedCounter σ queue ≤ failedCounter (bump q s) queue).
  destruct (decide (queue = q)) as [->|Hne].
  - rewrite failedCounter_bump. lia.
  - by rewrite failedCounter_bump_ne.
Qed.

(** ** The end of the submission loop *)

Lemma usesNoFuel_bind {A B} (m : M A) (k : A → M B) :
  usesNoFuel m → (∀ a, usesNoFuel (k a)) → usesNoFuel (bind m k).
Proof.
  intros Hm Hk σ. unfold bind. specialize (Hm σ).
  destruct (m σ) as [[a|r|e|] σ']; simpl in *; try done. apply Hk.
Qed.

Lemma usesNoFuel_forEach {A} (l : list A) (body : A → M unit) :
  (∀ x, usesNoFuel (body x)) → usesNoFuel (forEach l body).
Proof.
  intros Hbody. induction l as [|x l IH]; simpl; [done|].
  apply usesNoFuel_bind; [apply Hbody | intros ?; apply IH].
Qed.

Lemma usesNoFuel_item {A} (o : option A) : usesNoFuel (item o).
Proof. by destruct o. Qed.

Lemma assignPilots_usesNoFuel env sumPriority tqPriorityList pilotList :
  ∀ tqDict,
    usesNoFuel (assignPilots env sumPriority tqPriorityList pilotList tqDict).
Proof.
  induction pilotList as [|pilotID rest IH]; intros tqDict; simpl; [done|].
  apply usesNoFuel_bind; [done|]. intros r.
  apply usesNoFuel_bind; [by destruct (selectTQ _ _)|]. intros ?.
  apply usesNoFuel_bind; [done|]. intros tq. apply IH.
Qed.

Lemma recordGroup_usesNoFuel env q stampDict group :
  usesNoFuel (recordGroup env q stampDict group).
Proof.
  unfold recordGroup. apply usesNoFuel_bind; [done|]. intros ?.
  apply usesNoFuel_bind; [done|]. intros [?|?]; [|done].
  apply usesNoFuel_forEach. intros pilot.
  apply usesNoFuel_bind; [done|]. by intros [?|?].
Qed.

Lemma submitOnce_usesNoFuel env queue q taskQueueDict tagTqIDList processors :
  usesNoFuel (submitOnce env queue q taskQueueDict tagTqIDList processors).
Proof.
  unfold submitOnce. apply usesNoFuel_bind; [done|]. intros n.
  apply usesNoFuel_bind; [done|]. intros [[executable chunk]|msg]; [|done].
  apply usesNoFuel_bind; [done|]. intros result.
  apply usesNoFuel_bind; [by destruct (bool_decide _)|]. intros ?.
  destruct result as [submission|msg].
  - do 3 (apply usesNoFuel_bind; [done|]; intros ?).
    apply usesNoFuel_bind; [apply usesNoFuel_item|]. intros ?.
    do 2 (apply usesNoFuel_bind; [done|]; intros ?).
    apply usesNoFuel_bind; [apply usesNoFuel_item|]. intros prio.
    apply usesNoFuel_bind; [done|]. intros ?.
    apply usesNoFuel_bind; [apply assignPilots_usesNoFuel|]. intros tqDict.
    apply usesNoFuel_forEach. intros group. apply recordGroup_usesNoFuel.
  - do 2 (apply usesNoFuel_bind; [done|]; intros ?). done.
Qed.

Lemma hoare_weaken {A} (P : State → Prop) (m : M A) (Q Q' : A → State → Prop)
    (R R' : State → Prop) :
  hoare P m Q R → (∀ a σ, Q a σ → Q' a σ) → (∀ σ, R σ → R' σ) →
  hoare P m Q' R'.
Proof.
  intros H HQ HR σ HP. specialize (H σ HP).
  destruct (m σ) as [[a|r|e|] σ']; auto.
Qed.

(** A turn of the loop leaves at least one pilot less to submit. *)
Lemma submitOnce_progress env queue q taskQueueDict tagTqIDList processors
    (n : Z) :
  executableNotEmpty env →
  hoare (λ σ, pilotsToSubmit σ = n ∧ 0 < n)
        (submitOnce env queue q taskQueueDict tagTqIDList processors)
        (λ _ σ, pilotsToSubmit σ ≤ n - 1) (λ _, True).
Proof.
  intros Hexe. unfold submitOnce.
  set (J := λ σ : State, pilotsToSubmit σ ≤ n - 1).
  eapply (hoare_bind _ (λ _ σ, pilotsToSubmit σ = n ∧ 0 < n));
    [apply hoare_get; intros σ H; exact H|].
  intros n'.
  eapply (hoare_bind _ (λ result σ,
            (pilotsToSubmit σ = n ∧ 0 < n)
            ∧ ∀ executable chunk, result = S_OK (executable, chunk) → 1 ≤ chunk)).
  { apply hoare_ask. intros σ H. split; [exact H|].
    intros executable chunk Hr. by eapply Hexe. }
  intros [[executable chunk]|msg]; [|by apply hoare_return].
  eapply (hoare_bind _ (λ _ σ, (pilotsToSubmit σ = n ∧ 0 < n) ∧ 1 ≤ chunk)).
  { apply hoare_ask. intros σ [H Hc]. split; [exact H|]. by eapply Hc. }
  intros result.
  eapply (hoare_bind _ (λ _ σ, (pilotsToSubmit σ = n ∧ 0 < n) ∧ 1 ≤ chunk)).
  { destruct (bool_decide _); [apply hoare_tell | apply hoare_ret];
      by intros σ H. }
  intros ?. destruct result as [submission|msg].
  - eapply (hoare_bind _ (λ _, J)).
    { apply hoare_modify. intros σ [[H1 H2] H3]. subst J. fields. lia. }
    intros ?.
    eapply (hoare_bind _ (λ _, J)); [apply hoare_modify; intros σ H; exact H|].
    intros ?.
    eapply (hoare_bind _ (λ _, J)); [apply hoare_get; intros σ H; exact H|].
    intros slots.
    eapply (hoare_bind _ (λ _, J)).
    { apply hoare_item; [intros a' σ _ H; exact H | done]. }
    intros slots'.
    eapply (hoare_bind _ (λ _, J)); [apply hoare_modify; intros σ H; exact H|].
    intros ?.
    eapply (hoare_bind _ (λ _, J)); [apply hoare_modify; intros σ H; exact H|].
    intros ?.
    assert (Htrace : ∀ σ ev, J σ → J (set_trace (ev :: trace σ) σ))
      by (by intros).
    assert (HtqID : ∀ σ t, J σ → J (set_tqID t σ)) by (by intros).
    eapply hoare_weaken;
      [apply (filing_frame env J Htrace HtqID) | by intros | done].
  - eapply (hoare_bind _ (λ _, J)).
    { apply hoare_modify. intros σ [[H1 H2] H3]. subst J. fields. lia. }
    intros ?.
    eapply (hoare_bind _ (λ _, J)); [apply hoare_modify; intros σ H; exact H|].
    intros ?. by apply hoare_ret.
Qed.

Lemma submitLoop_finishes env queue q taskQueueDict tagTqIDList processors :
  executableNotEmpty env →
  ∀ fuel σ,
    pilotsToSubmit σ ≤ Z.of_nat fuel →
    (submitLoop env fuel queue q taskQueueDict tagTqIDList processors σ).1
    ≠ OutOfFuel.
Proof.
  intros Hexe. induction fuel as [|fuel IH]; intros σ Hfuel; cbn [submitLoop];
    unfold bind at 1, get.
  - rewrite (proj2 (Z.ltb_ge 0 (pilotsToSubmit σ))) by lia. done.
  - destruct (0 <? pilotsToSubmit σ) eqn:Hpos; [|done].
    apply Z.ltb_lt in Hpos.
    pose proof (submitOnce_progress env queue q taskQueueDict tagTqIDList
                  processors (pilotsToSubmit σ) Hexe σ (conj eq_refl Hpos)) as Hstep.
    pose proof (submitOnce_usesNoFuel env queue q taskQueueDict tagTqIDList
                  processors σ) as Hno.
    unfold bind.
    destruct (submitOnce _ _ _ _ _ _ σ) as [[[]|r|e|] σ1]; simpl in *;
      try done.
    apply IH. lia.
Qed.

(** X11. When every bundle is made for at least one pilot, the submission
    loop of a tag ends after at most as many turns as pilots are wanted:
    with that much fuel, lines 287-371 never stop for want of fuel. *)
Theorem submission_loop_ends (env : Env) (cfg : Config) (fuel : nat)
    (queue : string) (q : Queue) (taskQueueDict : gmap Z TaskQueue)
    (tagTqIDList : list Z)
    (processors totalSlots tagTQJobs tagWaitingPilots : Z) (σ : State) :
  executableNotEmpty env →
  tagBudget (maxPilotsToSubmit cfg) (queueSubmittedPilots σ) totalSlots
            tagTQJobs tagWaitingPilots ≤ Z.of_nat fuel →
  (submitToTag env cfg fuel queue q taskQueueDict tagTqIDList processors
     totalSlots tagTQJobs tagWaitingPilots σ).1 ≠ OutOfFuel.
Proof.
  intros Hexe Hfuel. unfold submitToTag.
  destruct (totalSlots =? 0); [done|].
  unfold bind at 1, modify. by apply submitLoop_finishes.
Qed.

(** X12. When every bundle is made for no pilot at all and the computing
    element accepts it, a turn of the loop changes nothing: as soon as one
    pilot is wanted the loop never ends (no amount of fuel suffices). *)
Theorem empty_bundles_never_end (env : Env) (fuel : nat) (queue : string)
    (q : Queue) (taskQueueDict : gmap Z TaskQueue) (tagTqIDList : list Z)
    (processors : Z) (tqPriorityList : list (Z * float)) (sumPriority : float)
    (σ : State) :
  emptySubmissions env →
  priorityList taskQueueDict 0%float tagTqIDList
  = Some (tqPriorityList, sumPriority) →
  0 < pilotsToSubmit σ →
  is_Some (queueSlots σ !! queue) →
  (submitLoop env fuel queue q taskQueueDict tagTqIDList processors σ).1
  = OutOfFuel.
Proof.
  intros [Hexe Hsub] Hprio. revert σ.
  induction fuel as [|fuel IH]; intros σ Hpos [slots Hslots];
    cbn [submitLoop]; unfold bind at 1, get;
    rewrite (proj2 (Z.ltb_lt 0 (pilotsToSubmit σ)) Hpos); [done|].
  set (call1 := CallGetExecutable queue (pilotsToSubmit σ)
                  (default false (BundleProxy q))
                  (default "" (pHttpProxy (Parameters q)))
                  (default "" (pJobExecDir (Parameters q)))).
  destruct (Hexe (trace σ) queue (pilotsToSubmit σ)
              (default false (BundleProxy q))
              (default "" (pHttpProxy (Parameters q)))
              (default "" (pJobExecDir (Parameters q)))) as [executable Hexe1].
  destruct (Hsub (call1 :: trace σ) queue executable 0 processors)
    as [stamps Hsub1].
  unfold bind at 1.
  assert (Hstep : ∃ σ1,
            submitOnce env queue q taskQueueDict tagTqIDList processors σ
            = (Next tt, σ1)
            ∧ pilotsToSubmit σ1 = pilotsToSubmit σ
            ∧ is_Some (queueSlots σ1 !! queue)).
  { unfold submitOnce, bind, get, ask, tell, modify, item, ret.
    cbn beta iota zeta. subst call1. rewrite Hexe1. simpl.
    simpl in Hsub1. rewrite Hsub1.
    destruct (bool_decide (CEType q ≠ "HTCondorCE")); simpl;
      rewrite Hslots; simpl; rewrite Hprio; simpl;
      rewrite map_to_list_empty; simpl; eexists;
      (split; [reflexivity|]); simpl;
      (split; [lia | rewrite lookup_insert_eq; by eexists]). }
  destruct Hstep as (σ1 & -> & Hpts & Hs1).
  apply IH; [lia | done].
Qed.

(** ** The ceiling of a queue and the slots of a queue *)

Section Ceiling.

Variable env : Env.
Variable cfg : Config.

Local Abbreviation C :=
  (λ σ : State, queueSubmittedPilots σ ≤ Z.max 0 (maxPilotsToSubmit cfg)).

Lemma submitToTag_ceiling fuel queue q taskQueueDict tagTqIDList processors
    totalSlots tagTQJobs tagWaitingPilots :
  executableWithinRequest env →
  hoare C (submitToTag env cfg fuel queue q taskQueueDict tagTqIDList
             processors totalSlots tagTQJobs tagWaitingPilots) (λ _, C) C.
Proof.
  intros Hexe σ HC. unfold submitToTag.
  destruct (totalSlots =? 0); [exact HC|].
  unfold bind at 1, modify.
  set (budget := tagBudget (maxPilotsToSubmit cfg) (queueSubmittedPilots σ)
                           totalSlots tagTQJobs tagWaitingPilots).
  pose proof (submitLoop_budget env (queueSubmittedPilots σ)
                (totalSubmittedPilots σ) budget False fuel queue q
                taskQueueDict tagTqIDList processors Hexe
                ltac:(intros []) (set_pilotsToSubmit budget σ)) as Hloop.
  assert (Hbudget : budget ≤ maxPilotsToSubmit cfg - queueSubmittedPilots σ)
    by (subst budget; unfold tagBudget; lia).
  assert (Hstart : withinBudget (queueSubmittedPilots σ)
                     (totalSubmittedPilots σ) budget False
                     (set_pilotsToSubmit budget σ)).
  { split; [fields; lia | intros []]. }
  specialize (Hloop Hstart).
  destruct (submitLoop _ _ _ _ _ _ _ _) as [[a|r|e|] σ'];
    destruct Hloop as [Hloop _]; lia.
Qed.

Lemma processTag_ceiling fuel queue q queueCPUTime taskQueueDict byTag totals tag :
  executableWithinRequest env →
  hoare C (processTag env cfg fuel queue q queueCPUTime taskQueueDict byTag
             totals tag) (λ _, C) C.
Proof.
  intros Hexe. unfold processTag.
  eapply (hoare_bind _ (λ _, C)).
  { apply hoare_item; [intros a' σ _ H; exact H | by intros σ _ H]. }
  intros tagTQJobs.
  eapply (hoare_bind _ (λ _, C)).
  { apply hoare_item; [intros a' σ _ H; exact H | by intros σ _ H]. }
  intros tagTqIDList.
  eapply (hoare_bind _ (λ _, C)).
  { unfold countWaitingPilots. destruct (pilotWaitingFlag cfg).
    - eapply (hoare_bind _ (λ _, C)); [apply hoare_ask; intros σ H; exact H|].
      intros ?. by apply hoare_ret.
    - by apply hoare_ret. }
  intros tagWaitingPilots.
  destruct (tagTQJobs <=? tagWaitingPilots); [by apply hoare_ret|].
  eapply (hoare_bind _ (λ _, C)); [apply hoare_ask; intros σ H; exact H|].
  intros [p|msg]; [|by apply hoare_return].
  eapply (hoare_bind _ (λ _, C)); [apply hoare_modify; intros σ H; exact H|].
  intros ?.
  eapply (hoare_bind _ (λ _, C)); [apply hoare_tell; intros σ H; exact H|].
  intros ?.
  eapply (hoare_bind _ (λ _, C));
    [apply hoare_getQueueSlots; intros σ n slots H; exact H|].
  intros totalSlots. by apply submitToTag_ceiling.
Qed.

End Ceiling.

(** X13. Once the query for a queue has found task queues, the pilots
    counted for the queue, all its tags together, never exceed the maximum
    of pilots to submit (lines 240-331), however the loop over the tags
    ends; the bundles are sized to at most the pilots asked for. *)
Theorem queue_submissions_within_maximum (env : Env) (cfg : Config)
    (fuel : nat) (queue : string) (q : Queue) (siteMask : bool)
    (processorTags : list string) (queueCPUTime : Z) (platform : list string)
    (taskQueueDict : gmap Z TaskQueue) (σ : State) :
  executableWithinRequest env →
  env_matcher env
    (CallMatcher (ceDict cfg q siteMask platform processorTags) :: trace σ)
  = S_OK taskQueueDict →
  taskQueueDict ≠ ∅ →
  queueSubmittedPilots
    (matchAndSubmit env cfg fuel queue q siteMask processorTags queueCPUTime
       platform σ).2
  ≤ Z.max 0 (maxPilotsToSubmit cfg).
Proof.
  intros Hexe Hmatch Hne. unfold matchAndSubmit.
  unfold bind at 1, ask. rewrite Hmatch.
  rewrite bool_decide_eq_false_2 by done.
  unfold bind at 1, modify. unfold bind at 1.
  apply (hoare_final
           (λ σ, queueSubmittedPilots σ ≤ Z.max 0 (maxPilotsToSubmit cfg))).
  - apply hoare_forEach. intros tag. by apply processTag_ceiling.
  - simpl. lia.
Qed.

Section Slots.

Variable env : Env.
Variable queue : string.
Variable slots0 : gmap string Z.
Variable t0 : Z.

Local Abbreviation K :=
  (λ σ : State,
     queueSlots σ
     = alter (λ s, s - (totalSubmittedPilots σ - t0)) queue slots0).

Lemma submitOnce_slots q taskQueueDict tagTqIDList processors :
  hoare K (submitOnce env queue q taskQueueDict tagTqIDList processors)
        (λ _, K) K.
Proof.
  unfold submitOnce.
  eapply (hoare_bind _ (λ _, K)); [apply hoare_get; intros σ H; exact H|].
  intros n.
  eapply (hoare_bind _ (λ _, K)); [apply hoare_ask; intros σ H; exact H|].
  intros [[executable chunk]|msg]; [|by apply hoare_return].
  eapply (hoare_bind _ (λ _, K)); [apply hoare_ask; intros σ H; exact H|].
  intros result.
  eapply (hoare_bind _ (λ _, K)).
  { destruct (bool_decide _); [apply hoare_tell | apply hoare_ret];
      by intros σ H. }
  intros ?. destruct result as [submission|msg].
  - eapply (hoare_bind _ (λ _, K)); [apply hoare_modify; intros σ H; exact H|].
    intros ?.
    eapply (hoare_bind _ (λ _, K)); [apply hoare_modify; intros σ H; exact H|].
    intros ?.
    eapply (hoare_bind _ (λ slots σ, K σ ∧ slots = queueSlots σ !! queue)).
    { apply hoare_get. by intros σ H. }
    intros slots.
    eapply (hoare_bind _ (λ slots' σ, K σ ∧ queueSlots σ !! queue = Some slots')).
    { apply hoare_item.
      - intros a' σ -> [H Hs]. by split.
      - by intros σ _ [H _]. }
    intros slots'.
    eapply (hoare_bind _ (λ _ σ,
              queueSlots σ
              = alter (λ s, s - (totalSubmittedPilots σ
                                 + Z.of_nat (length (pilotRefs submission))
                                 - t0)) queue slots0)).
    { apply hoare_modify. intros σ [H Hs]. fields.
      rewrite H in Hs |- *. rewrite lookup_alter_eq in Hs.
      destruct (slots0 !! queue) as [s|] eqn:Hs0; [|done].
      simpl in Hs. injection Hs as <-.
      apply map_eq. intros k. destruct (decide (k = queue)) as [->|Hk].
      - rewrite lookup_insert_eq, lookup_alter_eq, Hs0. simpl. f_equal. lia.
      - rewrite lookup_insert_ne by done.
        by rewrite !lookup_alter_ne by done. }
    intros ?.
    eapply (hoare_bind _ (λ _, K)).
    { apply hoare_modify. intros σ H. fields. exact H. }
    intros ?.
    assert (Htrace : ∀ σ ev, K σ → K (set_trace (ev :: trace σ) σ))
      by (by intros).
    assert (HtqID : ∀ σ t, K σ → K (set_tqID t σ)) by (by intros).
    apply (filing_frame env K Htrace HtqID).
  - eapply (hoare_bind _ (λ _, K)); [apply hoare_modify; intros σ H; exact H|].
    intros ?.
    eapply (hoare_bind _ (λ _, K)); [apply hoare_modify; intros σ H; exact H|].
    intros ?. by apply hoare_ret.
Qed.

Lemma submitLoop_slots fuel q taskQueueDict tagTqIDList processors :
  hoare K (submitLoop env fuel queue q taskQueueDict tagTqIDList processors)
        (λ _, K) K.
Proof.
  induction fuel as [|fuel IH]; simpl.
  - eapply (hoare_bind _ (λ _, K)); [apply hoare_get; intros σ H; exact H|].
    intros n. destruct (0 <? n); [by apply hoare_outOfFuel | by apply hoare_ret].
  - eapply (hoare_bind _ (λ _, K)); [apply hoare_get; intros σ H; exact H|].
    intros n. destruct (0 <? n); [|by apply hoare_ret].
    eapply (hoare_bind _ (λ _, K)); [apply submitOnce_slots|].
    intros ?. apply IH.
Qed.

End Slots.

(** X14. However the submission loop of a tag ends, the free slots kept
    for the queue have fallen by exactly the number of pilot identities
    added to the total of the cycle, and the slots of the other queues are
    as before (lines 330-331); an entry that is missing is not created. *)
Theorem slots_fall_with_pilots (env : Env) (fuel : nat) (queue : string)
    (q : Queue) (taskQueueDict : gmap Z TaskQueue) (tagTqIDList : list Z)
    (processors : Z) (σ : State) :
  queueSlots
    (submitLoop env fuel queue q taskQueueDict tagTqIDList processors σ).2
  = alter (λ s, s - (totalSubmittedPilots
                       (submitLoop env fuel queue q taskQueueDict tagTqIDList
                          processors σ).2
                     - totalSubmittedPilots σ))
          queue (queueSlots σ).
Proof.
  apply (hoare_final
           (λ σ', queueSlots σ'
                  = alter (λ s, s - (totalSubmittedPilots σ'
                                     - totalSubmittedPilots σ))
                          queue (queueSlots σ))).
  - apply submitLoop_slots.
  - apply map_eq. intros k. destruct (decide (k = queue)) as [->|Hk].
    + rewrite lookup_alter_eq. destruct (queueSlots σ !! queue); simpl; [|done].
      f_equal. lia.
    + by rewrite lookup_alter_ne by done.
Qed.

(** ** The pilots of a submission and their task queues *)

Lemma concat_perm {A} (l1 l2 : list (list A)) :
  l1 ≡ₚ l2 → concat l1 ≡ₚ concat l2.
Proof.
  induction 1 as [|x l l' _ IH|x y l|l l' l'' _ IH1 _ IH2]; simpl.
  - done.
  - by rewrite IH.
  - rewrite !app_assoc. f_equiv. apply Permutation_app_comm.
  - by rewrite IH1.
Qed.

Lemma filedPilots_appendPilot (tqDict : gmap Z (list string)) (tq : Z)
    (pilotID : string) :
  filedPilots (appendPilot tqDict tq pilotID) ≡ₚ pilotID :: filedPilots tqDict.
Proof.
  unfold filedPilots, appendPilot.
  destruct (tqDict !! tq) as [l|] eqn:E; simpl.
  - rewrite <- insert_delete_eq.
    rewrite (concat_perm _ _
               (fmap_Permutation snd _ _
                  (map_to_list_insert (delete tq tqDict) tq (l ++ [pilotID])
                     (lookup_delete_eq tqDict tq)))).
    rewrite <- (concat_perm _ _
                  (fmap_Permutation snd _ _
                     (map_to_list_delete tqDict tq l E))).
    simpl. rewrite <- app_assoc. simpl.
    by rewrite <- Permutation_middle.
  - by rewrite (concat_perm _ _
                  (fmap_Permutation snd _ _
                     (map_to_list_insert tqDict tq [pilotID] E))).
Qed.

(** Sharing the pilots: no failure, no pilot lost or repeated, and no
    record written to the pilot database. *)
Lemma assignPilots_files (env : Env) (sumPriority : float)
    (tqPriorityList : list (Z * float)) (pilotList : list string) :
  ∀ (tqDict : gmap Z (list string)) (σ : State),
    ∃ tqDict' σ',
      assignPilots env sumPriority tqPriorityList pilotList tqDict σ
      = (Next tqDict', σ')
      ∧ filedPilots tqDict' ≡ₚ pilotList ++ filedPilots tqDict
      ∧ recordedPilots (trace σ') = recordedPilots (trace σ).
Proof.
  induction pilotList as [|pilotID rest IH]; intros tqDict σ; simpl.
  - by exists tqDict, σ.
  - unfold bind at 1, ask. unfold bind at 1.
    set (σ1 := set_trace (CallRandom :: trace σ) σ).
    set (choice := selectTQ _ _).
    assert (Hchoice : ∃ σ2,
              match choice with
              | Some tq => modify (set_tqID tq)
              | None => ret tt
              end σ1 = (Next tt, σ2)
              ∧ trace σ2 = CallRandom :: trace σ)
      by (destruct choice; by eexists).
    destruct Hchoice as (σ2 & -> & Htrace). unfold bind at 1, get.
    destruct (IH (appendPilot tqDict (tqID σ2) pilotID) σ2)
      as (tqDict' & σ' & -> & Hperm & Hrec).
    exists tqDict', σ'. split; [done|]. split.
    + rewrite Hperm, filedPilots_appendPilot. by rewrite Permutation_middle.
    + by rewrite Hrec, Htrace.
Qed.

(** X15. Sharing the pilots of a submission among the task queues
    (lines 343-351) never fails and neither loses nor repeats a pilot: the
    pilots filed afterwards are the ones filed before and the ones of the
    submission, each exactly once, whatever is drawn. *)
Theorem assignPilots_files_every_pilot (env : Env) (sumPriority : float)
    (tqPriorityList : list (Z * float)) (pilotList : list string)
    (tqDict : gmap Z (list string)) (σ : State) :
  ∃ tqDict' σ',
    assignPilots env sumPriority tqPriorityList pilotList tqDict σ
    = (Next tqDict', σ')
    ∧ filedPilots tqDict' ≡ₚ pilotList ++ filedPilots tqDict.
Proof.
  destruct (assignPilots_files env sumPriority tqPriorityList pilotList
              tqDict σ) as (tqDict' & σ' & Hrun & Hperm & _).
  by exists tqDict', σ'.
Qed.

(** Setting the status of the pilots writes no record. *)
Lemma setPilotStatus_records (env : Env) (q : Queue) (pilots : list string) :
  ∀ σ, ∃ σ',
    forEach pilots (λ pilot,
      result <~ ask env (CallSetPilotStatus pilot (CEName q) (Site q) (QueueName q))
                    env_setPilotStatus ;;
      match result with
      | S_ERROR _ => continue
      | S_OK _ => ret tt
      end) σ = (Next tt, σ')
    ∧ recordedPilots (trace σ') = recordedPilots (trace σ).
Proof.
  induction pilots as [|pilot pilots IH]; intros σ; simpl.
  - by exists σ.
  - unfold bind at 1. unfold bind at 1, ask.
    set (σ1 := set_trace _ σ).
    assert (Hσ1 : recordedPilots (trace σ1) = recordedPilots (trace σ)) by done.
    clearbody σ1.
    destruct (IH σ1) as (σ' & Hrun & Hrec).
    exists σ'. rewrite <- Hσ1, <- Hrec.
    destruct (env_setPilotStatus env _); (split; [exact Hrun | reflexivity]).
Qed.

(** Writing the pilots of one task queue adds one record, whatever the
    pilot database answers. *)
Lemma recordGroup_records (env : Env) (q : Queue)
    (stampDict : list (string * string)) (group : Z * list string) (σ : State) :
  ∃ σ',
    recordGroup env q stampDict group σ = (Next tt, σ')
    ∧ recordedPilots (trace σ') = (group.2, group.1) :: recordedPilots (trace σ).
Proof.
  unfold recordGroup. unfold bind at 1, modify. unfold bind at 1, ask.
  set (σ1 := set_trace _ _).
  assert (Hσ1 : recordedPilots (trace σ1)
                = (group.2, group.1) :: recordedPilots (trace σ)) by done.
  destruct (env_addPilotTQReference env _) as [?|?]; [|by exists σ1].
  clearbody σ1.
  destruct (setPilotStatus_records env q group.2 σ1) as (σ' & Hrun & Hrec).
  exists σ'. split; [exact Hrun | by rewrite Hrec].
Qed.

Lemma forEach_recordGroup (env : Env) (q : Queue)
    (stampDict : list (string * string)) (groups : list (Z * list string)) :
  ∀ σ, ∃ σ',
    forEach groups (recordGroup env q stampDict) σ = (Next tt, σ')
    ∧ concat (recordedPilots (trace σ')).*1
      ≡ₚ concat groups.*2 ++ concat (recordedPilots (trace σ)).*1.
Proof.
  induction groups as [|group groups IH]; intros σ; simpl.
  - by exists σ.
  - destruct (recordGroup_records env q stampDict group σ) as (σ1 & Hrun & Hrec).
    unfold bind at 1. rewrite Hrun.
    destruct (IH σ1) as (σ' & -> & Hperm). exists σ'. split; [done|].
    rewrite Hperm, Hrec. simpl.
    rewrite !app_assoc.
    apply Permutation_app; [apply Permutation_app_comm | done].
Qed.

(** X24. A turn of the submission loop whose submission is accepted hands
    every pilot of the submission to the pilot database exactly once
    (lines 325-362): the pilots of the records written so far are those
    written before and those of the submission, whatever is drawn and
    whatever the pilot database answers. *)
Theorem accepted_pilots_are_recorded (env : Env) (queue : string) (q : Queue)
    (taskQueueDict : gmap Z TaskQueue) (tagTqIDList : list Z)
    (processors : Z) (σ : State) (executable : string) (chunk slots : Z)
    (submission : Submission) (tqPriorityList : list (Z * float))
    (sumPriority : float) :
  env_getExecutable env
    (CallGetExecutable queue (pilotsToSubmit σ)
       (default false (BundleProxy q))
       (default "" (pHttpProxy (Parameters q)))
       (default "" (pJobExecDir (Parameters q))) :: trace σ)
  = S_OK (executable, chunk) →
  env_submitJob env
    (CallSubmitJob queue executable chunk processors
       :: CallGetExecutable queue (pilotsToSubmit σ)
            (default false (BundleProxy q))
            (default "" (pHttpProxy (Parameters q)))
            (default "" (pJobExecDir (Parameters q))) :: trace σ)
  = S_OK submission →
  queueSlots σ !! queue = Some slots →
  priorityList taskQueueDict 0%float tagTqIDList
  = Some (tqPriorityList, sumPriority) →
  ∃ σ',
    submitOnce env queue q taskQueueDict tagTqIDList processors σ
    = (Next tt, σ')
    ∧ concat (recordedPilots (trace σ')).*1
      ≡ₚ pilotRefs submission ++ concat (recordedPilots (trace σ)).*1.
Proof.
  intros Hexe Hsub Hslots Hprio.
  unfold submitOnce. unfold bind at 1, get. unfold bind at 1, ask.
  rewrite Hexe. unfold bind at 1, ask. cbn [trace set_trace]. rewrite Hsub.
  set (σ1 := set_trace _ (set_trace _ σ)).
  assert (Hσ1 : recordedPilots (trace σ1) = recordedPilots (trace σ)
                ∧ queueSlots σ1 !! queue = Some slots) by done.
  clearbody σ1. unfold bind at 1.
  set (unlink := if bool_decide (CEType q ≠ "HTCondorCE")
                 then tell (CallUnlink executable) else ret tt).
  assert (Hunlink : ∃ σ2, unlink σ1 = (Next tt, σ2)
                          ∧ recordedPilots (trace σ2) = recordedPilots (trace σ)
                          ∧ queueSlots σ2 !! queue = Some slots).
  { subst unlink. destruct (bool_decide _); eexists; (split; [done|]);
      [apply Hσ1 | apply Hσ1]. }
  destruct Hunlink as (σ2 & -> & Hrec2 & Hslots2).
  unfold bind at 1, modify. unfold bind at 1. unfold bind at 1, get.
  cbn [queueSlots set_queueSubmittedPilots set_pilotsToSubmit].
  rewrite Hslots2. unfold bind at 1, item. unfold bind at 1.
  unfold bind at 1. rewrite Hprio. unfold bind at 1, item.
  unfold bind at 1, tell. cbn [fst snd].
  unfold ret. cbn beta iota zeta. cbn [fst snd].
  set (σ3 := set_trace (CallRandom :: _) _).
  assert (Hσ3 : recordedPilots (trace σ3) = recordedPilots (trace σ))
    by (subst σ3; simpl; exact Hrec2).
  clearbody σ3.
  destruct (assignPilots_files env sumPriority tqPriorityList
              (pilotRefs submission) ∅ σ3)
    as (tqDict' & σ4 & Hassign & Hperm & Hrec4).
  unfold bind at 1. rewrite Hassign.
  destruct (forEach_recordGroup env q (default [] (pilotStampDict submission))
              (map_to_list tqDict') σ4) as (σ' & -> & Hrec').
  exists σ'. split; [done|].
  rewrite Hrec', Hrec4, Hσ3. f_equiv.
  change (concat (map_to_list tqDict').*2) with (filedPilots tqDict').
  rewrite Hperm. unfold filedPilots. rewrite map_to_list_empty. simpl.
  by rewrite app_nil_r.
Qed.

(** ** The task queues of the tags of a queue *)

Lemma jobsOf_snoc (taskQueueDict : gmap Z TaskQueue) (ids : list Z) (tq : Z) :
  jobsOf taskQueueDict (ids ++ [tq])
  = jobsOf taskQueueDict ids + default 0 (tqJobs <$> taskQueueDict !! tq).
Proof. induction ids as [|i ids IH]; simpl; [lia | rewrite IH; lia]. Qed.

Section Partition.

Variable processorTags : list string.
Variable taskQueueDict : gmap Z TaskQueue.

Local Abbreviation partitioned := (partitioned processorTags taskQueueDict).

Lemma tagStep_partitioned done tq t seen acc tag :
  taskQueueDict !! tq = Some t →
  tag ∈ processorTags →
  partitioned done tq seen acc →
  partitioned done tq (seen ++ [tag]) (tagStep tq (tqJobs t) acc tag).
Proof.
  intros Htq Htag [Hjobs Hids]. split.
  - intros tag'. unfold tagStep. simpl.
    destruct (decide (tag' = tag)) as [->|Hne].
    + rewrite !lookup_insert_eq. simpl. rewrite jobsOf_snoc, Htq. simpl.
      rewrite (Hjobs tag). by destruct (acc.1 !! tag).
    + rewrite !lookup_insert_ne by done. apply Hjobs.
  - intros tag' i. unfold tagStep. simpl.
    destruct (decide (tag' = tag)) as [->|Hne].
    + rewrite lookup_insert_eq. split.
      * intros (ids & [= <-] & Hi). split; [done|].
        apply elem_of_app in Hi as [Hi | Hi%list_elem_of_singleton].
        -- destruct (acc.1 !! tag) as [ids|] eqn:E; simpl in Hi;
             [|by apply elem_of_nil in Hi].
           destruct (proj1 (Hids tag i)) as [_ [H | [-> H]]]; [by eexists|..].
           ++ by left.
           ++ right. split; [done|]. apply elem_of_app. by left.
        -- right. split; [done|]. apply elem_of_app. right.
           by apply list_elem_of_singleton.
      * intros [_ H]. eexists. split; [done|]. apply elem_of_app.
        destruct H as [H | [-> H]].
        -- left. destruct (proj2 (Hids tag i)) as (ids & -> & Hi);
             [split; [done | by left] | done].
        -- apply elem_of_app in H as [H | H].
           ++ left. destruct (proj2 (Hids tag tq)) as (ids & -> & Hi);
                [split; [done | by right] | done].
           ++ right. by apply list_elem_of_singleton.
    + rewrite lookup_insert_ne by done. rewrite (Hids tag' i).
      split; intros [H1 H2]; (split; [done|]);
        destruct H2 as [H2 | [-> H2]]; [by left | | by left |].
      * right. split; [done|]. apply elem_of_app. by left.
      * right. split; [done|].
        apply elem_of_app in H2 as [H2 | H2%list_elem_of_singleton];
          [done | congruence].
Qed.

Lemma tagSteps_partitioned done tq t tags :
  taskQueueDict !! tq = Some t →
  (∀ tag, tag ∈ tags → tag ∈ processorTags) →
  ∀ seen acc,
    partitioned done tq seen acc →
    partitioned done tq (seen ++ tags) (foldl (tagStep tq (tqJobs t)) acc tags).
Proof.
  intros Htq. induction tags as [|tag tags IH]; intros Hin seen acc Hacc; simpl.
  - by rewrite app_nil_r.
  - rewrite (assoc_L (++) seen [tag] tags : seen ++ tag :: tags = _).
    apply IH; [intros tag' H; apply Hin; by right|].
    apply tagStep_partitioned; [done | apply Hin; by left | done].
Qed.

Lemma partitionStep_partitioned done e acc :
  taskQueueDict !! e.1 = Some e.2 →
  partitioned done e.1 [] acc →
  ∀ tq, partitioned (done ++ [e]) tq [] (partitionStep processorTags acc e).
Proof.
  intros He Hacc tq. unfold partitionStep.
  destruct e as [i t]. simpl in *.
  destruct (tqTags t) as [tags|] eqn:Etags.
  - pose proof (tagSteps_partitioned done i t
                  (filter (λ tag, tag ∈ processorTags) tags) He
                  ltac:(by intros tag [H _]%list_elem_of_filter) [] acc Hacc)
      as [Hjobs Hids].
    split; [done|]. intros tag j. rewrite (Hids tag j). simpl.
    split; intros [H1 H2]; (split; [done|]).
    + left. destruct H2 as [(t' & tags' & Hd & Ht & Htag) | [-> H2]].
      * exists t', tags'. split; [apply elem_of_app; by left | done].
      * apply list_elem_of_filter in H2 as [_ H2].
        exists t, tags. split; [|done]. apply elem_of_app. right.
        by apply list_elem_of_singleton.
    + destruct H2 as [(t' & tags' & Hd & Ht & Htag) | [_ H2]];
        [|by apply elem_of_nil in H2].
      apply elem_of_app in Hd as [Hd | Hd%list_elem_of_singleton].
      * left. by exists t', tags'.
      * injection Hd as -> ->. right. split; [done|].
        apply list_elem_of_filter. split; [done|]. congruence.
  - destruct Hacc as [Hjobs Hids]. split; [done|].
    intros tag j. rewrite (Hids tag j).
    split; intros [H1 H2]; (split; [done|]); left.
    + destruct H2 as [(t' & tags' & Hd & Ht & Htag) | [_ H2]];
        [|by apply elem_of_nil in H2].
      exists t', tags'. split; [apply elem_of_app; by left | done].
    + destruct H2 as [(t' & tags' & Hd & Ht & Htag) | [_ H2]];
        [|by apply elem_of_nil in H2].
      apply elem_of_app in Hd as [Hd | Hd%list_elem_of_singleton].
      * by exists t', tags'.
      * injection Hd as -> ->. congruence.
Qed.

Lemma partitionSteps_partitioned l :
  (∀ e, e ∈ l → taskQueueDict !! e.1 = Some e.2) →
  ∀ done acc,
    (∀ tq, partitioned done tq [] acc) →
    ∀ tq, partitioned (done ++ l) tq []
            (foldl (partitionStep processorTags) acc l).
Proof.
  induction l as [|e l IH]; intros Hl done acc Hacc; simpl.
  - by rewrite app_nil_r.
  - rewrite (assoc_L (++) done [e] l : done ++ e :: l = _).
    apply IH; [intros e' H; apply Hl; by right|].
    apply partitionStep_partitioned; [apply Hl; by left | apply Hacc].
Qed.

End Partition.

(** X16. The sorting of the task queues of a queue by processor tag
    (lines 219-235): a task queue is listed under a tag exactly when the
    tag is one of the processor tags of the queue and one of the tags of
    the task queue, and the jobs counted for a tag are the jobs of the
    task queues listed under it. *)
Theorem partition_by_tag_exact (processorTags : list string)
    (taskQueueDict : gmap Z TaskQueue) :
  (∀ tag tq,
     (∃ ids, (partitionByTag processorTags taskQueueDict).1 !! tag = Some ids
             ∧ tq ∈ ids)
     ↔ tag ∈ processorTags
       ∧ ∃ t tags, taskQueueDict !! tq = Some t ∧ tqTags t = Some tags
                   ∧ tag ∈ tags)
  ∧ (∀ tag,
       (partitionByTag processorTags taskQueueDict).2 !! tag
       = jobsOf taskQueueDict
         <$> (partitionByTag processorTags taskQueueDict).1 !! tag).
Proof.
  assert (Hstart : ∀ tq, partitioned processorTags taskQueueDict [] tq []
                           ((∅, ∅) : gmap string (list Z) * gmap string Z)).
  { intros tq. split; [intros tag; simpl; by rewrite !lookup_empty|].
    intros tag i. simpl. rewrite lookup_empty. split.
    - by intros (ids & [=] & _).
    - intros [_ [(t & tags & H & _) | [_ H]]]; by apply elem_of_nil in H. }
  pose proof (partitionSteps_partitioned processorTags taskQueueDict
                (map_to_list taskQueueDict)
                ltac:(by intros [i t] H%elem_of_map_to_list) [] _ Hstart 0)
    as [Hjobs Hids].
  split; [|exact Hjobs].
  intros tag tq. unfold partitionByTag. rewrite (Hids tag tq). simpl.
  split; intros [H1 H2]; (split; [done|]).
  - destruct H2 as [(t & tags & H & Ht & Htag) | [_ H]];
      [|by apply elem_of_nil in H].
    exists t, tags. by apply elem_of_map_to_list in H.
  - destruct H2 as (t & tags & H & Ht & Htag). left.
    exists t, tags. by apply elem_of_map_to_list in H.
Qed.

(** * The administrator service *)

(** ** The summary of the site mask *)

Lemma configuredSites_ok (getSections : string → Result (list string))
    (grids : list string) :
  Forall (λ grid, isOK (getSections ("/Resources/Sites/" +:+ grid)) = true)
         grids →
  ∀ sites, ∃ sites',
    configuredSites getSections grids sites = S_OK sites'
    ∧ ∀ site, site ∈ sites'
              ↔ site ∈ sites
                ∨ ∃ grid value, grid ∈ grids
                    ∧ getSections ("/Resources/Sites/" +:+ grid) = S_OK value
                    ∧ site ∈ value.
Proof.
  induction 1 as [|grid grids Hgrid _ IH]; intros sites; simpl.
  - exists sites. split; [done|]. intros site. split; [by left|].
    intros [H | (grid & value & H & _)]; [done | by apply elem_of_nil in H].
  - destruct (getSections _) as [value|msg] eqn:E; [|done].
    destruct (IH (sites ++ value)) as (sites' & -> & Hsites).
    exists sites'. split; [done|]. intros site. rewrite (Hsites site).
    rewrite elem_of_app. split.
    + intros [[H | H] | (grid' & value' & H1 & H2 & H3)].
      * by left.
      * right. exists grid, value. split; [by left | done].
      * right. exists grid', value'. split; [by right | done].
    + intros [H | (grid' & value' & H1 & H2 & H3)]; [by left; left|].
      apply elem_of_cons in H1 as [-> | H1].
      * left. right. congruence.
      * right. by exists grid', value'.
Qed.

Lemma markUnknown_lookup (sites : list string) :
  ∀ (siteDict : gmap string string) (site : string),
    markUnknown siteDict sites !! site
    = match siteDict !! site with
      | Some status => Some status
      | None => if bool_decide (site ∈ sites) then Some "Unknown" else None
      end.
Proof.
  unfold markUnknown.
  induction sites as [|s sites IH]; intros siteDict site; simpl.
  - by destruct (siteDict !! site).
  - rewrite IH. destruct (siteDict !! s) as [status|] eqn:Es.
    + destruct (siteDict !! site) as [status'|] eqn:E; [done|].
      assert (site ≠ s) by congruence.
      destruct (decide (site ∈ sites)) as [Hin | Hin].
      * rewrite !bool_decide_eq_true_2; [done | by right | done].
      * rewrite !bool_decide_eq_false_2; [done | | done].
        by intros [?|?]%elem_of_cons.
    + destruct (decide (site = s)) as [-> | Hne].
      * rewrite lookup_insert_eq, Es.
        rewrite bool_decide_eq_true_2; [done | by left].
      * rewrite lookup_insert_ne by done.
        destruct (siteDict !! site) as [status'|]; [done|].
        destruct (decide (site ∈ sites)) as [Hin | Hin].
        -- rewrite !bool_decide_eq_true_2; [done | by right | done].
        -- rewrite !bool_decide_eq_false_2; [done | | done].
           by intros [?|?]%elem_of_cons.
Qed.

(** X17. When the sections of the sites can all be read and the site mask
    answers, the summary holds every site of the mask with its status,
    every other configured site as 'Unknown', and nothing else
    (lines 145-168). *)
Theorem site_mask_summary_complete
    (getSections : string → Result (list string))
    (grids : list string) (mask : gmap string string) :
  getSections "/Resources/Sites" = S_OK grids →
  Forall (λ grid, isOK (getSections ("/Resources/Sites/" +:+ grid)) = true)
         grids →
  ∃ siteDict,
    export_getSiteMaskSummary getSections (S_OK mask) = Returned (S_OK siteDict)
    ∧ (∀ site status, mask !! site = Some status →
                      siteDict !! site = Some status)
    ∧ (∀ grid value site,
         grid ∈ grids →
         getSections ("/Resources/Sites/" +:+ grid) = S_OK value →
         site ∈ value → mask !! site = None →
         siteDict !! site = Some "Unknown")
    ∧ (∀ site, is_Some (siteDict !! site) →
               is_Some (mask !! site)
               ∨ ∃ grid value,
                   grid ∈ grids
                   ∧ getSections ("/Resources/Sites/" +:+ grid) = S_OK value
                   ∧ site ∈ value).
Proof.
  intros Hroot Hgrids. unfold export_getSiteMaskSummary. rewrite Hroot.
  destruct (configuredSites_ok getSections grids Hgrids [])
    as (sites & -> & Hsites).
  eexists. split; [done|]. split; [|split].
  - intros site status H. by rewrite markUnknown_lookup, H.
  - intros grid value site H1 H2 H3 H. rewrite markUnknown_lookup, H.
    rewrite bool_decide_eq_true_2; [done|].
    apply Hsites. right. by exists grid, value.
  - intros site. rewrite markUnknown_lookup.
    destruct (mask !! site) as [status|]; [by left|].
    destruct (decide (site ∈ sites)) as [Hin | Hin].
    + intros _. right. apply Hsites in Hin as [Hin | Hin]; [|done].
      by apply elem_of_nil in Hin.
    + rewrite bool_decide_eq_false_2 by done. by intros [? [=]].
Qed.

Lemma configuredSites_failure (getSections : string → Result (list string))
    (before : list string) (grid : string) (after : list string)
    (msg : string) :
  Forall (λ grid, isOK (getSections ("/Resources/Sites/" +:+ grid)) = true)
         before →
  getSections ("/Resources/Sites/" +:+ grid) = S_ERROR msg →
  ∀ sites,
    configuredSites getSections (before ++ grid :: after) sites = S_ERROR msg.
Proof.
  intros Hbefore Hgrid.
  induction Hbefore as [|g before Hg _ IH]; intros sites; simpl.
  - by rewrite Hgrid.
  - destruct (getSections ("/Resources/Sites/" +:+ g)); [apply IH | done].
Qed.

(** X18. The first section of a grid that cannot be read ends the summary
    with the error of the configuration, whatever the site mask answers
    (lines 155-158). *)
Theorem site_mask_summary_unread_section
    (getSections : string → Result (list string))
    (getSiteMaskStatus : Result (gmap string string))
    (before : list string) (grid : string) (after : list string)
    (msg : string) :
  getSections "/Resources/Sites" = S_OK (before ++ grid :: after) →
  Forall (λ grid, isOK (getSections ("/Resources/Sites/" +:+ grid)) = true)
         before →
  getSections ("/Resources/Sites/" +:+ grid) = S_ERROR msg →
  export_getSiteMaskSummary getSections getSiteMaskStatus
  = Returned (S_ERROR msg).
Proof.
  intros Hroot Hbefore Hgrid. unfold export_getSiteMaskSummary.
  rewrite Hroot. by rewrite (configuredSites_failure _ _ _ _ msg).
Qed.

(** ** The counters of the pilots *)

Lemma pilotCounters_lookup (resultDay : list CounterRow) (status : string) :
  Forall (λ row : CounterRow, is_Some (row.1 !! "Status")) resultDay →
  ∀ (rows : list CounterRow) (resultDict : gmap string Z) (found : option Z),
    Forall (λ row : CounterRow, is_Some (row.1 !! "Status")) rows →
    resultDict !! status
    = (λ count, if bool_decide (status ∈ FINAL_STATES)
                then firstDayCount resultDay status else count) <$> found →
    ∃ resultDict',
      pilotCounters resultDay rows resultDict = Returned resultDict'
      ∧ resultDict' !! status
        = (λ count, if bool_decide (status ∈ FINAL_STATES)
                    then firstDayCount resultDay status else count)
          <$> foldl (λ found (row : CounterRow),
                       if bool_decide (row.1 !! "Status" = Some status)
                       then Some row.2 else found) found rows.
Proof.
  intros Hday rows.
  induction rows as [|[statusDict count] rows IH];
    intros resultDict found Hrows Hfound; simpl.
  - by exists resultDict.
  - apply Forall_cons in Hrows as [[s Hs] Hrows]. simpl in Hs. rewrite Hs.
    destruct (bool_decide (s ∈ FINAL_STATES)) eqn:Hfinal.
    + assert (Hstep : ∃ resultDict1,
                dayCounter s resultDay
                  (<[s := 0]> (<[s := count]> resultDict))
                = Returned resultDict1
                ∧ resultDict1 !! s = Some (firstDayCount resultDay s)
                ∧ ∀ other, other ≠ s →
                           resultDict1 !! other = resultDict !! other).
      { unfold dayCounter, firstDayCount.
        destruct Hday as [|[statusDayDict ccount] resultDay' [sd Hsd] _].
        - eexists. split; [done|]. split; [by rewrite lookup_insert_eq|].
          intros other Hne. by rewrite !lookup_insert_ne.
        - simpl in Hsd. rewrite Hsd. eexists. split; [done|].
          destruct (decide (s = sd)) as [-> | Hne].
          + rewrite !bool_decide_eq_true_2 by done.
            split; [by rewrite lookup_insert_eq|].
            intros other Hne. by rewrite !lookup_insert_ne.
          + rewrite !bool_decide_eq_false_2 by congruence.
            split; [by rewrite lookup_insert_eq|].
            intros other Hne'. by rewrite !lookup_insert_ne. }
      destruct Hstep as (resultDict1 & -> & Hs1 & Hother).
      apply IH; [done|]. cbn [fst snd].
      destruct (decide (s = status)) as [-> | Hne].
      * rewrite (bool_decide_eq_true_2 (Some status = Some status)) by done.
        simpl.
        by rewrite Hs1, Hfinal.
      * rewrite (bool_decide_eq_false_2 (Some s = Some status))
          by congruence.
        by rewrite Hother.
    + apply IH; [done|]. cbn [fst snd].
      destruct (decide (s = status)) as [-> | Hne].
      * rewrite (bool_decide_eq_true_2 (Some status = Some status)) by done.
        simpl.
        by rewrite lookup_insert_eq, Hfinal.
      * rewrite (bool_decide_eq_false_2 (Some s = Some status))
          by congruence.
        by rewrite lookup_insert_ne.
Qed.

(** X19. The counters of the pilots by status (lines 173-198), every row
    of the two answers having its status: a status that is not final is
    given with its count; a final status is given with the count of the
    first row of the last day if that row is for this status, and with 0
    otherwise, whatever the later rows of the last day say; a status
    without a row is not in the answer. *)
Theorem pilot_counters_by_status
    (getCounters : option Z → Result (list CounterRow)) (now day : Z)
    (rows resultDay : list CounterRow) :
  getCounters None = S_OK rows →
  getCounters (Some (now - day)) = S_OK resultDay →
  Forall (λ row : CounterRow, is_Some (row.1 !! "Status")) rows →
  Forall (λ row : CounterRow, is_Some (row.1 !! "Status")) resultDay →
  ∃ resultDict,
    export_getCurrentPilotCounters getCounters now day
    = Returned (S_OK resultDict)
    ∧ ∀ status,
        resultDict !! status
        = (λ count, if bool_decide (status ∈ FINAL_STATES)
                    then firstDayCount resultDay status else count)
          <$> lastCount rows status.
Proof.
  intros Hall Hlast Hrows Hday. unfold export_getCurrentPilotCounters.
  rewrite Hall. simpl. rewrite Hlast.
  assert (Hdict : ∀ status, ∃ resultDict,
            pilotCounters resultDay rows ∅ = Returned resultDict
            ∧ resultDict !! status
              = (λ count, if bool_decide (status ∈ FINAL_STATES)
                          then firstDayCount resultDay status else count)
                <$> lastCount rows status).
  { intros status.
    apply (pilotCounters_lookup resultDay status Hday rows ∅ None Hrows).
    by rewrite lookup_empty. }
  destruct (Hdict "") as (resultDict & Hrun & _). rewrite Hrun.
  exists resultDict. split; [done|]. intros status.
  destruct (Hdict status) as (resultDict' & Hrun' & Hlookup). congruence.
Qed.

(** ** The selectors of the site summary *)

Lemma length_split (sep : ascii) (s : string) :
  length (split sep s) = S (count_char sep s).
Proof.
  induction s as [|c r IH]; simpl; [done|].
  destruct (Ascii.eqb c sep); simpl; [by rewrite IH|].
  destruct (split sep r) as [|part parts]; simpl in *; [done | lia].
Qed.

Lemma has_char_count (c : ascii) (s : string) :
  has_char c s = true ↔ (0 < count_char c s)%nat.
Proof.
  induction s as [|c' r IH]; simpl; [split; [done | lia]|].
  destruct (Ascii.eqb c' c); simpl; [split; [lia | done] | done].
Qed.

Lemma split_third (sep : ascii) (s : string) :
  is_Some (split sep s !! 2%nat) ↔ (2 ≤ count_char sep s)%nat.
Proof. rewrite lookup_lt_is_Some, length_split. lia. Qed.

(** The loop over the sites ends with [IndexError] exactly when a site
    has one dot. *)
Lemma countries_raises (siteList : list string) :
  ∀ countryList,
    countries siteList countryList = Raised SvcIndexError
    ↔ ∃ site, site ∈ siteList ∧ count_char "." site = 1%nat.
Proof.
  induction siteList as [|site rest IH]; intros countryList; simpl.
  - split; [done|]. by intros (site & H%elem_of_nil & _).
  - pose proof (has_char_count "." site) as Hdot.
    pose proof (split_third "." site) as Hthird.
    destruct (has_char "." site).
    + destruct (split "." site !! 2%nat) as [part|] eqn:E.
      * rewrite IH. split.
        -- intros (s & H1 & H2). exists s. split; [by right | done].
        -- intros (s & [-> | H1]%elem_of_cons & H2); [|by exists s].
           assert (2 ≤ count_char "." site)%nat
             by (apply Hthird; by eexists).
           lia.
      * split; [intros _ | done]. exists site. split; [by left|].
        assert (0 < count_char "." site)%nat by by apply Hdot.
        assert (¬ (2 ≤ count_char "." site)%nat)
          by (intros H'; apply Hthird in H' as [? [=]]).
        lia.
    + rewrite IH. split.
      * intros (s & H1 & H2). exists s. split; [by right | done].
      * intros (s & [-> | H1]%elem_of_cons & H2); [|by exists s].
        assert (¬ (0 < count_char "." site)%nat)
          by (intros H'; by apply Hdot in H').
        lia.
Qed.

Lemma countries_returns (siteList : list string) :
  ∀ countryList,
    NoDup countryList →
    (∀ site, site ∈ siteList → count_char "." site ≠ 1%nat) →
    ∃ countryList',
      countries siteList countryList = Returned countryList'
      ∧ NoDup countryList'
      ∧ ∀ country,
          country ∈ countryList'
          ↔ country ∈ countryList
            ∨ ∃ site part, site ∈ siteList
                ∧ split "." site !! 2%nat = Some part
                ∧ country = lower part.
Proof.
  induction siteList as [|site rest IH]; intros countryList Hnodup Hsites;
    simpl.
  - exists countryList. split; [done|]. split; [done|].
    intros country. split; [by left|].
    intros [H | (site & part & H%elem_of_nil & _)]; done.
  - pose proof (has_char_count "." site) as Hdot.
    pose proof (split_third "." site) as Hthird.
    assert (Hrest : ∀ s, s ∈ rest → count_char "." s ≠ 1%nat)
      by (intros s H; apply Hsites; by right).
    destruct (has_char "." site).
    + destruct (split "." site !! 2%nat) as [part|] eqn:E.
      * set (countryList1 :=
               if bool_decide (lower part ∈ countryList) then countryList
               else countryList ++ [lower part]).
        assert (Hnodup1 : NoDup countryList1).
        { subst countryList1. destruct (decide (lower part ∈ countryList)).
          - by rewrite bool_decide_eq_true_2.
          - rewrite bool_decide_eq_false_2 by done.
            apply NoDup_app. split; [done|]. split; [|apply NoDup_singleton].
            intros x Hx ->%list_elem_of_singleton. done. }
        assert (Hin1 : ∀ country, country ∈ countryList1
                                  ↔ country ∈ countryList ∨ country = lower part).
        { intros country. subst countryList1.
          destruct (decide (lower part ∈ countryList)).
          - rewrite bool_decide_eq_true_2 by done.
            split; [by left | by intros [? | ->]].
          - rewrite bool_decide_eq_false_2 by done.
            by rewrite elem_of_app, list_elem_of_singleton. }
        destruct (IH countryList1 Hnodup1 Hrest)
          as (countryList' & -> & Hnodup' & Hin').
        exists countryList'. split; [done|]. split; [done|].
        intros country. rewrite (Hin' country), (Hin1 country). split.
        -- intros [[H | ->] | (s & p & H1 & H2 & H3)].
           ++ by left.
           ++ right. exists site, part. split; [by left | done].
           ++ right. exists s, p. split; [by right | done].
        -- intros [H | (s & p & [-> | H1]%elem_of_cons & H2 & H3)].
           ++ by left; left.
           ++ left. right. congruence.
           ++ right. by exists s, p.
      * exfalso.
        assert (0 < count_char "." site)%nat by by apply Hdot.
        assert (¬ (2 ≤ count_char "." site)%nat)
          by (intros H'; apply Hthird in H' as [? [=]]).
        apply (Hsites site); [by left | lia].
    + destruct (IH countryList Hnodup Hrest)
        as (countryList' & -> & Hnodup' & Hin').
      exists countryList'. split; [done|]. split; [done|].
      intros country. rewrite (Hin' country). split.
      * intros [H | (s & p & H1 & H2 & H3)]; [by left|].
        right. exists s, p. split; [by right | done].
      * intros [H | (s & p & [-> | H1]%elem_of_cons & H2 & H3)]; [by left | |].
        -- assert (2 ≤ count_char "." site)%nat
             by (apply Hthird; by eexists).
           assert (¬ (0 < count_char "." site)%nat)
             by (intros H'; by apply Hdot in H').
           lia.
        -- right. by exists s, p.
Qed.

#[local] Instance string_le_total : Total string_le.
Proof. intros a b. apply String.leb_total. Qed.

(** X20. The selectors of the site summary fail with [IndexError] exactly
    when a site read from the configuration has one dot in its name
    (lines 468-470). *)
Theorem selectors_one_dot_raises
    (getSections : string → Result (list string)) :
  export_getSiteSummarySelectors getSections = Raised SvcIndexError
  ↔ ∃ site,
      site ∈ selectorSites getSections
               (match getSections "Resources/Sites/" with
                | S_OK value => value
                | S_ERROR _ => []
                end)
      ∧ count_char "." site = 1%nat.
Proof.
  unfold export_getSiteSummarySelectors. cbv zeta.
  rewrite <- (countries_raises _ []).
  destruct (countries _ []) as [countryList|e]; [done|].
  by destruct e.
Qed.

(** X21. When no site read from the configuration has exactly one dot
    in its name, the selectors are returned: the countries are the
    lower-cased third parts of the names of the sites, each once and in
    order, and the sites are the sites read, in order (lines 455-476). *)
Theorem selectors_countries_and_sites
    (getSections : string → Result (list string)) (gridTypes : list string) :
  getSections "Resources/Sites/" = S_OK gridTypes →
  (∀ site, site ∈ selectorSites getSections gridTypes →
           count_char "." site ≠ 1%nat) →
  ∃ selectors,
    export_getSiteSummarySelectors getSections = Returned (S_OK selectors)
    ∧ selGridType selectors = gridTypes
    ∧ Sorted string_le (selCountry selectors)
    ∧ NoDup (selCountry selectors)
    ∧ (∀ country,
         country ∈ selCountry selectors
         ↔ ∃ site part, site ∈ selectorSites getSections gridTypes
             ∧ split "." site !! 2%nat = Some part
             ∧ country = lower part)
    ∧ Sorted string_le (selSite selectors)
    ∧ selSite selectors ≡ₚ selectorSites getSections gridTypes.
Proof.
  intros Hroot Hsites. unfold export_getSiteSummarySelectors. cbv zeta.
  rewrite Hroot.
  destruct (countries_returns (selectorSites getSections gridTypes) []
              (NoDup_nil_2) Hsites) as (countryList & -> & Hnodup & Hin).
  eexists. split; [done|]. simpl. split; [done|].
  split; [apply Sorted_merge_sort, _|].
  split; [unfold sort; by rewrite merge_sort_Permutation|].
  split.
  - intros country. unfold sort. rewrite merge_sort_Permutation.
    rewrite (Hin country). split; [|by right].
    by intros [H%elem_of_nil | H].
  - split; [apply Sorted_merge_sort, _ | apply merge_sort_Permutation].
Qed.

(** * The loader of the monitoring types *)

Section TypeLoaderFacts.

Variable Class : Type.
Variable loadObjects : nat → gmap string Class.

Lemma getTypesTimes_app (n m : nat) (self : Loader Class) :
  getTypesTimes Class loadObjects (n + m) self
  = ((getTypesTimes Class loadObjects n self).1
     ++ (getTypesTimes Class loadObjects m
           (getTypesTimes Class loadObjects n self).2).1,
     (getTypesTimes Class loadObjects m
        (getTypesTimes Class loadObjects n self).2).2).
Proof.
  revert self. induction n as [|n IH]; intros self; simpl.
  - by destruct (getTypesTimes _ _ m self).
  - destruct (getTypes Class loadObjects self) as [types self1].
    rewrite IH.
    destruct (getTypesTimes _ _ n self1) as [more self2]. simpl.
    by destruct (getTypesTimes _ _ m self2).
Qed.

Lemma getTypesTimes_loaded (n : nat) (self : Loader Class) :
  loaded self ≠ ∅ →
  getTypesTimes Class loadObjects n self = (replicate n (loaded self), self).
Proof.
  intros Hloaded. induction n as [|n IH]; simpl; [done|].
  unfold getTypes. rewrite bool_decide_eq_false_2 by done. by rewrite IH.
Qed.

Lemma getTypesTimes_empty (k : nat) :
  ∀ j,
    (∀ i, (j ≤ i < j + k)%nat → loadObjects i = ∅) →
    getTypesTimes Class loadObjects k {| loaded := ∅; loads := j |}
    = (replicate k ∅, {| loaded := ∅; loads := (j + k)%nat |}).
Proof.
  induction k as [|k IH]; intros j Hempty; simpl.
  - by rewrite Nat.add_0_r.
  - unfold getTypes. simpl. rewrite bool_decide_eq_true_2 by done.
    rewrite (Hempty j) by lia. rewrite IH by (intros i Hi; apply Hempty; lia).
    by rewrite Nat.add_succ_r.
Qed.

(** X22. The loader looks for the types at every call until some are
    found, and never again afterwards: when the first [k] searches find
    nothing and the next one finds types, any further calls of [getTypes]
    return these types and [loadObjects] has been called [k + 1] times
    (lines 42-48). *)
Theorem types_loaded_until_found (k n : nat) :
  (∀ i, (i < k)%nat → loadObjects i = ∅) →
  loadObjects k ≠ ∅ →
  getTypesTimes Class loadObjects (k + S n) newLoader
  = (replicate k ∅ ++ replicate (S n) (loadObjects k),
     {| loaded := loadObjects k; loads := S k |}).
Proof.
  intros Hempty Hfound. rewrite getTypesTimes_app. unfold newLoader.
  rewrite (getTypesTimes_empty k 0) by (intros i Hi; apply Hempty; lia).
  simpl. unfold getTypes at 1 2. simpl.
  rewrite !bool_decide_eq_true_2 by done.
  rewrite getTypesTimes_loaded by done. done.
Qed.

End TypeLoaderFacts.

(** ** Killing pilots *)

Lemma split_go_field (field : string) :
  has_char "@" field = false →
  ∀ cur rest,
    split_go "@@@" 0 cur (field +:+ rest)
    = split_go "@@@" 0 (cur +:+ field) rest.
Proof.
  induction field as [|c field IH]; intros Hfield cur rest.
  - by rewrite append_nil_l, append_nil_r.
  - simpl in Hfield. apply orb_false_iff in Hfield as [Hc Hfield].
    apply Ascii.eqb_neq in Hc.
    rewrite append_cons. cbn [split_go String.prefix].
    destruct (ascii_dec "@" c) as [Heq | _]; [congruence|].
    rewrite IH by done. by rewrite append_assoc, append_cons, append_nil_l.
Qed.

Lemma split_go_separator (cur rest : string) :
  split_go "@@@" 0 cur ("@@@" +:+ rest)
  = cur :: split_go "@@@" 0 "" rest.
Proof.
  rewrite !append_cons, append_nil_l. cbn [split_go String.prefix].
  destruct (ascii_dec "@" "@") as [_ | Hne]; [|done].
  by destruct rest.
Qed.

(** X27. The key under which [export_killPilot] files a pilot
    (['@@@'.join], line 534) is taken apart again into the same fields
    (split, line 546) when no field holds the character ['@']. *)
Theorem split_join_fields (fields : list string) :
  fields ≠ [] →
  Forall (λ field, has_char "@" field = false) fields →
  split_str "@@@" (join "@@@" fields) = fields.
Proof.
  intros Hne Hfields. unfold split_str.
  induction Hfields as [|field fields Hfield Hfields IH]; [done|].
  destruct fields as [|field' fields].
  - simpl. rewrite <- (append_nil_r field) at 1.
    rewrite (split_go_field field Hfield). by rewrite append_nil_l.
  - change (join "@@@" (field :: field' :: fields))
      with (field +:+ "@@@" +:+ join "@@@" (field' :: fields)).
    rewrite (split_go_field field Hfield). rewrite append_nil_l.
    rewrite split_go_separator. by rewrite IH.
Qed.

Section KillPilotFacts.

Variables QueueDescr CE : Type.
Variable env : KillEnv QueueDescr CE.

Lemma groupedPilots_addPilot (pilotRefDict : gmap string (list string * string))
    (queue pilotReference gridType : string) :
  groupedPilots (addPilot pilotRefDict queue pilotReference gridType)
  ≡ₚ pilotReference :: groupedPilots pilotRefDict.
Proof.
  unfold groupedPilots, addPilot.
  destruct (pilotRefDict !! queue) as [[l g]|] eqn:E; simpl.
  - rewrite <- insert_delete_eq.
    rewrite (concat_perm _ _
               (fmap_Permutation fst _ _
                  (fmap_Permutation snd _ _
                     (map_to_list_insert (delete queue pilotRefDict) queue
                        (l ++ [pilotReference], gridType)
                        (lookup_delete_eq pilotRefDict queue))))).
    rewrite <- (concat_perm _ _
                  (fmap_Permutation fst _ _
                     (fmap_Permutation snd _ _
                        (map_to_list_delete pilotRefDict queue (l, g) E)))).
    simpl. rewrite <- app_assoc. simpl.
    by rewrite <- Permutation_middle.
  - by rewrite (concat_perm _ _
                  (fmap_Permutation fst _ _
                     (fmap_Permutation snd _ _
                        (map_to_list_insert pilotRefDict queue
                           ([pilotReference], gridType) E)))).
Qed.

Local Ltac kill_stops := split; [done | by intros ? [=]].

Local Ltac regroup_stops :=
  split; [done|]; split; [done|]; split; [done|]; by intros ? [=].

(** The sorting of the pilots kills none; it ends with an error, or with
    every pilot filed once and the information of every pilot found. *)
Lemma regroup_spec (pilotRefs : list string) :
  ∀ (pilotRefDict : gmap string (list string * string)) (tr : list (KillEvent QueueDescr CE)),
    killedPilots (regroup env pilotRefs pilotRefDict tr).2 = killedPilots tr
    ∧ refusedPilots env (regroup env pilotRefs pilotRefDict tr).2
      = refusedPilots env tr
    ∧ (regroup env pilotRefs pilotRefDict tr).1 ≠ Return (S_OK tt)
    ∧ ∀ pilotRefDict',
        (regroup env pilotRefs pilotRefDict tr).1 = Next pilotRefDict' →
        groupedPilots pilotRefDict' ≡ₚ pilotRefs ++ groupedPilots pilotRefDict
        ∧ Forall (λ pilotReference,
                    ∃ tr' value,
                      kill_getPilotInfo env (AskPilotInfo pilotReference :: tr')
                      = S_OK value ∧ value ≠ ∅) pilotRefs.
Proof.
  induction pilotRefs as [|pilotReference rest IH]; intros pilotRefDict tr.
  - simpl. split; [done|]. split; [done|]. split; [done|].
    by intros pilotRefDict' [= <-].
  - cbn [regroup].
    destruct (kill_getPilotInfo env (AskPilotInfo pilotReference :: tr))
      as [value|msg] eqn:Einfo; [|regroup_stops].
    destruct (bool_decide (value = ∅)) eqn:Eempty; [regroup_stops|].
    apply bool_decide_eq_false in Eempty.
    destruct (value !! pilotReference) as [pilotDict|]; [|regroup_stops].
    destruct (pilotDict !! "OwnerDN") as [owner|]; [|regroup_stops].
    destruct (pilotDict !! "OwnerGroup") as [group|]; [|regroup_stops].
    destruct (pilotDict !! "GridSite") as [site|]; [|regroup_stops].
    destruct (pilotDict !! "DestinationSite") as [ce|]; [|regroup_stops].
    destruct (pilotDict !! "Queue") as [queue|]; [|regroup_stops].
    destruct (pilotDict !! "GridType") as [gridType|]; [|regroup_stops].
    destruct (IH (addPilot pilotRefDict
                    (join "@@@" [owner; group; site; ce; queue])
                    pilotReference gridType)
                 (AskPilotInfo pilotReference :: tr))
      as (Hkilled & Hrefused & Hok & Hnext).
    split; [by rewrite Hkilled|]. split; [by rewrite Hrefused|].
    split; [done|]. intros pilotRefDict' Hrun.
    destruct (Hnext pilotRefDict' Hrun) as [Hperm Hall]. split.
    + rewrite Hperm, groupedPilots_addPilot. simpl.
      by rewrite Permutation_middle.
    + apply Forall_cons. split; [|done]. by exists tr, value.
Qed.

Lemma setOwnerProxy_spec (gridType owner group : string) (ce : CE)
    (tr : list (KillEvent QueueDescr CE)) :
  killedPilots (setOwnerProxy env gridType owner group ce tr).2
  = killedPilots tr
  ∧ refusedPilots env (setOwnerProxy env gridType owner group ce tr).2
    = refusedPilots env tr
  ∧ (setOwnerProxy env gridType owner group ce tr).1 ≠ Return (S_OK tt).
Proof.
  unfold setOwnerProxy. destruct (bool_decide _); [|done].
  by destruct (kill_getProxy env _).
Qed.

(** One turn of the loop over the keys: the pilots of the key are handed
    to [killJob] once, and are counted as failed when it refuses. *)
Lemma killGroup_spec (failed : list string)
    (entry : string * (list string * string)) (tr : list (KillEvent QueueDescr CE)) :
  (killGroup env failed entry tr).1 ≠ Return (S_OK tt)
  ∧ ∀ failed',
      (killGroup env failed entry tr).1 = Next failed' →
      killedPilots (killGroup env failed entry tr).2
      = entry.2.1 ++ killedPilots tr
      ∧ (failed ≡ₚ refusedPilots env tr →
         failed' ≡ₚ refusedPilots env (killGroup env failed entry tr).2).
Proof.
  destruct entry as [key [pilotList gridType]]. unfold killGroup.
  destruct (split_str "@@@" key)
    as [|owner [|group [|site [|ce [|queue [|]]]]]]; try kill_stops.
  destruct (kill_getQueue env _) as [queueDict|msg]; [|kill_stops].
  destruct (kill_getCE env _) as [ce'|msg]; [|kill_stops].
  pose proof (setOwnerProxy_spec gridType owner group ce'
                (AskCE gridType ce queueDict :: AskQueue site ce queue :: tr))
    as (Hkilled & Hrefused & Hok).
  change (killedPilots (AskCE gridType ce queueDict
                          :: AskQueue site ce queue :: tr))
    with (killedPilots tr) in Hkilled.
  change (refusedPilots env (AskCE gridType ce queueDict
                               :: AskQueue site ce queue :: tr))
    with (refusedPilots env tr) in Hrefused.
  destruct (setOwnerProxy env gridType owner group ce' _) as [[[]|r|e|] tr1];
    cbn [fst snd] in *; try kill_stops;
    [|split; [by intros [= ->] | by intros ? [=]]].
  destruct (kill_killJob env (AskKillJob ce' pilotList :: tr1)) eqn:Ekill.
  - split; [done|]. intros failed' [= <-]. cbn [fst snd]. split.
    + change (killedPilots (AskKillJob ce' pilotList :: tr1))
        with (pilotList ++ killedPilots tr1).
      by rewrite Hkilled.
    + intros Hfailed. cbn [refusedPilots]. rewrite Ekill. cbn [isOK].
      by rewrite Hrefused.
  - split; [done|]. intros failed' [= <-]. cbn [fst snd]. split.
    + change (killedPilots (AskKillJob ce' pilotList :: tr1))
        with (pilotList ++ killedPilots tr1).
      by rewrite Hkilled.
    + intros Hfailed. cbn [refusedPilots]. rewrite Ekill. cbn [isOK].
      rewrite Hrefused, Hfailed. apply Permutation_app_comm.
Qed.

Lemma killGroups_spec (entries : list (string * (list string * string))) :
  ∀ (failed : list string) (tr : list (KillEvent QueueDescr CE)),
    (killGroups env entries failed tr).1 ≠ Return (S_OK tt)
    ∧ ∀ failed',
        (killGroups env entries failed tr).1 = Next failed' →
        killedPilots (killGroups env entries failed tr).2
        ≡ₚ concat entries.*2.*1 ++ killedPilots tr
        ∧ (failed ≡ₚ refusedPilots env tr →
           failed' ≡ₚ refusedPilots env (killGroups env entries failed tr).2).
Proof.
  induction entries as [|entry entries IH]; intros failed tr; cbn [killGroups].
  - split; [done|]. by intros failed' [= <-].
  - pose proof (killGroup_spec failed entry tr) as [Hok Hnext].
    destruct (killGroup env failed entry tr) as [[failed1|r|e|] tr1];
      simpl in *; try done.
    destruct (Hnext failed1 eq_refl) as [Hkilled Hfailed].
    destruct (IH failed1 tr1) as [Hok' Hnext']. split; [done|].
    intros failed' Hrun. destruct (Hnext' failed' Hrun) as [Hkilled' Hfailed'].
    split.
    + rewrite Hkilled', Hkilled. rewrite !app_assoc.
      apply Permutation_app; [apply Permutation_app_comm | done].
    + intros H. by apply Hfailed', Hfailed.
Qed.

(** X25. When the information of one of the pilots cannot be obtained
    (an error, or an empty answer), [export_killPilot] does not answer
    [S_OK()] and no pilot at all is handed to [killJob]: the information of
    all the pilots is read before the first pilot is killed
    (lines 526-529 and 544). *)
Theorem kill_needs_all_pilot_info (pilotRefList : PilotRefList)
    (pilotReference : string) :
  pilotReference ∈ pilotRefsOf pilotRefList →
  (∀ tr, match kill_getPilotInfo env (AskPilotInfo pilotReference :: tr) with
         | S_OK value => value = ∅
         | S_ERROR _ => True
         end) →
  (export_killPilot env pilotRefList []).1 ≠ Return (S_OK tt)
  ∧ killedPilots (export_killPilot env pilotRefList []).2 = [].
Proof.
  intros Hin Hinfo. unfold export_killPilot.
  destruct (regroup_spec (pilotRefsOf pilotRefList) ∅ [])
    as (Hkilled & _ & Hok & Hnext).
  destruct (regroup env (pilotRefsOf pilotRefList) ∅ [])
    as [[pilotRefDict|r|e|] tr]; cbn [fst snd] in *.
  - exfalso. destruct (Hnext pilotRefDict eq_refl) as [_ Hall].
    rewrite Forall_forall in Hall.
    destruct (Hall pilotReference Hin) as (tr' & value & Hvalue & Hne).
    specialize (Hinfo tr'). by rewrite Hvalue in Hinfo.
  - split; [by intros [= ->] | exact Hkilled].
  - split; [done | exact Hkilled].
  - split; [done | exact Hkilled].
Qed.

(** X26. [export_killPilot] answers [S_OK()] only when every pilot of its
    argument has been handed to [killJob], each exactly once, and no call
    of [killJob] was refused (lines 516-576). *)
Theorem kill_ok_kills_every_pilot (pilotRefList : PilotRefList)
    (tr : list (KillEvent QueueDescr CE)) :
  export_killPilot env pilotRefList [] = (Return (S_OK tt), tr) →
  killedPilots tr ≡ₚ pilotRefsOf pilotRefList
  ∧ refusedPilots env tr = [].
Proof.
  unfold export_killPilot.
  destruct (regroup_spec (pilotRefsOf pilotRefList) ∅ [])
    as (Hkilled & Hrefused & Hok & Hnext).
  destruct (regroup env (pilotRefsOf pilotRefList) ∅ [])
    as [[pilotRefDict|r|e|] tr1]; cbn [fst snd] in *;
    [|intros [= -> ->]; done | done | done].
  destruct (Hnext pilotRefDict eq_refl) as [Hperm _].
  destruct (killGroups_spec (map_to_list pilotRefDict) [] tr1) as [Hok' Hnext'].
  destruct (killGroups env (map_to_list pilotRefDict) [] tr1)
    as [[failed|r|e|] tr2]; cbn [fst snd] in *;
    [|intros [= -> ->]; done | done | done].
  destruct (Hnext' failed eq_refl) as [Hkilled' Hfailed].
  destruct failed as [|pilot failed]; [|done]. intros [= <-]. split.
  - rewrite Hkilled', Hkilled.
    change (killedPilots (@nil (KillEvent QueueDescr CE))) with (@nil string).
    rewrite app_nil_r.
    change (concat (map_to_list pilotRefDict).*2.*1)
      with (groupedPilots pilotRefDict).
    rewrite Hperm. unfold groupedPilots. rewrite map_to_list_empty. simpl.
    by rewrite app_nil_r.
  - apply Permutation_nil. apply Hfailed. by rewrite Hrefused.
Qed.

End KillPilotFacts.

(** ** More theorems on sample data *)

(** A catalogue of one queue with four processors. *)
Lemma getQueues_all_qualify_witness :
  ∃ queueDict',
    getQueues (S_OK tt) sampleResources fourProcessorQueues
    = (Return (S_OK tt), queueDict')
    ∧ ∀ k, queueDict' !! k
           = fourProcessorQueues !! k ≫= derivedQueue sampleResources.
Proof.
  apply (getQueues_all_qualify sampleResources fourProcessorQueues).
  intros k q H. unfold fourProcessorQueues in H.
  apply lookup_singleton_Some in H as [_ <-].
  vm_compute. eexists. reflexivity.
Defined.

(** The tag for eight processors. *)
Lemma processors_of_written_tag_witness :
  0 ≤ 8 ∧ processorsOf (processorsTag 8) = 8.
Proof.
  split; [lia|]. apply (processors_of_written_tag 8). lia.
Defined.

(** The tags derived for four processors and a whole node. *)
Lemma derived_tags_are_processor_tags_witness :
  pTags sampleParameters = None
  ∧ deriveTags sampleCE sampleParameters = Some sampleDerived
  ∧ processorTagsOf (default [] (pTags sampleDerived))
    = default [] (pTags sampleDerived).
Proof.
  assert (H1 : pTags sampleParameters = None) by reflexivity.
  assert (H2 : deriveTags sampleCE sampleParameters = Some sampleDerived)
    by (vm_compute; reflexivity).
  split; [exact H1|]. split; [exact H2|].
  exact (derived_tags_are_processor_tags sampleCE sampleParameters
           sampleDerived H1 H2).
Defined.

(** All the jobs wait for another site. *)
Lemma site_tests_skip_witness :
  processQueue sampleEnv sampleConfig oneQueue 5 elsewhereDemand
    ["LCG.Example.org"] "queueA" emptyState
  = (Next tt, emptyState).
Proof.
  apply (site_tests_skip sampleEnv sampleConfig oneQueue 5 elsewhereDemand
           ["LCG.Example.org"] "queueA" (sampleQueue sampleDerived)
           sampleTags emptyState).
  - simpl. lia.
  - vm_compute. reflexivity.
  - vm_compute. reflexivity.
  - reflexivity.
  - left. split; [reflexivity|]. simpl.
    intros H. apply elem_of_singleton in H. discriminate H.
Defined.

(** The matcher is down at the query of the cycle. *)
Lemma global_query_failure_ends_cycle_witness :
  submitJobs hostileEnv sampleConfig oneQueue 5 emptyState
  = (Return (S_ERROR "service is down"),
     set_trace [CallMatcher (tqDict sampleConfig ["x86_64"] sampleTags);
                CallPlatforms (platforms sampleConfig)] emptyState).
Proof.
  apply (global_query_failure_ends_cycle hostileEnv sampleConfig oneQueue 5
           emptyState ["x86_64"] sampleTags "service is down").
  - reflexivity.
  - vm_compute. reflexivity.
  - reflexivity.
Defined.

(** The site mask cannot be read. *)
Lemma site_mask_failure_ends_cycle_witness :
  ∃ σ',
    submitJobs maskDownEnv sampleConfig oneQueue 5 emptyState
    = (Return (S_ERROR "Can not get the site mask"), σ')
    ∧ failedQueues σ' = failedQueues emptyState
    ∧ queueSlots σ' = queueSlots emptyState.
Proof.
  destruct (site_mask_failure_ends_cycle maskDownEnv sampleConfig oneQueue 5
              emptyState ["x86_64"] sampleTags weightedTaskQueues
              "mask is down")
    as (σ' & Hrun & _ & Hf & Hs).
  - reflexivity.
  - vm_compute. reflexivity.
  - reflexivity.
  - intros H. apply (f_equal (λ m : gmap Z TaskQueue, m !! 1)) in H.
    vm_compute in H. discriminate H.
  - reflexivity.
  - exists σ'. split; [exact Hrun|]. split; [exact Hf | exact Hs].
Defined.

(** A computing element that accepts every submission. *)
Lemma eligible_queue_counts_no_failure_witness :
  neverRefuses sampleEnv
  ∧ failedQueues
      (processEligibleQueue sampleEnv sampleConfig oneQueue 5 someDemand
         ["LCG.Example.org"] "queueA" emptyState).2
    = failedQueues emptyState.
Proof.
  assert (H : neverRefuses sampleEnv) by (intros tr queue e n p; reflexivity).
  split; [exact H|].
  exact (eligible_queue_counts_no_failure sampleEnv sampleConfig oneQueue 5
           someDemand ["LCG.Example.org"] "queueA" emptyState H).
Defined.

(** Five pilots wanted for a queue with five free slots, bundles of two
    pilots at most, five turns allowed: the loop ends after three turns,
    with bundles of two, two and one. *)
Lemma submission_loop_ends_witness :
  executableNotEmpty smallBundleEnv
  ∧ smallBundleRun.1 ≠ OutOfFuel
  ∧ smallBundleRun.1 = Next tt
  ∧ submissions (trace smallBundleRun.2)
    = [("queueA", 1); ("queueA", 2); ("queueA", 2)]
  ∧ queueSlots smallBundleRun.2 !! "queueA" = Some 0.
Proof.
  assert (H : executableNotEmpty smallBundleEnv).
  { intros tr queue n bundleProxy httpProxy jobExecDir executable chunk Heq.
    simpl in Heq. injection Heq as _ <-. lia. }
  split; [exact H|]. split.
  - apply (submission_loop_ends smallBundleEnv sampleConfig 5 "queueA"
             (sampleQueue sampleDerived) weightedTaskQueues [1; 2] 2 5 10 0
             threeWantedFiveSlots H).
    vm_compute. discriminate.
  - split; [vm_compute; reflexivity|]. split; vm_compute; reflexivity.
Defined.

(** Three pilots wanted and bundles for none. *)
Lemma empty_bundles_never_end_witness :
  emptySubmissions emptyBundleEnv
  ∧ (submitLoop emptyBundleEnv 7 "queueA" (sampleQueue sampleDerived)
       weightedTaskQueues [1; 2] 2 threeWantedFiveSlots).1
    = OutOfFuel.
Proof.
  assert (H : emptySubmissions emptyBundleEnv).
  { split; intros; eexists; reflexivity. }
  split; [exact H|].
  apply (empty_bundles_never_end emptyBundleEnv 7 "queueA"
           (sampleQueue sampleDerived) weightedTaskQueues [1; 2] 2
           [(1, 1%float); (2, 4%float)] 4%float threeWantedFiveSlots H).
  - vm_compute. reflexivity.
  - simpl. lia.
  - vm_compute. eexists. reflexivity.
Defined.

(** Two tags' worth of jobs and a maximum of a hundred pilots. *)
Lemma queue_submissions_within_maximum_witness :
  executableWithinRequest sampleEnv
  ∧ queueSubmittedPilots
      (matchAndSubmit sampleEnv sampleConfig 5 "queueA"
         (sampleQueue sampleDerived) true sampleTags 1000 ["x86_64"]
         emptyState).2
    ≤ Z.max 0 (maxPilotsToSubmit sampleConfig).
Proof.
  assert (H : executableWithinRequest sampleEnv).
  { intros tr queue n bundleProxy httpProxy jobExecDir executable chunk Heq.
    simpl in Heq. injection Heq as _ <-. lia. }
  split; [exact H|].
  apply (queue_submissions_within_maximum sampleEnv sampleConfig 5 "queueA"
           (sampleQueue sampleDerived) true sampleTags 1000 ["x86_64"]
           weightedTaskQueues emptyState H).
  - reflexivity.
  - intros H'. apply (f_equal (λ m : gmap Z TaskQueue, m !! 1)) in H'.
    vm_compute in H'. discriminate H'.
Defined.

(** One grid, two sites, one of them in the mask. *)
Lemma site_mask_summary_complete_witness :
  ∃ siteDict,
    export_getSiteMaskSummary sampleSections (S_OK sampleMask)
    = Returned (S_OK siteDict)
    ∧ siteDict !! "LCG.Example.org" = Some "Active"
    ∧ siteDict !! "LCG.Other.ch" = Some "Unknown".
Proof.
  destruct (site_mask_summary_complete sampleSections ["LCG"] sampleMask)
    as (siteDict & Hrun & Hmask & Hconf & _).
  - reflexivity.
  - repeat constructor.
  - exists siteDict. split; [exact Hrun|]. split.
    + apply Hmask. reflexivity.
    + apply (Hconf "LCG" ["LCG.Example.org"; "LCG.Other.ch"]).
      * apply list_elem_of_here.
      * reflexivity.
      * apply list_elem_of_further, list_elem_of_here.
      * reflexivity.
Defined.

(** The section of the second grid cannot be read. *)
Lemma site_mask_summary_unread_section_witness :
  export_getSiteMaskSummary brokenSections (S_OK sampleMask)
  = Returned (S_ERROR "no such section").
Proof.
  apply (site_mask_summary_unread_section brokenSections (S_OK sampleMask)
           ["LCG"] "DIRAC" [] "no such section").
  - reflexivity.
  - repeat constructor.
  - reflexivity.
Defined.

(** Two pilots were done in the last day, and none is reported. *)
Lemma pilot_counters_by_status_witness :
  ∃ resultDict,
    export_getCurrentPilotCounters sampleCounters 100 1
    = Returned (S_OK resultDict)
    ∧ resultDict !! "Running" = Some 4
    ∧ resultDict !! "Done" = Some 0.
Proof.
  destruct (pilot_counters_by_status sampleCounters 100 1
              [({[ "Status" := "Running" ]}, 4); ({[ "Status" := "Done" ]}, 7)]
              [({[ "Status" := "Aborted" ]}, 1); ({[ "Status" := "Done" ]}, 2)])
    as (resultDict & Hrun & Hlookup).
  - reflexivity.
  - reflexivity.
  - repeat constructor; vm_compute; eexists; reflexivity.
  - repeat constructor; vm_compute; eexists; reflexivity.
  - exists resultDict. split; [exact Hrun|]. split.
    + rewrite (Hlookup "Running"). vm_compute. reflexivity.
    + rewrite (Hlookup "Done"). vm_compute. reflexivity.
Defined.

(** Two sites with a country and one without a dot. *)
Lemma selectors_countries_and_sites_witness :
  ∃ selectors,
    export_getSiteSummarySelectors sampleSections = Returned (S_OK selectors)
    ∧ Sorted string_le (selCountry selectors)
    ∧ NoDup (selCountry selectors).
Proof.
  destruct (selectors_countries_and_sites sampleSections ["LCG"])
    as (selectors & Hrun & _ & Hsorted & Hnodup & _).
  - reflexivity.
  - intros site H. vm_compute in H.
    repeat (apply elem_of_cons in H as [-> | H]); try (vm_compute; lia).
    by apply elem_of_nil in H.
  - exists selectors. split; [exact Hrun|]. split; [exact Hsorted | exact Hnodup].
Defined.

(** Two searches without a type, then six calls more. *)
Lemma types_loaded_until_found_witness :
  getTypesTimes unit sampleLoadObjects (2 + 4) newLoader
  = (replicate 2 ∅ ++ replicate 4 (sampleLoadObjects 2),
     {| loaded := sampleLoadObjects 2; loads := 3 |}).
Proof.
  apply (types_loaded_until_found unit sampleLoadObjects 2 3).
  - intros i Hi. destruct i as [|[|i]]; [reflexivity | reflexivity | lia].
  - intros H. apply (f_equal (λ m : gmap string unit, m !! "WMSHistory")) in H.
    vm_compute in H. discriminate H.
Defined.

(** Three pilots accepted at once. *)
Lemma accepted_pilots_are_recorded_witness :
  ∃ σ',
    submitOnce sampleEnv "queueA" (sampleQueue sampleDerived)
      weightedTaskQueues [1; 2] 2 threeWantedFiveSlots
    = (Next tt, σ')
    ∧ concat (recordedPilots (trace σ')).*1 ≡ₚ ["pilot0"; "pilot1"; "pilot2"].
Proof.
  edestruct (accepted_pilots_are_recorded sampleEnv "queueA"
               (sampleQueue sampleDerived) weightedTaskQueues [1; 2] 2
               threeWantedFiveSlots)
    as (σ' & Hrun & Hperm);
    [reflexivity | reflexivity | vm_compute; reflexivity
    | vm_compute; reflexivity |].
  exists σ'. split; [exact Hrun | exact Hperm].
Defined.

(** The five fields of the key of a pilot. *)
Lemma split_join_fields_witness :
  split_str "@@@"
    (join "@@@" ["/DC=org/CN=user"; "user_group"; "LCG.Example.org";
                 "ce.example.org"; "long"])
  = ["/DC=org/CN=user"; "user_group"; "LCG.Example.org"; "ce.example.org";
     "long"].
Proof.
  apply (split_join_fields ["/DC=org/CN=user"; "user_group";
                            "LCG.Example.org"; "ce.example.org"; "long"]).
  - discriminate.
  - repeat constructor.
Defined.

(** One of the two pilots is not known. *)
Lemma kill_needs_all_pilot_info_witness :
  (export_killPilot sampleKillEnv (References ["pilotA"; "ghost"]) []).1
  ≠ Return (S_OK tt)
  ∧ killedPilots
      (export_killPilot sampleKillEnv (References ["pilotA"; "ghost"]) []).2
    = [].
Proof.
  apply (kill_needs_all_pilot_info unit string sampleKillEnv
           (References ["pilotA"; "ghost"]) "ghost").
  - simpl. apply list_elem_of_further, list_elem_of_here.
  - intros tr. vm_compute. exact I.
Defined.

(** Two pilots of the same owner, site and queue. *)
Lemma kill_ok_kills_every_pilot_witness :
  ∃ tr,
    export_killPilot sampleKillEnv (References ["pilotA"; "pilotB"]) []
    = (Return (S_OK tt), tr)
    ∧ killedPilots tr ≡ₚ ["pilotA"; "pilotB"]
    ∧ refusedPilots sampleKillEnv tr = [].
Proof.
  eexists. split; [vm_compute; reflexivity|].
  apply (kill_ok_kills_every_pilot unit string sampleKillEnv
           (References ["pilotA"; "pilotB"])).
  vm_compute. reflexivity.
Defined.
